(** * live-f1: packet handling (packet.c)

    A shallow embedding of [handle_car_packet] and [handle_system_packet]
    from [src/packet.c], together with the properties of the reduction of
    decoded packets into the current race state.

    Conventions of the embedding.
    - C [int] and [unsigned int] values are integers of [Z]; the wrap-around
      of [unsigned int] arithmetic (32 bits) is written out with [to_uint].
    - The two arrays of the state, [car_position] and [car_info], are lists;
      every array access is bounds-checked by the model, and an access the C
      program would perform outside the array is an [Undefined] outcome.
    - The display ([display.c]), the HTTP collaborators and the logger do
      not assign to the state structure; their calls are recorded in order
      in the log of the [Run] monad.  ([clear_board] may leave the process
      when the terminal is too small; that is outside this model.) *)

From stdpp Require Import base numbers list strings option.

Local Open Scope Z_scope.

(** ** Constants of packet.h

    [packet.h] declares the enumerations switched upon in [packet.c] and the
    [CarAtom] structure; the values of the enumerators and the size of the
    [text] array are taken as parameters.  The case labels of one C [switch]
    are pairwise distinct, otherwise the program does not compile. *)

Class PacketH : Type := {
  CAR_POSITION_UPDATE : Z;
  CAR_POSITION_HISTORY : Z;
  LAST_CAR_PACKET : Z;
  SYS_EVENT_ID : Z;
  SYS_KEY_FRAME : Z;
  SYS_WEATHER : Z;
  SYS_TRACK_STATUS : Z;
  SYS_COPYRIGHT : Z;
  SYS_NOTICE : Z;
  (** [sizeof (((CarAtom * ) 0)->text)], the capacity of an atom's text *)
  TEXT_SIZE : Z;
  car_labels_distinct : CAR_POSITION_UPDATE ≠ CAR_POSITION_HISTORY;
  sys_labels_distinct :
    NoDup [SYS_EVENT_ID; SYS_KEY_FRAME; SYS_WEATHER;
           SYS_TRACK_STATUS; SYS_COPYRIGHT; SYS_NOTICE]
}.

(** ** Data model *)

(** [Packet]: the decoded packet; [payload] is the whole [payload] array of
    the structure, of which the first [len] bytes were received. *)
Record Packet : Type := mkPacket {
  car : Z;
  type : Z;
  data : Z;
  len : Z;
  payload : list Z
}.

(** [CarAtom]: [text] is the C string held in the fixed array (the bytes
    before the terminating NUL). *)
Record CarAtom : Type := mkCarAtom {
  atom_data : Z;
  atom_text : list Z
}.

(** [memset (&atom, 0, sizeof (CarAtom))] *)
Definition zero_atom : CarAtom := mkCarAtom 0 [].

(** [CurrentState], with the members that [packet.c] and [display.c] use.
    [decryption] stands for the state of the keyed stream transform that
    [reset_decryption] resynchronises. *)
Record CurrentState : Type := mkState {
  host : string;
  cookie : string;
  key : Z;
  decryption : Z;
  frame : Z;
  event_no : Z;
  event_type : Z;
  epoch_time : Z;
  remaining_time : Z;
  lap : Z;
  flag : Z;
  num_cars : Z;
  car_position : list Z;
  car_info : list (list CarAtom)
}.

Definition set_frame (n : Z) (st : CurrentState) : CurrentState :=
  mkState (host st) (cookie st) (key st) (decryption st) n (event_no st)
    (event_type st) (epoch_time st) (remaining_time st) (lap st) (flag st)
    (num_cars st) (car_position st) (car_info st).

Definition set_decryption (d : Z) (st : CurrentState) : CurrentState :=
  mkState (host st) (cookie st) (key st) d (frame st) (event_no st)
    (event_type st) (epoch_time st) (remaining_time st) (lap st) (flag st)
    (num_cars st) (car_position st) (car_info st).

Definition set_epoch_time (t : Z) (st : CurrentState) : CurrentState :=
  mkState (host st) (cookie st) (key st) (decryption st) (frame st)
    (event_no st) (event_type st) t (remaining_time st) (lap st) (flag st)
    (num_cars st) (car_position st) (car_info st).

Definition set_remaining_time (t : Z) (st : CurrentState) : CurrentState :=
  mkState (host st) (cookie st) (key st) (decryption st) (frame st)
    (event_no st) (event_type st) (epoch_time st) t (lap st) (flag st)
    (num_cars st) (car_position st) (car_info st).

Definition set_flag (f : Z) (st : CurrentState) : CurrentState :=
  mkState (host st) (cookie st) (key st) (decryption st) (frame st)
    (event_no st) (event_type st) (epoch_time st) (remaining_time st)
    (lap st) f (num_cars st) (car_position st) (car_info st).

Definition set_car_position (l : list Z) (st : CurrentState) : CurrentState :=
  mkState (host st) (cookie st) (key st) (decryption st) (frame st)
    (event_no st) (event_type st) (epoch_time st) (remaining_time st)
    (lap st) (flag st) (num_cars st) l (car_info st).

Definition set_car_info (t : list (list CarAtom)) (st : CurrentState)
  : CurrentState :=
  mkState (host st) (cookie st) (key st) (decryption st) (frame st)
    (event_no st) (event_type st) (epoch_time st) (remaining_time st)
    (lap st) (flag st) (num_cars st) (car_position st) t.

(** ** Calls out of the reducers

    An event is a call that packet.c makes itself.  What the callee does
    is not in the log: [clear_car], [update_car], [update_cell] and
    [update_status] rebuild the board by a [clear_board] of their own when
    the display is not open yet or the board has too few lines (display.c,
    lines 239-240, 410-411, 433-434, 457-464 and 485-486).  [ClearBoard]
    is the call of line 74 or of line 169 of packet.c, and no other. *)

Inductive InfoMsg : Type :=
  | BeginNewEvent (no ty : Z)
  | PayloadLine (s : list Z).

Inductive Event : Type :=
  | ClearBoard
  | ClearCar (c : Z)
  | UpdateCar (c : Z)
  | UpdateCell (c t : Z)
  | UpdateStatus
  | UpdateTime
  | ClosePopup
  | ObtainDecryptionKey (h : string) (number : Z) (ck : string)
  | ResetDecryption
  | ObtainKeyFrame (h : string) (number : Z)
  | LogInfo (irrelevance : Z) (msg : InfoMsg).

Global Instance InfoMsg_eq_dec : EqDecision InfoMsg.
Proof. solve_decision. Defined.

Global Instance Event_eq_dec : EqDecision Event.
Proof. solve_decision. Defined.

(** ** Outcomes *)

Inductive Fault : Type :=
  | OutOfBounds      (* an array is read or written outside its bounds *)
  | BufferOverrun.   (* strcpy writes past the end of [CarAtom.text] *)

Inductive Run (A : Type) : Type :=
  | Done (a : A) (log : list Event)
  | Undefined (f : Fault).

Arguments Done {A} a log.
Arguments Undefined {A} f.

Global Instance Run_ret : MRet Run := λ A a, Done a [].

Global Instance Run_bind : MBind Run := λ A B k m,
  match m with
  | Done a l =>
      match k a with
      | Done b l' => Done b (l ++ l')
      | Undefined f => Undefined f
      end
  | Undefined f => Undefined f
  end.

Definition emit (e : Event) : Run () := Done () [e].

(** [a[i]] as an rvalue *)
Definition fetch {A} (a : list A) (i : Z) : Run A :=
  if i <? 0 then Undefined OutOfBounds
  else match a !! Z.to_nat i with
       | Some x => mret x
       | None => Undefined OutOfBounds
       end.

(** [a[i] = x] *)
Definition store {A} (a : list A) (i : Z) (x : A) : Run (list A) :=
  if (i <? 0) || (Z.of_nat (length a) <=? i) then Undefined OutOfBounds
  else mret (<[Z.to_nat i := x]> a).

(** conversion to [unsigned int] *)
Definition to_uint (z : Z) : Z := z mod 2 ^ 32.

Arguments to_uint : simpl never.

(** The C string starting at the beginning of a byte array: the bytes before
    the first NUL, if there is a NUL in the array. *)
Fixpoint c_string (buf : list Z) : option (list Z) :=
  match buf with
  | [] => None
  | b :: buf' => if b =? 0 then Some [] else (b ::.) <$> c_string buf'
  end.

(** External collaborators: [obtain_decryption_key] and [obtain_key_frame]
    of http.c, and the value [reset_decryption] of stream.c puts the
    transform back to.  [obtain_key_frame] receives the state and replays
    the packets of the key frame into it. *)
Record Collaborators : Type := mkCollaborators {
  obtain_decryption_key : string → Z → string → Z;
  obtain_key_frame : string → Z → CurrentState → Run CurrentState;
  decryption_start : Z
}.

Section Handlers.

Context `{!PacketH}.

(** *** handle_car_packet *)

(** [strcpy (atom->text, packet->payload)]: copies the string and its NUL,
    whatever the size of the destination. *)
Definition strcpy (src : list Z) : Run (list Z) :=
  match c_string src with
  | None => Undefined OutOfBounds
  | Some s =>
      if TEXT_SIZE <=? Z.of_nat (length s) then Undefined BufferOverrun
      else mret s
  end.

(** packet.c, lines 59-73: both arrays are reallocated to [car] entries and
    the entries from [num_cars] on are zeroed.  (The arrays hold [num_cars]
    entries, see [wf_state].) *)
Definition new_cars (st : CurrentState) (c : Z) : CurrentState :=
  let n := Z.to_nat (c - num_cars st) in
  mkState (host st) (cookie st) (key st) (decryption st) (frame st)
    (event_no st) (event_type st) (epoch_time st) (remaining_time st)
    (lap st) (flag st)
    c
    (car_position st ++ replicate n 0)
    (car_info st ++ replicate n (replicate (Z.to_nat LAST_CAR_PACKET) zero_atom)).

(** lines 56-75 *)
Definition car_joined (st : CurrentState) (pkt : Packet) : Run CurrentState :=
  if num_cars st <? car pkt then
    emit ClearBoard;; mret (new_cars st (car pkt))
  else mret st.

(** lines 92-94, over the [num_cars] entries of the array *)
Definition clear_position (p : Z) (l : list Z) : list Z :=
  (λ y, if y =? p then 0 else y) <$> l.

(** lines 112-115 *)
Definition update_atom (pkt : Packet) (atom : CarAtom) : Run CarAtom :=
  let atom := mkCarAtom (data pkt) (atom_text atom) in
  if 0 <=? len pkt then
    s ← strcpy (payload pkt); mret (mkCarAtom (atom_data atom) s)
  else mret atom.

(** lines 45-120.  [clear_car] and [update_car] of display.c read
    [car_position[car - 1]], the entry that line 96 writes. *)
Definition handle_car_packet (st : CurrentState) (pkt : Packet)
  : Run CurrentState :=
  st ← car_joined st pkt;
  if type pkt =? CAR_POSITION_UPDATE then
    emit (ClearCar (car pkt));;
    positions ← store (clear_position (data pkt) (car_position st))
                      (car pkt - 1) (data pkt);
    let st := set_car_position positions st in
    (if data pkt =? 0 then mret () else emit (UpdateCar (car pkt)));;
    mret st
  else if type pkt =? CAR_POSITION_HISTORY then
    mret st
  else
    row ← fetch (car_info st) (car pkt - 1);
    atom ← fetch row (type pkt);
    atom ← update_atom pkt atom;
    row ← store row (type pkt) atom;
    info ← store (car_info st) (car pkt - 1) row;
    emit (UpdateCell (car pkt) (type pkt));;
    mret (set_car_info info st).

(** *** handle_system_packet *)

(** [number *= 10; number += packet->payload[i] - '0';] on [unsigned int] *)
Definition decimal_step (number b : Z) : Z :=
  to_uint (to_uint (number * 10) + (b - 48)).

(** [total *= 60; total += number;] *)
Definition fold_minutes (total number : Z) : Z :=
  to_uint (to_uint (total * 60) + number).

(** lines 146-149: [for (i = 1; i < packet->len; i++)].  [rest] is the part
    of the payload array from index [i] on; [i] being unsigned, the bound is
    [len] converted to [unsigned int]. *)
Fixpoint event_number_loop (rest : list Z) (i ulen number : Z) : Run Z :=
  if i <? ulen then
    match rest with
    | [] => Undefined OutOfBounds
    | b :: rest' => event_number_loop rest' (i + 1) ulen (decimal_step number b)
    end
  else mret number.

(** lines 226-236 *)
Fixpoint duration_loop (rest : list Z) (i ulen total number : Z)
  : Run (Z * Z) :=
  if i <? ulen then
    match rest with
    | [] => Undefined OutOfBounds
    | b :: rest' =>
        if b =? 58 then
          duration_loop rest' (i + 1) ulen (fold_minutes total number) 0
        else
          duration_loop rest' (i + 1) ulen total (decimal_step number b)
    end
  else mret (total, number).

(** lines 183-186: [while (i) { number <<= 8; number |= payload[--i]; }] *)
Fixpoint key_frame_loop (pl : list Z) (i : nat) (number : Z) : Run Z :=
  match i with
  | O => mret number
  | S i' =>
      b ← fetch pl (Z.of_nat i');
      key_frame_loop pl i' (Z.lor (to_uint (Z.shiftl number 8)) b)
  end.

(** lines 181-186; [i = packet->len] converts to [unsigned int], and the
    first byte read is [payload[i - 1]]: beyond the array, the loop is
    undefined from its first iteration. *)
Definition key_frame_number (pkt : Packet) : Run Z :=
  let ulen := to_uint (len pkt) in
  if Z.of_nat (length (payload pkt)) <? ulen then Undefined OutOfBounds
  else key_frame_loop (payload pkt) (Z.to_nat ulen) 0.

Context (env : Collaborators).

(** Modelled from the spec: [reset_decryption] of stream.c, which is not
    among the sources, resynchronises the keyed stream transform: the call
    is logged and the [decryption] member is put back to its start value;
    nothing else of the state changes. *)
Definition reset_decryption (st : CurrentState) : Run CurrentState :=
  emit ResetDecryption;; mret (set_decryption (decryption_start env) st).

(** lines 145-172 *)
Definition event_start (st : CurrentState) (pkt : Packet) : Run CurrentState :=
  number ← event_number_loop (drop 1 (payload pkt)) 1 (to_uint (len pkt)) 0;
  emit (ObtainDecryptionKey (host st) number (cookie st));;
  st ← reset_decryption
         (mkState (host st) (cookie st)
            (obtain_decryption_key env (host st) number (cookie st))
            (decryption st) (frame st)
            number (data pkt) 0 0 0 (flag st)
            0 [] []);
  emit ClearBoard;;
  emit (LogInfo 3 (BeginNewEvent (event_no st) (event_type st)));;
  mret st.

(** lines 181-197 *)
Definition key_frame (st : CurrentState) (pkt : Packet) : Run CurrentState :=
  number ← key_frame_number pkt;
  st ← reset_decryption st;
  if frame st =? 0 then
    let st := set_frame number st in
    emit (ObtainKeyFrame (host st) number);;
    st ← obtain_key_frame env (host st) number st;
    reset_decryption st
  else
    mret (set_frame number st).

(** lines 222-249; [now] is what [time (NULL)] returns. *)
Definition session_time (now : Z) (st : CurrentState) (pkt : Packet)
  : Run CurrentState :=
  st ← (if 0 <? len pkt then
          '(total, number) ← duration_loop (payload pkt) 0 (to_uint (len pkt)) 0 0;
          let total := fold_minutes total number in
          let st := if epoch_time st =? 0 then st else set_epoch_time now st in
          mret (set_remaining_time total st)
        else
          mret (set_epoch_time now st));
  emit ClosePopup;;
  emit UpdateTime;;
  mret st.

(** lines 268-269.  [update_status] rebuilds the board itself when the
    display is not open yet (display.c, lines 485-486); the event stands
    for the whole call. *)
Definition track_flag (st : CurrentState) (pkt : Packet) : Run CurrentState :=
  b ← fetch (payload pkt) 0;
  emit UpdateStatus;;
  mret (set_flag (b - 48) st).

(** [info (irrelevance, "%s\n", packet->payload)] *)
Definition info_payload (irrelevance : Z) (pkt : Packet) : Run () :=
  match c_string (payload pkt) with
  | None => Undefined OutOfBounds
  | Some s => emit (LogInfo irrelevance (PayloadLine s))
  end.

(** lines 129-297 *)
Definition handle_system_packet (now : Z) (st : CurrentState) (pkt : Packet)
  : Run CurrentState :=
  if type pkt =? SYS_EVENT_ID then event_start st pkt
  else if type pkt =? SYS_KEY_FRAME then key_frame st pkt
  else if type pkt =? SYS_WEATHER then
    if data pkt =? 0 then session_time now st pkt
    else mret st
  else if type pkt =? SYS_TRACK_STATUS then
    if data pkt =? 1 then track_flag st pkt
    else mret st
  else if type pkt =? SYS_COPYRIGHT then
    info_payload 2 pkt;; mret st
  else if type pkt =? SYS_NOTICE then
    info_payload 0 pkt;; mret st
  else mret st.

End Handlers.

(** * Vocabulary of the properties *)

Section Vocabulary.

Context `{!PacketH}.

(** The position of car [c] (car numbers start at 1). *)
Definition position_of (st : CurrentState) (c : Z) : option Z :=
  if c <? 1 then None else car_position st !! Z.to_nat (c - 1).

(** The atom of car [c] for the packet type [t]. *)
Definition atom_of (st : CurrentState) (c t : Z) : option CarAtom :=
  if (c <? 1) || (t <? 0) then None
  else car_info st !! Z.to_nat (c - 1) ≫= (.!! Z.to_nat t).

(** No two cars of the board share a row other than 0. *)
Definition row_unique (st : CurrentState) : Prop :=
  ∀ i j p, 1 ≤ i ≤ num_cars st → 1 ≤ j ≤ num_cars st → p ≠ 0 →
    position_of st i = Some p → position_of st j = Some p → i = j.

Definition rows_unique (l : list Z) : Prop :=
  ∀ (i j : nat) p, l !! i = Some p → l !! j = Some p → p ≠ 0 → i = j.

(** Both arrays hold [num_cars] entries, and every car has an atom for each
    of the [LAST_CAR_PACKET] packet types. *)
Definition wf_state (st : CurrentState) : Prop :=
  0 ≤ num_cars st ∧
  length (car_position st) = Z.to_nat (num_cars st) ∧
  length (car_info st) = Z.to_nat (num_cars st) ∧
  Forall (λ row, length row = Z.to_nat LAST_CAR_PACKET) (car_info st).

Definition board_ok (st : CurrentState) : Prop :=
  wf_state st ∧ row_unique st.

Definition same_board (st st' : CurrentState) : Prop :=
  num_cars st' = num_cars st ∧
  car_position st' = car_position st ∧
  car_info st' = car_info st.

(** The state after lines 56-75. *)
Definition joined (st : CurrentState) (c : Z) : CurrentState :=
  if num_cars st <? c then new_cars st c else st.

Definition joined_log (st : CurrentState) (c : Z) : list Event :=
  if num_cars st <? c then [ClearBoard] else [].

(** Packets that the car reducer handles without leaving the arrays. *)
Definition car_packet_ok (pkt : Packet) : Prop :=
  1 ≤ car pkt ∧
  (type pkt = CAR_POSITION_UPDATE ∨ type pkt = CAR_POSITION_HISTORY ∨
   (0 ≤ type pkt < LAST_CAR_PACKET ∧
    (len pkt < 0 ∨
     ∃ s, c_string (payload pkt) = Some s ∧ Z.of_nat (length s) < TEXT_SIZE))).

Definition zero_row : list CarAtom :=
  replicate (Z.to_nat LAST_CAR_PACKET) zero_atom.

(** The accumulation rules of the numerals, on unbounded integers. *)
Definition ascii_decimal (bs : list Z) : Z :=
  foldl (λ number b, number * 10 + (b - 48)) 0 bs.

Definition duration_fold (acc : Z * Z) (b : Z) : Z * Z :=
  if b =? 58 then (fst acc * 60 + snd acc, 0)
  else (fst acc, snd acc * 10 + (b - 48)).

Definition duration_seconds (bs : list Z) : Z :=
  let acc := foldl duration_fold (0, 0) bs in fst acc * 60 + snd acc.

Definition key_frame_step (number b : Z) : Z :=
  Z.lor (to_uint (Z.shiftl number 8)) b.

Definition is_digit (b : Z) : Prop := 48 ≤ b ≤ 57.

(** The values of [int]. *)
Definition int_range (z : Z) : Prop := - 2 ^ 31 ≤ z < 2 ^ 31.

(** The state that the event start leaves, lines 151-167. *)
Definition event_started (env : Collaborators) (st : CurrentState)
    (number ty : Z) : CurrentState :=
  mkState (host st) (cookie st)
    (obtain_decryption_key env (host st) number (cookie st))
    (decryption_start env) (frame st)
    number ty 0 0 0 (flag st)
    0 [] [].

Definition event_start_log (st : CurrentState) (number ty : Z) : list Event :=
  [ObtainDecryptionKey (host st) number (cookie st); ResetDecryption;
   ClearBoard; LogInfo 3 (BeginNewEvent number ty)].

(** The key-frame collaborator hands back a board as sound as it received. *)
Definition key_frame_preserves (env : Collaborators) : Prop :=
  ∀ h number st st' log,
    board_ok st → obtain_key_frame env h number st = Done st' log →
    board_ok st'.

(** How often a call occurs in a log. *)
Definition calls (e : Event) (log : list Event) : nat :=
  length (filter (λ e', e' = e) log).

Definition is_key_frame_request (e : Event) : bool :=
  match e with ObtainKeyFrame _ _ => true | _ => false end.

(** How many key frames a log asks for. *)
Definition key_frame_requests (log : list Event) : nat :=
  length (filter (λ e, is_key_frame_request e = true) log).

End Vocabulary.

(** ** Runs of the feed *)

(** The states that a run reaches: it starts with an empty board, and every
    packet is reduced by one of the two handlers. *)
Inductive reachable `{!PacketH} (env : Collaborators) : CurrentState → Prop :=
  | reachable_start st :
      num_cars st = 0 → car_position st = [] → car_info st = [] →
      reachable env st
  | reachable_car st pkt st' log :
      reachable env st → handle_car_packet st pkt = Done st' log →
      reachable env st'
  | reachable_system st now pkt st' log :
      reachable env st → handle_system_packet env now st pkt = Done st' log →
      reachable env st'.

Inductive Scope : Type := CarScope | SystemScope.

(** A packet as it arrives: its scope, and what [time (NULL)] returns while
    it is reduced. *)
Record Arrival : Type := mkArrival {
  scope : Scope;
  clock : Z;
  packet : Packet
}.

Section Dispatcher.

Context `{!PacketH}.

(** Modelled from the spec: the Dispatcher (stream.c is not part of the
    sources at hand) routes a decoded packet to the car reducer or to the
    system reducer, according to its scope. *)
Definition dispatch (env : Collaborators) (st : CurrentState) (a : Arrival)
  : Run CurrentState :=
  match scope a with
  | CarScope => handle_car_packet st (packet a)
  | SystemScope => handle_system_packet env (clock a) st (packet a)
  end.

Fixpoint reduce_all (env : Collaborators) (feed : list Arrival)
    (st : CurrentState) : Run CurrentState :=
  match feed with
  | [] => mret st
  | a :: feed' => st ← dispatch env st a; reduce_all env feed' st
  end.

(** Modelled from the spec: [obtain_key_frame] (http.c is not part of the
    sources at hand) replays the packets of the key frame through the
    Dispatcher.  [key_frames number] is the content of key frame [number];
    [depth] bounds the key frames fetched while a key frame is replayed, and
    a key frame that is not retrieved leaves the state as it is. *)
Fixpoint replaying (keys : string → Z → string → Z)
    (key_frames : Z → list Arrival) (start : Z) (depth : nat)
  : Collaborators :=
  match depth with
  | O => mkCollaborators keys (λ _ _ st, mret st) start
  | S d =>
      mkCollaborators keys
        (λ _ number st,
           reduce_all (replaying keys key_frames start d) (key_frames number) st)
        start
  end.

End Dispatcher.

(** ** An instance of the constants

    The enumerators as the feed numbers them, and atoms of sixteen bytes.
    The properties below hold for every instance; this one serves to run
    the reducers on packets. *)

Definition feed_packet_h : PacketH :=
  {| CAR_POSITION_UPDATE := 0;
     CAR_POSITION_HISTORY := 15;
     LAST_CAR_PACKET := 16;
     SYS_EVENT_ID := 1;
     SYS_KEY_FRAME := 2;
     SYS_WEATHER := 9;
     SYS_TRACK_STATUS := 11;
     SYS_COPYRIGHT := 12;
     SYS_NOTICE := 6;
     TEXT_SIZE := 16;
     car_labels_distinct := ltac:(discriminate);
     sys_labels_distinct :=
       bool_decide_unpack (NoDup [1; 2; 9; 11; 12; 6]) I |}.

(** The state at program start, connected to [h] with the cookie [ck]. *)
Definition start_state (h ck : string) : CurrentState :=
  mkState h ck 0 0 0 0 0 0 0 0 0 0 [] [].

(** Collaborators for the examples: the key of event [n] is [n + 1], and no
    key frame is retrieved. *)
Definition offline : Collaborators :=
  mkCollaborators (λ _ number _, number + 1) (λ _ _ st, mret st) 1431655765.

(** The bytes of a string literal. *)
Definition bytes (s : string) : list Z :=
  (λ b, Z.of_N (Byte.to_N b)) <$> String.list_byte_of_string s.

(** A key-frame provider whose key frames all hold the same two position
    updates, both for row 3. *)
Definition two_updates : list Arrival :=
  [mkArrival CarScope 0 (mkPacket 1 0 3 (-1) []);
   mkArrival CarScope 0 (mkPacket 2 0 3 (-1) [])].

Definition online : Collaborators :=
  replaying (H := feed_packet_h) (λ _ number _, number + 1)
    (λ _, two_updates) 1431655765 1.

(** A board of one car, whose atom 3 reads "ALO" in colour 5. *)
Definition one_car_board : CurrentState :=
  set_car_info
    [<[3%nat := mkCarAtom 5 (bytes "ALO")]> (zero_row (H := feed_packet_h))]
    (joined (H := feed_packet_h) (start_state "" "") 1).

(** * Vocabulary of the further properties *)

(** Everything of the state but the board. *)
Definition same_session (st st' : CurrentState) : Prop :=
  host st' = host st ∧ cookie st' = cookie st ∧ key st' = key st ∧
  decryption st' = decryption st ∧ frame st' = frame st ∧
  event_no st' = event_no st ∧ event_type st' = event_type st ∧
  epoch_time st' = epoch_time st ∧ remaining_time st' = remaining_time st ∧
  lap st' = lap st ∧ flag st' = flag st.

(** The text of an atom is a C string that its array can hold. *)
Definition text_fits `{!PacketH} (a : CarAtom) : Prop :=
  Z.of_nat (length (atom_text a)) < TEXT_SIZE ∧ 0 ∉ atom_text a.

Definition texts_fit `{!PacketH} (st : CurrentState) : Prop :=
  Forall (Forall text_fits) (car_info st).

(** The values of [unsigned char]. *)
Definition is_byte (b : Z) : Prop := 0 ≤ b < 256.

(** The number that bytes spell, least significant byte first. *)
Definition little_endian (bs : list Z) : Z :=
  foldr (λ b v, b + 256 * v) 0 bs.

(** Fields of digits, written with a colon between them. *)
Fixpoint colon_separated (field : list Z) (fields : list (list Z)) : list Z :=
  match fields with
  | [] => field
  | next :: fields' => field ++ 58 :: colon_separated next fields'
  end.

(** Fields read as the digits of a number in base 60. *)
Definition base_60 (fields : list (list Z)) : Z :=
  foldl (λ total field, total * 60 + ascii_decimal field) 0 fields.

(** * display.c: the geometry of the board

    The board is a curses window of [nlines] lines and 69 columns; its
    line 0 is the header and a car at position [y] is drawn on line [y].
    The calls into curses are not part of the embedding: what is embedded
    is what [display.c] computes, namely the height of the board, the
    column of every atom, and the characters and the attribute that a cell
    is drawn with. *)

(** Minimum number of cars to assume *)
Definition MIN_CARS : Z := 20.

(** The width that [clear_board] asks for (line 173) and creates the board
    window with (line 180). *)
Definition BOARD_COLS : Z := 69.

(** [TextColour]: [COLOUR_DEFAULT] is the first enumerator, and [LAST_COLOUR],
    the size of [attrs], comes after eleven colours. *)
Definition COLOUR_DEFAULT : Z := 0.
Definition LAST_COLOUR : Z := 11.

(** The enumerators of [EventType], [RaceAtomType] and [PracticeAtomType]
    come from packet.h and are taken as parameters, like those of
    [PacketH]. *)
Class DisplayH : Type := {
  RACE_EVENT : Z;
  PRACTICE_EVENT : Z;
  RACE_POSITION : Z;
  RACE_NUMBER : Z;
  RACE_DRIVER : Z;
  RACE_GAP : Z;
  RACE_INTERVAL : Z;
  RACE_LAP_TIME : Z;
  RACE_SECTOR_1 : Z;
  RACE_LAP_STOP : Z;
  RACE_SECTOR_2 : Z;
  RACE_LAP_IN_PIT : Z;
  RACE_SECTOR_3 : Z;
  RACE_LAP_OUT : Z;
  RACE_NUM_PITS : Z;
  PRACTICE_POSITION : Z;
  PRACTICE_NUMBER : Z;
  PRACTICE_DRIVER : Z;
  PRACTICE_BEST : Z;
  PRACTICE_GAP : Z;
  PRACTICE_SECTOR_1 : Z;
  PRACTICE_SECTOR_2 : Z;
  PRACTICE_SECTOR_3 : Z;
  PRACTICE_LAPS : Z;
  event_labels_distinct : RACE_EVENT ≠ PRACTICE_EVENT;
  race_labels_distinct :
    NoDup [RACE_POSITION; RACE_NUMBER; RACE_DRIVER; RACE_GAP; RACE_INTERVAL;
           RACE_LAP_TIME; RACE_SECTOR_1; RACE_LAP_STOP; RACE_SECTOR_2;
           RACE_LAP_IN_PIT; RACE_SECTOR_3; RACE_LAP_OUT; RACE_NUM_PITS];
  practice_labels_distinct :
    NoDup [PRACTICE_POSITION; PRACTICE_NUMBER; PRACTICE_DRIVER; PRACTICE_BEST;
           PRACTICE_GAP; PRACTICE_SECTOR_1; PRACTICE_SECTOR_2;
           PRACTICE_SECTOR_3; PRACTICE_LAPS]
}.

(** [x], [sz] and [align] of [_update_cell] *)
Record Cell : Type := mkCell {
  cell_x : Z;
  cell_sz : Z;
  cell_align : Z
}.

(** What [_update_cell] writes: on line [row] from column [column] on, the
    [characters] with the [attribute]. *)
Record CellDrawing : Type := mkCellDrawing {
  row : Z;
  column : Z;
  attribute : Z;
  characters : list Z
}.

(** A [switch] whose cases all end in [break]: the first case with the
    label, if any. *)
Fixpoint switch {A} (label : Z) (cases : list (Z * A)) : option A :=
  match cases with
  | [] => None
  | (l, a) :: cases' => if label =? l then Some a else switch label cases'
  end.

Section Display.

Context `{!PacketH} `{!DisplayH}.

(** display.c, lines 163-166.  [MAX] of macros.h is the larger of its
    arguments. *)
Definition board_lines (st : CurrentState) : Run Z :=
  if Z.of_nat (length (car_position st)) <? num_cars st
  then Undefined OutOfBounds
  else
    mret (foldl Z.max (Z.max (num_cars st) MIN_CARS)
            (take (Z.to_nat (num_cars st)) (car_position st)) + 1).

(** lines 163-180: the height of the board window that [clear_board]
    creates on a terminal of [lines] lines and [cols] columns, or [None]
    when it leaves the program with [exit (10)]. *)
Definition board_window (lines cols : Z) (st : CurrentState)
  : Run (option Z) :=
  nlines ← board_lines st;
  if lines <? nlines then mret None
  else if cols <? BOARD_COLS then mret None
  else mret (Some nlines).

(** lines 244-312 *)
Definition race_cells : list (Z * Cell) :=
  [(RACE_POSITION, mkCell 0 2 1);
   (RACE_NUMBER, mkCell 3 2 1);
   (RACE_DRIVER, mkCell 6 14 (-1));
   (RACE_GAP, mkCell 21 4 1);
   (RACE_INTERVAL, mkCell 26 4 1);
   (RACE_LAP_TIME, mkCell 31 8 (-1));
   (RACE_SECTOR_1, mkCell 40 4 1);
   (RACE_LAP_STOP, mkCell 45 3 (-1));
   (RACE_SECTOR_2, mkCell 49 4 1);
   (RACE_LAP_IN_PIT, mkCell 54 3 (-1));
   (RACE_SECTOR_3, mkCell 58 4 1);
   (RACE_LAP_OUT, mkCell 63 3 (-1));
   (RACE_NUM_PITS, mkCell 67 2 1)].

(** lines 315-363 *)
Definition practice_cells : list (Z * Cell) :=
  [(PRACTICE_POSITION, mkCell 0 2 1);
   (PRACTICE_NUMBER, mkCell 3 2 1);
   (PRACTICE_DRIVER, mkCell 6 14 (-1));
   (PRACTICE_BEST, mkCell 21 8 1);
   (PRACTICE_GAP, mkCell 30 6 1);
   (PRACTICE_SECTOR_1, mkCell 37 5 1);
   (PRACTICE_SECTOR_2, mkCell 43 5 1);
   (PRACTICE_SECTOR_3, mkCell 49 5 1);
   (PRACTICE_LAPS, mkCell 55 4 1)].

(** lines 242-367: [None] where the code returns. *)
Definition cell_of (ev ty : Z) : option Cell :=
  if ev =? RACE_EVENT then switch ty race_cells
  else if ev =? PRACTICE_EVENT then switch ty practice_cells
  else None.

(** lines 372-379 and 388-392: the characters of a cell of [sz] columns.
    A text longer than the cell is replaced by the empty text. *)
Definition cell_text (sz : Z) (text : list Z) : list Z :=
  if sz <? Z.of_nat (length text) then [] else text.

Definition cell_characters (c : Cell) (text : list Z) : list Z :=
  let text := cell_text (cell_sz c) text in
  let pad := Z.to_nat (cell_sz c - Z.of_nat (length text)) in
  (if 0 <? cell_align c then replicate pad 32 else []) ++
  text ++
  (if cell_align c <? 0 then replicate pad 32 else []).

(** lines 369-392, for the cell [c] on line [y] *)
Definition draw_atom (attrs : list Z) (atom : CarAtom) (y : Z) (c : Cell)
  : Run CellDrawing :=
  attr ← fetch attrs (atom_data atom);
  let text := cell_text (cell_sz c) (atom_text atom) in
  attr ← (if Z.of_nat (length text) =? 0 then fetch attrs COLOUR_DEFAULT
          else mret attr);
  mret (mkCellDrawing y (cell_x c) attr (cell_characters c (atom_text atom))).

(** [_update_cell], lines 226-393, with the [attrs] and the [nlines] of
    the display.  The result tells whether [clear_board] is called to
    rebuild the board first (line 240), and what is drawn, if anything. *)
Definition _update_cell (attrs : list Z) (nlines : Z) (st : CurrentState)
    (c ty : Z) : Run (bool * option CellDrawing) :=
  y ← fetch (car_position st) (c - 1);
  if y =? 0 then mret (false, None)
  else
    let rebuild := nlines <? y in
    match cell_of (event_type st) ty with
    | None => mret (rebuild, None)
    | Some cell =>
        cells ← fetch (car_info st) (c - 1);
        atom ← fetch cells ty;
        drawing ← draw_atom attrs atom y cell;
        mret (rebuild, Some drawing)
    end.

End Display.

(** The enumerators of the display as the feed numbers them. *)
Definition feed_display_h : DisplayH :=
  {| RACE_EVENT := 1;
     PRACTICE_EVENT := 2;
     RACE_POSITION := 1;
     RACE_NUMBER := 2;
     RACE_DRIVER := 3;
     RACE_GAP := 4;
     RACE_INTERVAL := 5;
     RACE_LAP_TIME := 6;
     RACE_SECTOR_1 := 7;
     RACE_LAP_STOP := 8;
     RACE_SECTOR_2 := 9;
     RACE_LAP_IN_PIT := 10;
     RACE_SECTOR_3 := 11;
     RACE_LAP_OUT := 12;
     RACE_NUM_PITS := 13;
     PRACTICE_POSITION := 1;
     PRACTICE_NUMBER := 2;
     PRACTICE_DRIVER := 3;
     PRACTICE_BEST := 4;
     PRACTICE_GAP := 5;
     PRACTICE_SECTOR_1 := 6;
     PRACTICE_SECTOR_2 := 7;
     PRACTICE_SECTOR_3 := 8;
     PRACTICE_LAPS := 9;
     event_labels_distinct := ltac:(discriminate);
     race_labels_distinct :=
       bool_decide_unpack
         (NoDup [1; 2; 3; 4; 5; 6; 7; 8; 9; 10; 11; 12; 13]) I;
     practice_labels_distinct :=
       bool_decide_unpack (NoDup [1; 2; 3; 4; 5; 6; 7; 8; 9]) I |}.

(** Eleven attributes, one for each colour. *)
Definition palette : list Z := [100; 101; 102; 103; 104; 105; 106; 107; 108; 109; 110].

(** A race of three cars: the car at position 2 is "ALO" in colour 1, with
    a gap that is too long for its cell. *)
Definition race_board : CurrentState :=
  mkState "" "" 0 0 0 0 1 0 0 0 0 3 [1; 2; 0]
    [zero_row (H := feed_packet_h);
     <[4%nat := mkCarAtom 2 (bytes "+1 LAP")]>
       (<[3%nat := mkCarAtom 1 (bytes "ALO")]> (zero_row (H := feed_packet_h)));
     zero_row (H := feed_packet_h)].

(** * display.c: the popup

    [popup_message] trims the message, breaks it into lines of at most 58
    characters, and draws it into a window of its own.  The message is the
    list of the characters of the C string. *)

(** [strchr (" \t\r", c)] is not NULL: [c] is one of the three characters,
    or the NUL that ends the string literal. *)
Definition is_blank (c : Z) : bool :=
  (c =? 32) || (c =? 9) || (c =? 13) || (c =? 0).

(** [strchr (" \t\r\n", c)] is not NULL *)
Definition is_space (c : Z) : bool := is_blank c || (c =? 10).

(** lines 610-611: [msglen] after the loop *)
Fixpoint trimmed_length (msg : list Z) (msglen : nat) : nat :=
  match msglen with
  | O => O
  | S n =>
      match msg !! n with
      | Some c => if is_space c then trimmed_length msg n else msglen
      | None => msglen
      end
  end.

(** The variables of the loop of lines 621-650 *)
Record Wrap : Type := mkWrap {
  wrap_msg : list Z;
  wrap_i : Z;
  wrap_col : Z;
  wrap_ls : Z;
  wrap_nlines : Z;
  wrap_ncols : Z
}.

(** lines 635-649, and the [i++] of line 623 *)
Definition wrap_column (w : Wrap) : Run Wrap :=
  let col := wrap_col w + 1 in
  if 58 <? col then
    if wrap_ls w =? 0 then
      mret (mkWrap (wrap_msg w) (wrap_i w - 1 + 1) 0 0
              (wrap_nlines w + 1) (Z.max (wrap_ncols w) 58))
    else
      let col := col - (wrap_i w - wrap_ls w + 1) in
      msg ← store (wrap_msg w) (wrap_ls w) 10;
      mret (mkWrap msg (wrap_ls w + 1) 0 0
              (wrap_nlines w + 1) (Z.max (wrap_ncols w) col))
  else
    mret (mkWrap (wrap_msg w) (wrap_i w + 1) col (wrap_ls w)
            (wrap_nlines w) (wrap_ncols w)).

(** lines 624-649: one turn of the loop *)
Definition wrap_step (w : Wrap) : Run Wrap :=
  c ← fetch (wrap_msg w) (wrap_i w);
  if is_blank c then
    msg ← store (wrap_msg w) (wrap_i w) 32;
    wrap_column (mkWrap msg (wrap_i w) (wrap_col w) (wrap_i w)
                   (wrap_nlines w) (wrap_ncols w))
  else if c =? 10 then
    mret (mkWrap (wrap_msg w) (wrap_i w + 1) 0 0
            (wrap_nlines w + 1) (Z.max (wrap_ncols w) (wrap_col w)))
  else wrap_column w.

(** lines 623-650.  The loop moves [i] backwards at times; the model runs
    it for at most [fuel] turns, and yields [None] when these do not reach
    the end of the message. *)
Fixpoint wrap_loop (fuel : nat) (msglen : Z) (w : Wrap) : Run (option Wrap) :=
  if wrap_i w <? msglen then
    match fuel with
    | O => mret None
    | S fuel' => w' ← wrap_step w; wrap_loop fuel' msglen w'
    end
  else mret (Some w).

(** The blanks of a message: the places where a line can be broken *)
Definition blanks (msg : list Z) : nat :=
  length (filter (λ c, is_blank c = true) msg).

(** The turns that the loop takes at most for a message, see
    [wrap_loop_ends]. *)
Definition wrap_fuel (msg : list Z) : nat :=
  S ((blanks msg + 1) * (2 * length msg + 2)).

(** lines 662-674: the characters that are put into the window, each with
    its line and its column. *)
Fixpoint popup_draw (msg : list Z) (nlines col : Z) : list (Z * Z * Z) :=
  match msg with
  | [] => []
  | c :: msg' =>
      if c =? 10 then popup_draw msg' (nlines + 1) 0
      else if 58 <? col + 1 then
        (nlines + 1 + 1, 1, c) :: popup_draw msg' (nlines + 1) 1
      else (nlines + 1, col + 1, c) :: popup_draw msg' nlines (col + 1)
  end.

(** The popup window: its size and place (line 654), and its content. *)
Record Popup : Type := mkPopup {
  popup_nlines : Z;
  popup_ncols : Z;
  popup_begin_y : Z;
  popup_begin_x : Z;
  popup_chars : list (Z * Z * Z)
}.

Inductive Popped : Type :=
  | NoPopup                 (* the message is empty once trimmed *)
  | PopupShown (p : Popup)
  | StillWrapping.          (* the fuel of the model is used up *)

(** [popup_message], lines 606-674, on a terminal of [lines] lines and
    [cols] columns: the window that is made and the characters that are put
    into it.  The calls that open the display, close the popup before and
    refresh the screen are left out.  The counters of the loops are [int]s
    that stay within the length of the message; they are not wrapped
    around here. *)
Definition popup_message (lines cols : Z) (message : list Z) : Run Popped :=
  let msglen := trimmed_length message (length message) in
  if Z.of_nat msglen =? 0 then mret NoPopup
  else
    let msg := take msglen message in
    w ← wrap_loop (wrap_fuel msg) (Z.of_nat msglen) (mkWrap msg 0 0 0 1 0);
    match w with
    | None => mret StillWrapping
    | Some w =>
        let nlines := wrap_nlines w in
        let ncols := Z.max (wrap_ncols w) (wrap_col w) in
        mret (PopupShown
                (mkPopup (nlines + 2) (ncols + 2)
                   (Z.quot (lines - (nlines + 2)) 2)
                   (Z.quot (cols - (ncols + 2)) 2)
                   (popup_draw (wrap_msg w) 0 0)))
    end.

(** ** Vocabulary of the properties of the popup *)

(** The line and the column where the drawing loop of lines 662-674 stands
    after the characters of [msg]. *)
Fixpoint popup_cursor (msg : list Z) (nlines col : Z) : Z * Z :=
  match msg with
  | [] => (nlines, col)
  | c :: msg' =>
      if c =? 10 then popup_cursor msg' (nlines + 1) 0
      else if 58 <? col + 1 then popup_cursor msg' (nlines + 1) 1
      else popup_cursor msg' nlines (col + 1)
  end.

(** What goes down with every turn of the loop of lines 623-650: a line
    broken at a blank uses the blank up, a line broken in the middle of a
    word starts the column again, and every other turn moves [i] on. *)
Definition wrap_measure (msglen : Z) (w : Wrap) : nat :=
  (blanks (wrap_msg w) * (2 * Z.to_nat msglen + 2)
   + 2 * Z.to_nat (msglen - wrap_i w)
   + (if (wrap_col w =? 0)%Z then 0 else 1))%nat.

(** What the loop of lines 623-650 may do to a character: nothing, or turn
    a blank into a space or, where a line is broken, a newline. *)
Definition respaced (a b : Z) : Prop :=
  a = b ∨ (is_blank a = true ∧ (b = 32 ∨ b = 10)).

(** What the loop of lines 623-650 keeps at its head, [msg0] being the
    message that it started with.  The drawing loop, run on what has been
    measured so far, stands on line [nlines] in column [col], and nothing
    of it is further right than [ncols] on the lines above; the blanks
    measured are spaces, and [ls], when set, is one of this line.  After a break in the middle of a word
    the character at [i] is measured once more, and the drawing loop is
    still at the end of the line before. *)
Definition wrap_inv (msg0 : list Z) (w : Wrap) : Prop :=
  let measured := take (Z.to_nat (wrap_i w)) (wrap_msg w) in
  Forall2 respaced msg0 (wrap_msg w) ∧
  Forall (λ c, is_blank c = true → c = 32) measured ∧
  0 ≤ wrap_i w ≤ Z.of_nat (length msg0) ∧
  0 ≤ wrap_col w ≤ 58 ∧ 1 ≤ wrap_nlines w ∧ 0 ≤ wrap_ncols w ≤ 58 ∧
  Forall (λ d : Z * Z * Z,
            d.1.1 ≤ wrap_nlines w ∧
            (d.1.1 < wrap_nlines w → d.1.2 ≤ wrap_ncols w))
         (popup_draw measured 0 0) ∧
  ((popup_cursor measured 0 0 = (wrap_nlines w - 1, wrap_col w) ∧
    (wrap_ls w ≠ 0 →
       0 < wrap_ls w < wrap_i w ∧
       wrap_msg w !! Z.to_nat (wrap_ls w) = Some 32 ∧
       popup_cursor (take (Z.to_nat (wrap_ls w)) (wrap_msg w)) 0 0 =
         (wrap_nlines w - 1, wrap_col w - (wrap_i w - wrap_ls w))))
   ∨
   (wrap_col w = 0 ∧ wrap_ls w = 0 ∧
    popup_cursor measured 0 0 = (wrap_nlines w - 2, 58) ∧
    ∃ c, wrap_msg w !! Z.to_nat (wrap_i w) = Some c ∧
         is_blank c = false ∧ c ≠ 10)).

(** Every line of the message has 58 characters at most, the first one
    starting in column [col]. *)
Fixpoint lines_fit (msg : list Z) (col : Z) : bool :=
  match msg with
  | [] => true
  | c :: msg' =>
      if c =? 10 then lines_fit msg' 0
      else (col + 1 <=? 58) && lines_fit msg' (col + 1)
  end.

(** A blank as it is shown *)
Definition spaced (c : Z) : Z := if is_blank c then 32 else c.

(** The lines of a message: what lies before, between and after its
    newlines. *)
Fixpoint message_lines (msg : list Z) : list (list Z) :=
  match msg with
  | [] => [[]]
  | c :: msg' =>
      if c =? 10 then [] :: message_lines msg'
      else match message_lines msg' with
           | l :: ls => (c :: l) :: ls
           | [] => [[c]]
           end
  end.

(** Lines as they are written: character [k] of line [j], both counted
    from 0, on line [j + 1] in column [k + 1] of the window, inside the
    border. *)
Definition as_written (ls : list (list Z)) : list (Z * Z * Z) :=
  concat (imap (λ j l, imap (λ k c, (Z.of_nat j + 1, Z.of_nat k + 1, c)) l)
            ls).

(** The newlines of a message *)
Definition newlines (msg : list Z) : Z :=
  Z.of_nat (length (filter (λ c, c = 10) msg)).

(** What the loop of lines 623-650 keeps at its head on a message [msg0]
    whose lines fit: it has broken no line. *)
Definition fits_inv (msg0 : list Z) (w : Wrap) : Prop :=
  0 ≤ wrap_i w ≤ Z.of_nat (length msg0) ∧
  wrap_msg w =
    (spaced <$> take (Z.to_nat (wrap_i w)) msg0)
    ++ drop (Z.to_nat (wrap_i w)) msg0 ∧
  0 ≤ wrap_col w ∧
  lines_fit (drop (Z.to_nat (wrap_i w)) msg0) (wrap_col w) = true ∧
  wrap_nlines w = 1 + newlines (take (Z.to_nat (wrap_i w)) msg0).

(** * The reducers, step by step *)

(** ** Reasoning about outcomes *)

Lemma bind_Done {A B} (m : Run A) (k : A → Run B) (b : B) (log : list Event) :
  m ≫= k = Done b log ↔
  ∃ a l1 l2, m = Done a l1 ∧ k a = Done b l2 ∧ log = l1 ++ l2.
Proof.
  unfold mbind, Run_bind. split.
  - destruct m as [a l1|f]; [|done].
    destruct (k a) as [b' l2|f] eqn:Hk; [|done].
    intros [= -> <-]. by exists a, l1, l2.
  - intros (a & l1 & l2 & -> & -> & ->). done.
Qed.

Lemma fetch_Done {A} (a : list A) (i : Z) (x : A) (log : list Event) :
  fetch a i = Done x log ↔ 0 ≤ i ∧ a !! Z.to_nat i = Some x ∧ log = [].
Proof.
  unfold fetch. destruct (Z.ltb_spec i 0).
  - split; [done | lia].
  - destruct (a !! Z.to_nat i) as [y|]; split.
    + by intros [= -> <-].
    + by intros (_ & [= ->] & ->).
    + done.
    + by intros (_ & ? & _).
Qed.

Lemma store_Done {A} (a : list A) (i : Z) (x : A) (a' : list A)
    (log : list Event) :
  store a i x = Done a' log ↔
  0 ≤ i < Z.of_nat (length a) ∧ a' = <[Z.to_nat i := x]> a ∧ log = [].
Proof.
  unfold store.
  destruct (Z.ltb_spec i 0), (Z.leb_spec (Z.of_nat (length a)) i); simpl;
    (split; [first [done | by intros [= <- <-]] | intros (? & -> & ->)]);
    first [lia | done].
Qed.

Lemma emit_Done (e : Event) (u : ()) (log : list Event) :
  emit e = Done u log ↔ log = [e].
Proof. unfold emit. destruct u. split; [by intros [= <-] | by intros ->]. Qed.

Lemma mret_Done {A} (a b : A) (log : list Event) :
  mret a = Done b log ↔ a = b ∧ log = [].
Proof.
  unfold mret, Run_ret. split; [by intros [= -> <-] | by intros [-> ->]].
Qed.

(** Decomposes the hypotheses that say a sequence of steps is [Done]. *)
Ltac run_inv :=
  repeat match goal with
    | H : _ ≫= _ = Done _ _ |- _ =>
        apply bind_Done in H; destruct H as (? & ? & ? & ? & H & ?)
    | H : mret _ = Done _ _ |- _ =>
        apply mret_Done in H; destruct H as [? ?]
    | H : emit _ = Done _ _ |- _ => apply emit_Done in H
    | H : fetch _ _ = Done _ _ |- _ =>
        apply fetch_Done in H; destruct H as (? & H & ?)
    | H : store _ _ _ = Done _ _ |- _ =>
        apply store_Done in H; destruct H as (? & H & ?)
    | H : Undefined _ = Done _ _ |- _ => discriminate H
    end.

(** ** The board *)

Section Board.

Context `{!PacketH}.

Lemma rows_unique_row_unique st :
  length (car_position st) = Z.to_nat (num_cars st) →
  rows_unique (car_position st) ↔ row_unique st.
Proof.
  intros Hlen. unfold rows_unique, row_unique, position_of. split.
  - intros Hu i j p Hi Hj Hp.
    destruct (Z.ltb_spec i 1), (Z.ltb_spec j 1); try lia.
    intros Hpi Hpj. specialize (Hu _ _ _ Hpi Hpj Hp). lia.
  - intros Hu i j p Hpi Hpj Hp.
    pose proof (lookup_lt_Some _ _ _ Hpi).
    pose proof (lookup_lt_Some _ _ _ Hpj).
    assert (Z.of_nat i + 1 = Z.of_nat j + 1); [|lia].
    apply (Hu _ _ p); try lia.
    + destruct (Z.ltb_spec (Z.of_nat i + 1) 1); [lia|].
      by replace (Z.to_nat (Z.of_nat i + 1 - 1)) with i by lia.
    + destruct (Z.ltb_spec (Z.of_nat j + 1) 1); [lia|].
      by replace (Z.to_nat (Z.of_nat j + 1 - 1)) with j by lia.
Qed.

Lemma clear_position_lookup p l (i : nat) y :
  clear_position p l !! i = Some y ↔
  ∃ x, l !! i = Some x ∧ y = if x =? p then 0 else x.
Proof.
  unfold clear_position. rewrite list_lookup_fmap.
  destruct (l !! i) as [x|]; simpl; split.
  - intros [= <-]. by exists x.
  - by intros (? & [= <-] & ->).
  - done.
  - by intros (? & ? & _).
Qed.

Lemma clear_position_length p l :
  length (clear_position p l) = length l.
Proof. unfold clear_position. by rewrite length_fmap. Qed.

Lemma rows_unique_update l (k : nat) d :
  rows_unique l → rows_unique (<[k := d]> (clear_position d l)).
Proof.
  intros Hu i j p Hi Hj Hp.
  assert (Hother : ∀ n, n ≠ k →
    <[k := d]> (clear_position d l) !! n = Some p → l !! n = Some p ∧ p ≠ d).
  { intros n Hn. rewrite list_lookup_insert_ne by done.
    rewrite clear_position_lookup. intros (x & Hx & ->).
    destruct (Z.eqb_spec x d); [done|]. done. }
  assert (Hk : ∀ n, <[k := d]> (clear_position d l) !! k = Some p →
    n ≠ k → <[k := d]> (clear_position d l) !! n = Some p → False).
  { intros n Hkp Hn Hnp.
    destruct (Hother n Hn Hnp) as [_ Hne].
    pose proof (lookup_lt_Some _ _ _ Hkp) as Hlt.
    rewrite length_insert in Hlt.
    rewrite list_lookup_insert_eq in Hkp by done. congruence. }
  destruct (decide (i = k)) as [->|Hik], (decide (j = k)) as [->|Hjk];
    [done | | |].
  - exfalso. eauto.
  - exfalso. eauto.
  - destruct (Hother i Hik Hi), (Hother j Hjk Hj). eauto.
Qed.

Lemma rows_unique_app_zero l n :
  rows_unique l → rows_unique (l ++ replicate n 0).
Proof.
  intros Hu i j p Hi Hj Hp.
  assert (Hin : ∀ m, (l ++ replicate n 0) !! m = Some p → l !! m = Some p).
  { intros m. rewrite lookup_app.
    destruct (l !! m); [done|].
    intros [? _]%lookup_replicate. congruence. }
  eauto.
Qed.

End Board.

(** ** The car reducer, case by case *)

Section CarReducer.

Context `{!PacketH}.

Lemma car_joined_Done st pkt st1 log :
  car_joined st pkt = Done st1 log ↔
  (num_cars st < car pkt ∧ st1 = new_cars st (car pkt) ∧ log = [ClearBoard]) ∨
  (car pkt ≤ num_cars st ∧ st1 = st ∧ log = []).
Proof.
  unfold car_joined. destruct (Z.ltb_spec (num_cars st) (car pkt)).
  - split.
    + intros Hd. left. by injection Hd as <- <-.
    + intros [(_ & -> & ->)|(? & _)]; [done | lia].
  - split.
    + intros Hd. right. by injection Hd as <- <-.
    + intros [(? & _)|(_ & -> & ->)]; [lia | done].
Qed.

Lemma new_cars_wf st c :
  wf_state st → num_cars st < c → wf_state (new_cars st c).
Proof.
  intros (H0 & Hp & Hi & Hrows) Hc. unfold wf_state, new_cars. simpl.
  rewrite !length_app, !length_replicate.
  repeat split; try lia.
  apply Forall_app. split; [done|].
  apply Forall_replicate. by rewrite length_replicate.
Qed.

Lemma car_joined_wf st pkt st1 log :
  wf_state st → car_joined st pkt = Done st1 log →
  wf_state st1 ∧ car pkt ≤ num_cars st1.
Proof.
  intros Hwf [(? & -> & _)|(? & -> & _)]%car_joined_Done.
  - split; [by apply new_cars_wf | simpl; lia].
  - done.
Qed.

Lemma update_atom_Done pkt atom atom' log :
  update_atom pkt atom = Done atom' log ↔
  log = [] ∧ atom_data atom' = data pkt ∧
  if 0 <=? len pkt
  then c_string (payload pkt) = Some (atom_text atom') ∧
       Z.of_nat (length (atom_text atom')) < TEXT_SIZE
  else atom_text atom' = atom_text atom.
Proof.
  unfold update_atom, strcpy. destruct atom' as [d' t']. simpl.
  destruct (0 <=? len pkt).
  - destruct (c_string (payload pkt)) as [s|]; simpl.
    + destruct (Z.leb_spec TEXT_SIZE (Z.of_nat (length s))); simpl; split.
      * done.
      * intros (_ & _ & [= ->] & ?). lia.
      * by intros [= <- <- <-].
      * by intros (-> & -> & [= ->] & _).
    + split; [done | by intros (_ & _ & ? & _)].
  - split.
    + by intros [= <- <- <-].
    + by intros (-> & -> & ->).
Qed.

(** What a completed call of [handle_car_packet] did. *)
Lemma handle_car_packet_Done st pkt st' log :
  handle_car_packet st pkt = Done st' log →
  ∃ st1 log1 log2,
    car_joined st pkt = Done st1 log1 ∧ log = log1 ++ log2 ∧
    ((type pkt = CAR_POSITION_UPDATE ∧
      1 ≤ car pkt ≤ Z.of_nat (length (car_position st1)) ∧
      st' = set_car_position
              (<[Z.to_nat (car pkt - 1) := data pkt]>
                 (clear_position (data pkt) (car_position st1))) st1 ∧
      log2 = ClearCar (car pkt) ::
             (if data pkt =? 0 then [] else [UpdateCar (car pkt)])) ∨
     (type pkt ≠ CAR_POSITION_UPDATE ∧ type pkt = CAR_POSITION_HISTORY ∧
      st' = st1 ∧ log2 = []) ∨
     (type pkt ≠ CAR_POSITION_UPDATE ∧ type pkt ≠ CAR_POSITION_HISTORY ∧
      1 ≤ car pkt ∧ 0 ≤ type pkt ∧
      ∃ row atom atom',
        car_info st1 !! Z.to_nat (car pkt - 1) = Some row ∧
        row !! Z.to_nat (type pkt) = Some atom ∧
        update_atom pkt atom = Done atom' [] ∧
        st' = set_car_info
                (<[Z.to_nat (car pkt - 1) :=
                     <[Z.to_nat (type pkt) := atom']> row]> (car_info st1))
                st1 ∧
        log2 = [UpdateCell (car pkt) (type pkt)])).
Proof.
  unfold handle_car_packet. intros Hd.
  apply bind_Done in Hd. destruct Hd as (st1 & log1 & log2 & Hj & Hd & ->).
  exists st1, log1, log2. split; [done|]. split; [done|].
  destruct (Z.eqb_spec (type pkt) CAR_POSITION_UPDATE) as [Hu|Hu].
  - left. run_inv. subst. rewrite clear_position_length in *.
    split; [done|]. split; [lia|]. split; [done|].
    destruct (data pkt =? 0); run_inv; by subst.
  - right. destruct (Z.eqb_spec (type pkt) CAR_POSITION_HISTORY) as [Hh|Hh].
    + left. run_inv. by subst.
    + right. run_inv. subst.
      match goal with
      | H : update_atom _ _ = Done _ ?l |- _ =>
          pose proof H as Hlog; apply update_atom_Done in Hlog;
          destruct Hlog as [-> _]
      end.
      repeat split; try lia. eauto 10.
Qed.

Lemma handle_car_packet_wf st pkt st' log :
  wf_state st → handle_car_packet st pkt = Done st' log → wf_state st'.
Proof.
  intros Hwf (st1 & log1 & log2 & Hj & _ & Hcases)%handle_car_packet_Done.
  destruct (car_joined_wf _ _ _ _ Hwf Hj) as [(H0 & Hp & Hi & Hrows) _].
  destruct Hcases as [(_ & _ & -> & _)|[(_ & _ & -> & _)|
    (_ & _ & _ & _ & row & atom & atom' & Hrow & _ & _ & -> & _)]].
  - unfold wf_state. simpl.
    by rewrite length_insert, clear_position_length.
  - done.
  - unfold wf_state. simpl. rewrite length_insert.
    repeat split; try done.
    apply Forall_insert; [done|]. rewrite length_insert.
    by apply (Forall_lookup_1 _ _ _ _ Hrows Hrow).
Qed.

Lemma handle_car_packet_rows_unique st pkt st' log :
  rows_unique (car_position st) →
  handle_car_packet st pkt = Done st' log →
  rows_unique (car_position st').
Proof.
  intros Hu (st1 & log1 & log2 & Hj & _ & Hcases)%handle_car_packet_Done.
  assert (rows_unique (car_position st1)) as Hu1.
  { apply car_joined_Done in Hj as [(_ & -> & _)|(_ & -> & _)]; [|done].
    by apply rows_unique_app_zero. }
  destruct Hcases as [(_ & _ & -> & _)|[(_ & _ & -> & _)|
    (_ & _ & _ & _ & row & atom & atom' & _ & _ & _ & -> & _)]]; simpl.
  - by apply rows_unique_update.
  - done.
  - done.
Qed.

Lemma handle_car_packet_board_ok st pkt st' log :
  board_ok st → handle_car_packet st pkt = Done st' log → board_ok st'.
Proof.
  intros [Hwf Hu] Hd.
  pose proof (handle_car_packet_wf _ _ _ _ Hwf Hd) as Hwf'.
  split; [done|].
  apply rows_unique_row_unique; [apply Hwf'|].
  apply (handle_car_packet_rows_unique _ _ _ _ ltac:(by apply rows_unique_row_unique; [apply Hwf|]) Hd).
Qed.

End CarReducer.

(** ** The numerals of the system packets *)

Lemma to_uint_small z : 0 ≤ z < 2 ^ 32 → to_uint z = z.
Proof. intros. unfold to_uint. by apply Z.mod_small. Qed.

Lemma decimal_step_to_uint a b :
  decimal_step (to_uint a) b = to_uint (a * 10 + (b - 48)).
Proof.
  unfold decimal_step, to_uint.
  rewrite Z.mul_mod_idemp_l by done. by rewrite Z.add_mod_idemp_l.
Qed.

Lemma fold_minutes_to_uint t n :
  fold_minutes (to_uint t) (to_uint n) = to_uint (t * 60 + n).
Proof.
  unfold fold_minutes, to_uint.
  rewrite Z.mul_mod_idemp_l by done.
  rewrite Z.add_mod_idemp_l by done. by rewrite Z.add_mod_idemp_r.
Qed.

Lemma event_number_loop_Done rest i ulen number :
  ulen - i ≤ Z.of_nat (length rest) →
  event_number_loop rest i ulen number =
  Done (foldl decimal_step number (take (Z.to_nat (ulen - i)) rest)) [].
Proof.
  revert i number. induction rest as [|b rest IH]; intros i number Hlen.
  - simpl in *. destruct (Z.ltb_spec i ulen); [lia|].
    by rewrite take_nil.
  - simpl in *. destruct (Z.ltb_spec i ulen).
    + rewrite IH by lia.
      replace (Z.to_nat (ulen - i)) with (S (Z.to_nat (ulen - (i + 1)))) by lia.
      done.
    + by replace (Z.to_nat (ulen - i)) with 0%nat by lia.
Qed.

Lemma event_number_loop_overrun rest i ulen number :
  Z.of_nat (length rest) < ulen - i →
  event_number_loop rest i ulen number = Undefined OutOfBounds.
Proof.
  revert i number. induction rest as [|b rest IH]; intros i number Hlen;
    simpl in *; destruct (Z.ltb_spec i ulen); try lia; [done|].
  apply IH. lia.
Qed.

Lemma event_number_loop_quiet rest i ulen number v log :
  event_number_loop rest i ulen number = Done v log → log = [].
Proof.
  revert i number. induction rest as [|b rest IH]; intros i number; simpl;
    destruct (i <? ulen); try done; try (by intros [= _ <-]).
  apply IH.
Qed.

Lemma foldl_decimal_step a bs :
  foldl decimal_step (to_uint a) bs =
  to_uint (foldl (λ number b, number * 10 + (b - 48)) a bs).
Proof.
  revert a. induction bs as [|b bs IH]; intros a; simpl; [done|].
  by rewrite decimal_step_to_uint, IH.
Qed.

Lemma foldl_decimal_step_0 bs :
  foldl decimal_step 0 bs = to_uint (ascii_decimal bs).
Proof. exact (foldl_decimal_step 0 bs). Qed.

Lemma ascii_decimal_digits bs :
  Forall is_digit bs → 0 ≤ ascii_decimal bs < 10 ^ Z.of_nat (length bs).
Proof.
  unfold ascii_decimal. induction bs as [|b bs IH] using rev_ind; [done|].
  intros [Hbs Hb%Forall_inv]%Forall_app.
  rewrite foldl_snoc, length_app. simpl.
  replace (Z.of_nat (length bs + 1)) with (Z.succ (Z.of_nat (length bs))) by lia.
  rewrite Z.pow_succ_r by lia.
  specialize (IH Hbs). unfold is_digit in Hb. lia.
Qed.

Lemma duration_loop_Done rest i ulen total number :
  ulen - i ≤ Z.of_nat (length rest) →
  ∃ t n,
    duration_loop rest i ulen (to_uint total) (to_uint number) = Done (t, n) [] ∧
    t = to_uint (fst (foldl duration_fold (total, number)
                        (take (Z.to_nat (ulen - i)) rest))) ∧
    n = to_uint (snd (foldl duration_fold (total, number)
                        (take (Z.to_nat (ulen - i)) rest))).
Proof.
  revert i total number.
  induction rest as [|b rest IH]; intros i total number Hlen.
  - simpl in *. destruct (Z.ltb_spec i ulen); [lia|].
    rewrite take_nil. by eexists _, _.
  - simpl in *. destruct (Z.ltb_spec i ulen).
    + replace (Z.to_nat (ulen - i)) with (S (Z.to_nat (ulen - (i + 1)))) by lia.
      simpl. unfold duration_fold at 2 4. simpl. destruct (b =? 58).
      * rewrite fold_minutes_to_uint.
        change 0 with (to_uint 0) at 1. apply IH. lia.
      * rewrite decimal_step_to_uint. apply IH. lia.
    + replace (Z.to_nat (ulen - i)) with 0%nat by lia. by eexists _, _.
Qed.

Lemma key_frame_loop_Done pl (i : nat) number :
  (i ≤ length pl)%nat →
  key_frame_loop pl i number =
  Done (foldl key_frame_step number (reverse (take i pl))) [].
Proof.
  revert number. induction i as [|i IH]; intros number Hi; [done|].
  simpl. destruct (lookup_lt_is_Some_2 pl i ltac:(lia)) as [b Hb].
  unfold fetch. destruct (Z.ltb_spec (Z.of_nat i) 0); [lia|].
  rewrite Nat2Z.id, Hb. simpl.
  unfold mbind, Run_bind, mret, Run_ret. rewrite IH by lia. simpl.
  rewrite (take_S_r _ _ _ Hb), reverse_snoc. done.
Qed.

Lemma key_frame_loop_overrun pl (i : nat) number :
  (length pl < i)%nat → key_frame_loop pl i number = Undefined OutOfBounds.
Proof.
  intros Hi. destruct i as [|i]; [lia|]. simpl. unfold fetch.
  destruct (Z.ltb_spec (Z.of_nat i) 0); [done|].
  by rewrite lookup_ge_None_2 by lia.
Qed.

(** The test of [key_frame_number] only names the outcome of the loop
    beyond the array. *)
Lemma key_frame_number_loop pkt :
  key_frame_number pkt =
  key_frame_loop (payload pkt) (Z.to_nat (to_uint (len pkt))) 0.
Proof.
  unfold key_frame_number.
  destruct (Z.ltb_spec (Z.of_nat (length (payload pkt))) (to_uint (len pkt)));
    [|done].
  by rewrite key_frame_loop_overrun by lia.
Qed.

Lemma key_frame_number_quiet pkt number log :
  key_frame_number pkt = Done number log → log = [].
Proof.
  unfold key_frame_number.
  destruct (Z.ltb_spec (Z.of_nat (length (payload pkt))) (to_uint (len pkt)));
    [done|].
  rewrite key_frame_loop_Done by lia. by intros [= _ <-].
Qed.

Lemma key_frame_number_Done pkt :
  to_uint (len pkt) ≤ Z.of_nat (length (payload pkt)) →
  key_frame_number pkt =
  Done (foldl key_frame_step 0
          (reverse (take (Z.to_nat (to_uint (len pkt))) (payload pkt)))) [].
Proof.
  intros Hlen. unfold key_frame_number.
  destruct (Z.ltb_spec (Z.of_nat (length (payload pkt))) (to_uint (len pkt)));
    [lia|].
  apply key_frame_loop_Done. lia.
Qed.

(** ** The system reducer, case by case *)

Section SystemReducer.

Context `{!PacketH} (env : Collaborators).

Lemma board_ok_same_board st st' :
  same_board st st' → board_ok st → board_ok st'.
Proof.
  unfold same_board, board_ok. intros (Hn & Hp & Hi) [Hwf Hu]. split.
  - unfold wf_state in *. rewrite Hn. rewrite Hp. rewrite Hi. done.
  - unfold row_unique, position_of in *. by rewrite Hn, Hp.
Qed.

Lemma sys_labels_ne :
  SYS_EVENT_ID ≠ SYS_KEY_FRAME ∧ SYS_EVENT_ID ≠ SYS_WEATHER ∧
  SYS_EVENT_ID ≠ SYS_TRACK_STATUS ∧ SYS_EVENT_ID ≠ SYS_COPYRIGHT ∧
  SYS_EVENT_ID ≠ SYS_NOTICE ∧ SYS_KEY_FRAME ≠ SYS_WEATHER ∧
  SYS_KEY_FRAME ≠ SYS_TRACK_STATUS ∧ SYS_KEY_FRAME ≠ SYS_COPYRIGHT ∧
  SYS_KEY_FRAME ≠ SYS_NOTICE ∧ SYS_WEATHER ≠ SYS_TRACK_STATUS ∧
  SYS_WEATHER ≠ SYS_COPYRIGHT ∧ SYS_WEATHER ≠ SYS_NOTICE ∧
  SYS_TRACK_STATUS ≠ SYS_COPYRIGHT ∧ SYS_TRACK_STATUS ≠ SYS_NOTICE ∧
  SYS_COPYRIGHT ≠ SYS_NOTICE.
Proof.
  pose proof sys_labels_distinct as Hnd.
  repeat match goal with
    | H : NoDup (_ :: _) |- _ => apply list.NoDup_cons in H as [? H]
    | H : _ ∉ _ :: _ |- _ => apply not_elem_of_cons in H as [? H]
    end.
  repeat split; done.
Qed.

(** Resolves the [switch] of [handle_system_packet] once the packet type is
    known. *)
Ltac sys_switch :=
  unfold handle_system_packet;
  destruct sys_labels_ne as (?&?&?&?&?&?&?&?&?&?&?&?&?&?&?);
  repeat match goal with
    | |- context [?a =? ?b] => destruct (Z.eqb_spec a b)
    end;
  first [done | congruence].

Lemma handle_event_id now st pkt :
  type pkt = SYS_EVENT_ID →
  handle_system_packet env now st pkt = event_start env st pkt.
Proof. intros Ht. sys_switch. Qed.

Lemma handle_key_frame now st pkt :
  type pkt = SYS_KEY_FRAME →
  handle_system_packet env now st pkt = key_frame env st pkt.
Proof. intros Ht. sys_switch. Qed.

Lemma handle_weather now st pkt :
  type pkt = SYS_WEATHER →
  handle_system_packet env now st pkt =
  if data pkt =? 0 then session_time now st pkt else mret st.
Proof. intros Ht. sys_switch. Qed.

Lemma handle_track_status now st pkt :
  type pkt = SYS_TRACK_STATUS →
  handle_system_packet env now st pkt =
  if data pkt =? 1 then track_flag st pkt else mret st.
Proof. intros Ht. sys_switch. Qed.

Lemma handle_unhandled now st pkt :
  type pkt ∉ [SYS_EVENT_ID; SYS_KEY_FRAME; SYS_WEATHER;
              SYS_TRACK_STATUS; SYS_COPYRIGHT; SYS_NOTICE] →
  handle_system_packet env now st pkt = mret st.
Proof. rewrite !not_elem_of_cons. intros (?&?&?&?&?&?&_). sys_switch. Qed.

Lemma event_start_inv st pkt st' log :
  event_start env st pkt = Done st' log →
  ∃ number, st' = event_started env st number (data pkt) ∧
            log = event_start_log st number (data pkt).
Proof.
  unfold event_start, reset_decryption. intros Hd.
  apply bind_Done in Hd as (number & l1 & l2 & Hn & Hd & ->).
  apply event_number_loop_quiet in Hn as ->.
  run_inv. subst. by exists number.
Qed.

Lemma event_start_Done st pkt :
  0 ≤ len pkt ≤ Z.of_nat (length (payload pkt)) → int_range (len pkt) →
  let number :=
    to_uint (ascii_decimal (take (Z.to_nat (len pkt - 1)) (drop 1 (payload pkt))))
  in
  event_start env st pkt =
  Done (event_started env st number (data pkt))
       (event_start_log st number (data pkt)).
Proof.
  intros Hlen Hint number. unfold event_start.
  rewrite to_uint_small by (unfold int_range in Hint; lia).
  rewrite event_number_loop_Done by (rewrite length_drop; lia).
  by rewrite foldl_decimal_step_0.
Qed.

(** Without payload ([len] negative), the loop bound converts to a huge
    [unsigned int] and the loop runs off the payload array. *)
Lemma event_start_no_payload st pkt :
  int_range (len pkt) → len pkt < 0 →
  Z.of_nat (length (payload pkt)) < 2 ^ 31 →
  event_start env st pkt = Undefined OutOfBounds.
Proof.
  intros [Hlo _] Hneg Hsize. unfold event_start.
  assert (Hu : to_uint (len pkt) = len pkt + 2 ^ 32).
  { unfold to_uint. symmetry. apply (Z.mod_unique _ _ (-1)); lia. }
  rewrite event_number_loop_overrun; [done|].
  rewrite Hu, length_drop. lia.
Qed.

Lemma key_frame_inv st pkt st' log :
  key_frame env st pkt = Done st' log →
  ∃ number,
    key_frame_number pkt = Done number [] ∧
    let st1 := set_frame number (set_decryption (decryption_start env) st) in
    (frame st ≠ 0 ∧ st' = st1 ∧ log = [ResetDecryption]) ∨
    (frame st = 0 ∧ ∃ st2 log2,
       obtain_key_frame env (host st) number st1 = Done st2 log2 ∧
       st' = set_decryption (decryption_start env) st2 ∧
       log = ResetDecryption :: ObtainKeyFrame (host st) number ::
             log2 ++ [ResetDecryption]).
Proof.
  unfold key_frame, reset_decryption. intros Hd.
  apply bind_Done in Hd as (number & l1 & l2 & Hn & Hd & ->).
  apply key_frame_number_quiet in Hn as Hl1. subst l1.
  exists number. split; [done|].
  apply bind_Done in Hd as (st1 & la & lb & Hr & Hd & ->).
  run_inv. subst. cbn [frame set_decryption host] in Hd.
  destruct (Z.eqb_spec (frame st) 0) as [Hf|Hf].
  - right. split; [done|]. run_inv. subst. simpl. eauto.
  - left. run_inv. by subst.
Qed.



Lemma session_time_same_board now st pkt st' log :
  session_time now st pkt = Done st' log → same_board st st'.
Proof.
  unfold session_time. intros Hd. run_inv. subst.
  destruct (0 <? len pkt); run_inv.
  - match goal with H : (let '(_, _) := ?x in _) = _ |- _ =>
      destruct x; run_inv end.
    subst. by destruct (epoch_time st =? 0).
  - by subst.
Qed.

Lemma track_flag_same_board st pkt st' log :
  track_flag st pkt = Done st' log → same_board st st'.
Proof. unfold track_flag. intros Hd. run_inv. by subst. Qed.

(** Only the event start and the key frame touch the board. *)
Lemma handle_system_packet_same_board now st pkt st' log :
  type pkt ≠ SYS_EVENT_ID → type pkt ≠ SYS_KEY_FRAME →
  handle_system_packet env now st pkt = Done st' log → same_board st st'.
Proof.
  intros He Hk. unfold handle_system_packet.
  destruct (Z.eqb_spec (type pkt) SYS_EVENT_ID); [done|].
  destruct (Z.eqb_spec (type pkt) SYS_KEY_FRAME); [done|].
  repeat match goal with
    | |- context [?a =? ?b] => destruct (a =? b)
    end; intros Hd; run_inv; subst;
    eauto using session_time_same_board, track_flag_same_board; done.
Qed.

Lemma handle_system_packet_board_ok now st pkt st' log :
  key_frame_preserves env →
  board_ok st → handle_system_packet env now st pkt = Done st' log →
  board_ok st'.
Proof.
  intros Henv Hok Hd.
  destruct (decide (type pkt = SYS_EVENT_ID)) as [He|He].
  - rewrite handle_event_id in Hd by done.
    apply event_start_inv in Hd as (number & -> & _).
    split.
    + unfold wf_state. simpl. repeat split; done.
    + intros i j p Hi. simpl in Hi. lia.
  - destruct (decide (type pkt = SYS_KEY_FRAME)) as [Hk|Hk].
    + rewrite handle_key_frame in Hd by done.
      apply key_frame_inv in Hd as (number & _ & [(_ & -> & _)|
        (_ & st2 & log2 & Hcol & -> & _)]).
      * by apply (board_ok_same_board st).
      * apply (board_ok_same_board st2); [done|].
        refine (Henv _ _ _ _ _ _ Hcol).
        by apply (board_ok_same_board st).
    + apply (board_ok_same_board st); [|done].
      by apply (handle_system_packet_same_board now _ pkt _ log).
Qed.

End SystemReducer.

(** ** Completed calls of the car reducer *)

Section CarReducerRuns.

Context `{!PacketH}.

Lemma car_joined_eq st pkt :
  car_joined st pkt = Done (joined st (car pkt)) (joined_log st (car pkt)).
Proof.
  unfold car_joined, joined, joined_log.
  by destruct (num_cars st <? car pkt).
Qed.

Lemma joined_wf st c :
  wf_state st → wf_state (joined st c) ∧ c ≤ num_cars (joined st c).
Proof.
  intros Hwf. unfold joined. destruct (Z.ltb_spec (num_cars st) c).
  - split; [by apply new_cars_wf | simpl; lia].
  - done.
Qed.

Lemma joined_known st c :
  c ≤ num_cars st → joined st c = st ∧ joined_log st c = [].
Proof.
  intros Hc. unfold joined, joined_log.
  by destruct (Z.ltb_spec (num_cars st) c); [lia|].
Qed.

Lemma store_ok {A} (a : list A) (i : Z) (x : A) :
  0 ≤ i < Z.of_nat (length a) → store a i x = Done (<[Z.to_nat i := x]> a) [].
Proof. intros Hi. by apply store_Done. Qed.

Lemma fetch_ok {A} (a : list A) (i : Z) (x : A) :
  0 ≤ i → a !! Z.to_nat i = Some x → fetch a i = Done x [].
Proof. intros Hi Hx. by apply fetch_Done. Qed.

Lemma handle_position_update st pkt :
  wf_state st → 1 ≤ car pkt → type pkt = CAR_POSITION_UPDATE →
  let st1 := joined st (car pkt) in
  handle_car_packet st pkt =
  Done (set_car_position
          (<[Z.to_nat (car pkt - 1) := data pkt]>
             (clear_position (data pkt) (car_position st1))) st1)
       (joined_log st (car pkt) ++ ClearCar (car pkt) ::
        (if data pkt =? 0 then [] else [UpdateCar (car pkt)])).
Proof.
  intros Hwf Hc Ht st1. subst st1.
  destruct (joined_wf st (car pkt) Hwf) as [(H0 & Hp & _) Hle].
  unfold handle_car_packet. rewrite car_joined_eq.
  unfold mbind at 1. unfold Run_bind at 1.
  rewrite Ht, Z.eqb_refl.
  rewrite store_ok by (rewrite clear_position_length; lia).
  by destruct (data pkt =? 0).
Qed.

Lemma handle_position_history st pkt :
  type pkt = CAR_POSITION_HISTORY →
  handle_car_packet st pkt =
  Done (joined st (car pkt)) (joined_log st (car pkt) ++ []).
Proof.
  intros Ht. unfold handle_car_packet. rewrite car_joined_eq.
  unfold mbind at 1. unfold Run_bind at 1. rewrite Ht, Z.eqb_refl.
  destruct (Z.eqb_spec CAR_POSITION_HISTORY CAR_POSITION_UPDATE) as [He|];
    [|done].
  by destruct car_labels_distinct.
Qed.

Lemma handle_atom st pkt row atom atom' :
  type pkt ≠ CAR_POSITION_UPDATE → type pkt ≠ CAR_POSITION_HISTORY →
  1 ≤ car pkt → 0 ≤ type pkt →
  let st1 := joined st (car pkt) in
  car_info st1 !! Z.to_nat (car pkt - 1) = Some row →
  row !! Z.to_nat (type pkt) = Some atom →
  update_atom pkt atom = Done atom' [] →
  handle_car_packet st pkt =
  Done (set_car_info
          (<[Z.to_nat (car pkt - 1) := <[Z.to_nat (type pkt) := atom']> row]>
             (car_info st1)) st1)
       (joined_log st (car pkt) ++ [UpdateCell (car pkt) (type pkt)]).
Proof.
  intros Hu Hh Hc Ht st1 Hrow Hatom Hupd. subst st1.
  unfold handle_car_packet. rewrite car_joined_eq.
  unfold mbind at 1. unfold Run_bind at 1.
  destruct (Z.eqb_spec (type pkt) CAR_POSITION_UPDATE); [done|].
  destruct (Z.eqb_spec (type pkt) CAR_POSITION_HISTORY); [done|].
  rewrite (fetch_ok _ _ row) by (done || lia).
  unfold mbind at 1. unfold Run_bind at 1.
  rewrite (fetch_ok _ _ atom) by (done || lia).
  unfold mbind at 1. unfold Run_bind at 1.
  rewrite Hupd.
  unfold mbind at 1. unfold Run_bind at 1.
  rewrite store_ok by (apply lookup_lt_Some in Hatom; lia).
  unfold mbind at 1. unfold Run_bind at 1.
  rewrite store_ok by (apply lookup_lt_Some in Hrow; lia).
  done.
Qed.

(** The atoms of a well-formed state are where the reducer looks for them. *)
Lemma wf_atom st c t :
  wf_state st → 1 ≤ c ≤ num_cars st → 0 ≤ t < LAST_CAR_PACKET →
  ∃ row atom, car_info st !! Z.to_nat (c - 1) = Some row ∧
              row !! Z.to_nat t = Some atom.
Proof.
  intros (H0 & _ & Hi & Hrows) Hc Ht.
  destruct (lookup_lt_is_Some_2 (car_info st) (Z.to_nat (c - 1)))
    as [row Hrow]; [lia|].
  pose proof (Forall_lookup_1 _ _ _ _ Hrows Hrow) as Hlen. simpl in Hlen.
  destruct (lookup_lt_is_Some_2 row (Z.to_nat t)) as [atom Hatom]; [lia|].
  eauto.
Qed.

Lemma update_atom_defined pkt atom :
  len pkt < 0 ∨
  (∃ s, c_string (payload pkt) = Some s ∧ Z.of_nat (length s) < TEXT_SIZE) →
  ∃ atom', update_atom pkt atom = Done atom' [] ∧ atom_data atom' = data pkt.
Proof.
  intros Hlen.
  destruct (0 <=? len pkt) eqn:Hleb.
  - destruct Hlen as [?|(s & Hs & Hfit)]; [lia|].
    exists (mkCarAtom (data pkt) s). split; [|done].
    apply update_atom_Done. simpl. by rewrite Hleb.
  - exists (mkCarAtom (data pkt) (atom_text atom)). split; [|done].
    apply update_atom_Done. simpl. by rewrite Hleb.
Qed.

Lemma handle_car_packet_defined st pkt :
  wf_state st → car_packet_ok pkt →
  ∃ st' log, handle_car_packet st pkt = Done st' log.
Proof.
  intros Hwf [Hc Hcases].
  destruct (decide (type pkt = CAR_POSITION_UPDATE)) as [Hu|Hu].
  { rewrite handle_position_update by done. eauto. }
  destruct (decide (type pkt = CAR_POSITION_HISTORY)) as [Hh|Hh].
  { rewrite handle_position_history by done. eauto. }
  destruct Hcases as [?|[?|[Ht Hlen]]]; [done..|].
  destruct (joined_wf st (car pkt) Hwf) as [Hwf1 Hle].
  destruct (wf_atom _ (car pkt) (type pkt) Hwf1) as (row & atom & Hrow & Hatom);
    [lia | done |].
  destruct (update_atom_defined pkt atom Hlen) as (atom' & Hupd & _).
  rewrite (handle_atom st pkt row atom atom') by (done || lia). eauto.
Qed.

End CarReducerRuns.

(** ** Runs of the feed keep the board sound *)

Section Feed.

Context `{!PacketH}.

Lemma dispatch_board_ok env st a st' log :
  key_frame_preserves env → board_ok st →
  dispatch env st a = Done st' log → board_ok st'.
Proof.
  unfold dispatch. intros Henv Hok. destruct (scope a).
  - by apply handle_car_packet_board_ok.
  - by apply handle_system_packet_board_ok.
Qed.

Lemma reduce_all_board_ok env feed st st' log :
  key_frame_preserves env → board_ok st →
  reduce_all env feed st = Done st' log → board_ok st'.
Proof.
  intros Henv. revert st log.
  induction feed as [|a feed IH]; intros st log Hok Hd; simpl in Hd.
  - run_inv. by subst.
  - apply bind_Done in Hd as (st1 & l1 & l2 & Ha & Hd & _).
    eauto using dispatch_board_ok.
Qed.

Lemma replaying_preserves keys key_frames start depth :
  key_frame_preserves (replaying keys key_frames start depth).
Proof.
  induction depth as [|d IH]; intros h number st st' log Hok Hd; simpl in Hd.
  - run_inv. by subst.
  - by apply (reduce_all_board_ok _ _ _ _ _ IH Hok Hd).
Qed.

Lemma reachable_board_ok env st :
  key_frame_preserves env → reachable env st → board_ok st.
Proof.
  intros Henv. induction 1 as [st Hn Hp Hi| |].
  - split.
    + unfold wf_state. rewrite Hn, Hp, Hi. repeat split; done.
    + intros i j p Hi'. lia.
  - by eapply handle_car_packet_board_ok.
  - by eapply handle_system_packet_board_ok.
Qed.

End Feed.

(** * Properties *)

(** ** Numerals of the feed *)

Example duration_1_02_03 : duration_seconds (bytes "1:02:03") = 3723.
Proof. reflexivity. Qed.

Example key_frame_number_1 :
  key_frame_number (mkPacket 0 2 0 2 [1; 0]) = Done 1 [].
Proof. reflexivity. Qed.

Example key_frame_number_256 :
  key_frame_number (mkPacket 0 2 0 2 [0; 1]) = Done 256 [].
Proof. reflexivity. Qed.

Example key_frame_number_no_payload :
  key_frame_number (mkPacket 0 2 0 (-1) [0; 1]) = Undefined OutOfBounds.
Proof. reflexivity. Qed.

(** ** Board rows *)

(** C1. Board-row uniqueness: in every state that a run reaches, at most one
    car of the board holds any given row other than 0; more precisely, a
    board whose arrays hold [num_cars] entries and whose rows are unique
    stays so through every car packet and every system packet (the key-frame
    collaborator, which replays packets, being assumed to hand back a sound
    board when given one). *)
Theorem board_row_uniqueness `{!PacketH} (env : Collaborators) :
  key_frame_preserves env →
  (∀ st pkt st' log,
     board_ok st → handle_car_packet st pkt = Done st' log → board_ok st') ∧
  (∀ now st pkt st' log,
     board_ok st → handle_system_packet env now st pkt = Done st' log →
     board_ok st') ∧
  (∀ st, reachable env st →
     ∀ i j p, 1 ≤ i ≤ num_cars st → 1 ≤ j ≤ num_cars st → p ≠ 0 →
       position_of st i = Some p → position_of st j = Some p → i = j).
Proof.
  intros Henv. split; [|split].
  - intros st pkt st' log. apply handle_car_packet_board_ok.
  - intros now st pkt st' log. by apply handle_system_packet_board_ok.
  - intros st Hreach. by apply (reachable_board_ok env st Henv Hreach).
Qed.

Lemma board_row_uniqueness_witness :
  key_frame_preserves (H := feed_packet_h) online ∧
  ∃ st log,
    handle_system_packet (H := feed_packet_h) online 0 (start_state "" "")
      (mkPacket 0 2 0 1 [7]) = Done st log ∧
    car_position st = [0; 3] ∧
    ∀ i j p, 1 ≤ i ≤ num_cars st → 1 ≤ j ≤ num_cars st → p ≠ 0 →
      position_of st i = Some p → position_of st j = Some p → i = j.
Proof.
  split; [apply replaying_preserves|].
  eexists _, _. split; [vm_compute; reflexivity|]. split; [reflexivity|].
  apply (board_row_uniqueness (H := feed_packet_h) online
           (replaying_preserves _ _ _ _)).
  eapply (reachable_system _ (start_state "" "") 0 (mkPacket 0 2 0 1 [7])).
  - by apply reachable_start.
  - vm_compute. reflexivity.
Defined.

(** C2. Duplicate-position resolution: a position update first clears every
    car whose position equals the new position, then gives the new position
    to the car of the packet; so when car [a] holds the row [p] other than 0
    and the packet assigns another car to [p], car [a] ends at 0 and the
    car of the packet at [p].  Nothing else is cleared: another car that
    holds another row keeps it, and the cars that join with the packet are
    at 0. *)
Theorem duplicate_position_resolution `{!PacketH} (st : CurrentState)
    (pkt : Packet) :
  wf_state st → 1 ≤ car pkt → type pkt = CAR_POSITION_UPDATE →
  ∃ st' log,
    handle_car_packet st pkt = Done st' log ∧
    car_position st' =
      <[Z.to_nat (car pkt - 1) := data pkt]>
        (clear_position (data pkt) (car_position (joined st (car pkt)))) ∧
    position_of st' (car pkt) = Some (data pkt) ∧
    (∀ a p, 1 ≤ a ≤ num_cars st → a ≠ car pkt → p ≠ 0 →
       position_of st a = Some p → data pkt = p →
       position_of st' a = Some 0) ∧
    (∀ a q, a ≠ car pkt → position_of st a = Some q →
       position_of st' a = Some (if q =? data pkt then 0 else q)) ∧
    (∀ a, num_cars st < a < car pkt → position_of st' a = Some 0) ∧
    (∀ a, Z.max (num_cars st) (car pkt) < a → position_of st' a = None).
Proof.
  intros Hwf Hc Ht.
  destruct (joined_wf st (car pkt) Hwf) as [(H0 & Hp & _) Hle].
  pose proof Hwf as (Hn0 & Hlen & _).
  eexists _, _. split; [by apply handle_position_update|].
  simpl. split; [done|].
  assert (Hold : ∀ a q, position_of st a = Some q →
            1 ≤ a ≤ num_cars st ∧
            car_position (joined st (car pkt)) !! Z.to_nat (a - 1) = Some q).
  { intros a q. unfold position_of. destruct (Z.ltb_spec a 1); [done|].
    intros Hq. pose proof (lookup_lt_Some _ _ _ Hq) as Hlt.
    split; [lia|]. unfold joined.
    destruct (num_cars st <? car pkt); [|done].
    simpl. by apply lookup_app_l_Some. }
  split; [|split; [|split; [|split]]].
  - unfold position_of. simpl.
    destruct (Z.ltb_spec (car pkt) 1); [lia|].
    apply list_lookup_insert_eq. rewrite clear_position_length. lia.
  - intros a p Ha Hne Hp0 Hpos Hd.
    destruct (Hold a p Hpos) as [_ Hq].
    unfold position_of. simpl. destruct (Z.ltb_spec a 1); [lia|].
    rewrite list_lookup_insert_ne by lia.
    apply clear_position_lookup. exists p. split; [done|].
    by rewrite Hd, Z.eqb_refl.
  - intros a q Hne Hpos.
    destruct (Hold a q Hpos) as [Ha Hq].
    unfold position_of. simpl. destruct (Z.ltb_spec a 1); [lia|].
    rewrite list_lookup_insert_ne by lia.
    apply clear_position_lookup. by exists q.
  - intros a Ha. unfold position_of. simpl.
    destruct (Z.ltb_spec a 1); [lia|].
    rewrite list_lookup_insert_ne by lia.
    apply clear_position_lookup. exists 0. split; [|by destruct (0 =? data pkt)].
    unfold joined. destruct (Z.ltb_spec (num_cars st) (car pkt)); [|lia].
    simpl. rewrite lookup_app_r by lia.
    apply lookup_replicate_2. lia.
  - intros a Ha. unfold position_of. simpl.
    destruct (Z.ltb_spec a 1); [lia|].
    apply lookup_ge_None. rewrite length_insert, clear_position_length.
    unfold joined. destruct (Z.ltb_spec (num_cars st) (car pkt)); simpl;
      rewrite ?length_app, ?length_replicate; lia.
Qed.

Lemma duplicate_position_resolution_witness :
  ∃ st' log,
    handle_car_packet (H := feed_packet_h)
      (set_car_position [3; 0; 5]
         (joined (H := feed_packet_h) (start_state "" "") 3))
      (mkPacket 2 0 3 (-1) []) = Done st' log ∧
    position_of st' 1 = Some 0 ∧ position_of st' 2 = Some 3 ∧
    position_of st' 3 = Some 5.
Proof.
  destruct (duplicate_position_resolution (H := feed_packet_h)
              (set_car_position [3; 0; 5]
                 (joined (H := feed_packet_h) (start_state "" "") 3))
              (mkPacket 2 0 3 (-1) []))
    as (st' & log & Hd & _ & Hown & Hdup & Hkeep & _).
  - unfold wf_state. simpl. repeat split; try done.
    repeat constructor.
  - simpl. lia.
  - reflexivity.
  - exists st', log. split; [exact Hd|]. split; [|split].
    + apply (Hdup 1 3); simpl; try lia; reflexivity.
    + exact Hown.
    + apply (Hkeep 3 5); simpl; [lia|reflexivity].
Defined.

(** ** Growth of the board *)

Section Growth.

Context `{!PacketH}.

Lemma new_cars_new st c c' :
  wf_state st → num_cars st < c' ≤ c →
  car_position (new_cars st c) !! Z.to_nat (c' - 1) = Some 0 ∧
  car_info (new_cars st c) !! Z.to_nat (c' - 1) = Some zero_row.
Proof.
  intros (H0 & Hp & Hi & _) Hc. unfold new_cars. simpl. split.
  - rewrite lookup_app_r by lia. apply lookup_replicate_2. lia.
  - rewrite lookup_app_r by lia. apply lookup_replicate_2. lia.
Qed.

Lemma new_cars_known st c c' :
  wf_state st → 1 ≤ c' ≤ num_cars st →
  car_position (new_cars st c) !! Z.to_nat (c' - 1) =
    car_position st !! Z.to_nat (c' - 1) ∧
  car_info (new_cars st c) !! Z.to_nat (c' - 1) =
    car_info st !! Z.to_nat (c' - 1).
Proof.
  intros (H0 & Hp & Hi & _) Hc. unfold new_cars. simpl.
  split; apply lookup_app_l; lia.
Qed.

Lemma position_of_lookup st c :
  1 ≤ c → position_of st c = car_position st !! Z.to_nat (c - 1).
Proof.
  intros Hc. unfold position_of. by destruct (Z.ltb_spec c 1); [lia|].
Qed.

End Growth.

(** C3, as the code has it.  A car packet for a car [N] beyond [num_cars]
    first grows the board: [num_cars] becomes [N], every car in
    [(old num_cars, N]] gets position 0 and [LAST_CAR_PACKET] atoms that are
    all zero with an empty text, and the cars known before are unchanged.
    The reducer then applies the packet to the grown board, so that after
    the whole call [num_cars] is [N] and every car strictly between the old
    [num_cars] and [N] still has position 0 and zero atoms; a position
    history packet leaves exactly the grown board. *)
Theorem monotonic_growth `{!PacketH} (st : CurrentState) (pkt : Packet) :
  wf_state st → num_cars st < car pkt →
  let st1 := new_cars st (car pkt) in
  car_joined st pkt = Done st1 [ClearBoard] ∧
  num_cars st1 = car pkt ∧
  (∀ c, num_cars st < c ≤ car pkt →
     position_of st1 c = Some 0 ∧
     car_info st1 !! Z.to_nat (c - 1) = Some zero_row) ∧
  (∀ c, 1 ≤ c ≤ num_cars st →
     position_of st1 c = position_of st c ∧
     car_info st1 !! Z.to_nat (c - 1) = car_info st !! Z.to_nat (c - 1)) ∧
  (car_packet_ok pkt → ∃ st' log, handle_car_packet st pkt = Done st' log) ∧
  (∀ st' log, handle_car_packet st pkt = Done st' log →
     num_cars st' = car pkt ∧
     ∀ c, num_cars st < c < car pkt →
       position_of st' c = Some 0 ∧
       car_info st' !! Z.to_nat (c - 1) = Some zero_row) ∧
  (type pkt = CAR_POSITION_HISTORY →
     handle_car_packet st pkt = Done st1 [ClearBoard]).
Proof.
  intros Hwf Hn st1. subst st1.
  pose proof Hwf as (H0 & Hp & Hi & _).
  assert (Hj : car_joined st pkt = Done (new_cars st (car pkt)) [ClearBoard]).
  { apply car_joined_Done. left. done. }
  split; [done|]. split; [done|]. split; [|split; [|split; [|split]]].
  - intros c Hc. rewrite position_of_lookup by lia. by apply new_cars_new.
  - intros c Hc. rewrite !position_of_lookup by lia. by apply new_cars_known.
  - by apply handle_car_packet_defined.
  - intros st' log (st1 & log1 & log2 & Hj' & _ & Hcases)%handle_car_packet_Done.
    rewrite Hj in Hj'. injection Hj' as <- <-.
    destruct Hcases as [(_ & _ & -> & _)|[(_ & _ & -> & _)|
      (_ & _ & _ & _ & row & atom & atom' & _ & _ & _ & -> & _)]].
    + split; [done|]. intros c Hc.
      rewrite position_of_lookup by lia.
      destruct (new_cars_new st (car pkt) c Hwf ltac:(lia)) as [Hpos Hinfo].
      split; [|done].
      cbn [car_position set_car_position].
      rewrite list_lookup_insert_ne by lia.
      apply clear_position_lookup. exists 0. split; [done|].
      by destruct (0 =? data pkt).
    + split; [done|]. intros c Hc.
      rewrite position_of_lookup by lia. apply new_cars_new; [done | lia].
    + split; [done|]. intros c Hc.
      rewrite position_of_lookup by lia.
      destruct (new_cars_new st (car pkt) c Hwf ltac:(lia)) as [Hpos Hinfo].
      split; [done|].
      cbn [car_info set_car_info].
      by rewrite list_lookup_insert_ne by lia.
  - intros Ht. rewrite handle_position_history by done.
    unfold joined, joined_log.
    by destruct (Z.ltb_spec (num_cars st) (car pkt)); [|lia].
Qed.

Lemma monotonic_growth_witness :
  ∃ st' log,
    handle_car_packet (H := feed_packet_h) (start_state "" "")
      (mkPacket 3 1 5 (-1) []) = Done st' log ∧
    num_cars st' = 3 ∧
    position_of st' 2 = Some 0 ∧
    car_info st' !! 1%nat = Some (zero_row (H := feed_packet_h)).
Proof.
  destruct (monotonic_growth (H := feed_packet_h) (start_state "" "")
              (mkPacket 3 1 5 (-1) []))
    as (_ & _ & _ & _ & Hdef & Hall & _).
  - unfold wf_state. simpl. repeat split; done.
  - simpl. lia.
  - destruct Hdef as (st' & log & Hd).
    + split; [simpl; lia|]. right. right. simpl. split; [lia|]. left. lia.
    + exists st', log. split; [exact Hd|].
      destruct (Hall st' log Hd) as [Hnum Hnew].
      split; [exact Hnum|]. apply (Hnew 2). simpl. lia.
Defined.

(** C3, as stated, fails for the car of the packet itself: after the call,
    car 1 holds the row, respectively the atom, that the packet brought. *)
Lemma monotonic_growth_counterexample :
  num_cars (start_state "" "") < 1 ∧
  (∃ st' log,
     handle_car_packet (H := feed_packet_h) (start_state "" "")
       (mkPacket 1 3 5 3 (bytes "ALO" ++ [0])) = Done st' log ∧
     num_cars st' = 1 ∧
     atom_of st' 1 3 = Some (mkCarAtom 5 (bytes "ALO")) ∧
     atom_of st' 1 3 ≠ Some zero_atom) ∧
  (∃ st' log,
     handle_car_packet (H := feed_packet_h) (start_state "" "")
       (mkPacket 1 0 3 (-1) []) = Done st' log ∧
     position_of st' 1 = Some 3 ∧
     position_of st' 1 ≠ Some 0).
Proof.
  split; [done|]. split.
  - eexists _, _. split; [vm_compute; reflexivity|]. by repeat split.
  - eexists _, _. split; [vm_compute; reflexivity|]. by repeat split.
Qed.

(** ** Atoms *)

Section Atoms.

Context `{!PacketH}.

Lemma atom_of_Some st c t a :
  atom_of st c t = Some a ↔
  1 ≤ c ∧ 0 ≤ t ∧
  ∃ row, car_info st !! Z.to_nat (c - 1) = Some row ∧
         row !! Z.to_nat t = Some a.
Proof.
  unfold atom_of.
  destruct (Z.ltb_spec c 1), (Z.ltb_spec t 0); simpl;
    try (split; [done | lia]).
  destruct (car_info st !! Z.to_nat (c - 1)) as [row|]; simpl; split.
  - intros Ha. repeat split; try lia. by exists row.
  - by intros (_ & _ & row' & [= <-] & Ha).
  - done.
  - by intros (_ & _ & row' & ? & _).
Qed.

Lemma atom_of_joined st c' c t a :
  atom_of st c t = Some a → atom_of (joined st c') c t = Some a.
Proof.
  rewrite !atom_of_Some. intros (Hc & Ht & row & Hrow & Ha).
  repeat split; try done. exists row. split; [|done].
  unfold joined. destruct (num_cars st <? c'); [|done].
  simpl. by apply lookup_app_l_Some.
Qed.

Lemma atom_of_updated st c t row atom' :
  1 ≤ c → 0 ≤ t →
  car_info st !! Z.to_nat (c - 1) = Some row →
  (Z.to_nat t < length row)%nat →
  let st' :=
    set_car_info
      (<[Z.to_nat (c - 1) := <[Z.to_nat t := atom']> row]> (car_info st)) st in
  atom_of st' c t = Some atom' ∧
  ∀ c' t', (c', t') ≠ (c, t) → atom_of st' c' t' = atom_of st c' t'.
Proof.
  intros Hc Ht Hrow Hlt st'. subst st'.
  pose proof (lookup_lt_Some _ _ _ Hrow) as Hclt. split.
  - apply atom_of_Some. repeat split; try done.
    exists (<[Z.to_nat t := atom']> row). simpl.
    split; by apply list_lookup_insert_eq.
  - intros c' t' Hne. unfold atom_of.
    destruct (Z.ltb_spec c' 1), (Z.ltb_spec t' 0); simpl; try done.
    destruct (decide (c' = c)) as [->|Hcc].
    + rewrite list_lookup_insert_eq by done. rewrite Hrow. simpl.
      apply list_lookup_insert_ne.
      intros Heq. apply Hne. f_equal. lia.
    + by rewrite list_lookup_insert_ne by lia.
Qed.

(** A data atom packet without payload, on a well-formed board. *)
Lemma colour_only_run st pkt :
  wf_state st → 1 ≤ car pkt →
  type pkt ≠ CAR_POSITION_UPDATE → type pkt ≠ CAR_POSITION_HISTORY →
  0 ≤ type pkt < LAST_CAR_PACKET → len pkt < 0 →
  let st1 := joined st (car pkt) in
  ∃ row atom,
    car_info st1 !! Z.to_nat (car pkt - 1) = Some row ∧
    row !! Z.to_nat (type pkt) = Some atom ∧
    handle_car_packet st pkt =
    Done (set_car_info
            (<[Z.to_nat (car pkt - 1) :=
                 <[Z.to_nat (type pkt) :=
                     mkCarAtom (data pkt) (atom_text atom)]> row]>
               (car_info st1)) st1)
         (joined_log st (car pkt) ++ [UpdateCell (car pkt) (type pkt)]).
Proof.
  intros Hwf Hc Hu Hh Ht Hlen st1. subst st1.
  destruct (joined_wf st (car pkt) Hwf) as [Hwf1 Hle].
  destruct (wf_atom _ (car pkt) (type pkt) Hwf1) as (row & atom & Hrow & Hatom);
    [lia | done |].
  exists row, atom. split; [done|]. split; [done|].
  apply (handle_atom st pkt row atom); try (done || lia).
  apply update_atom_Done. simpl.
  by destruct (Z.leb_spec 0 (len pkt)); [lia|].
Qed.

End Atoms.

(** C7. Colour-only update: a data atom packet of negative length sets the
    data (the colour) of the addressed atom to that of the packet and
    leaves the text of that atom as it was before the call; every other
    atom is unchanged, and for a car already on the board nothing but the
    atom table changes. *)
Theorem colour_only_update `{!PacketH} (st : CurrentState) (pkt : Packet) :
  wf_state st → 1 ≤ car pkt →
  type pkt ≠ CAR_POSITION_UPDATE → type pkt ≠ CAR_POSITION_HISTORY →
  0 ≤ type pkt < LAST_CAR_PACKET → len pkt < 0 →
  ∃ st' log,
    handle_car_packet st pkt = Done st' log ∧
    (∃ a', atom_of st' (car pkt) (type pkt) = Some a' ∧
           atom_data a' = data pkt) ∧
    (∀ a, atom_of st (car pkt) (type pkt) = Some a →
          atom_of st' (car pkt) (type pkt) =
          Some (mkCarAtom (data pkt) (atom_text a))) ∧
    (∀ c t a, (c, t) ≠ (car pkt, type pkt) →
              atom_of st c t = Some a → atom_of st' c t = Some a) ∧
    (car pkt ≤ num_cars st → ∃ info, st' = set_car_info info st).
Proof.
  intros Hwf Hc Hu Hh Ht Hlen.
  destruct (colour_only_run st pkt) as (row & atom & Hrow & Hatom & Hrun);
    try done.
  destruct (atom_of_updated (joined st (car pkt)) (car pkt) (type pkt) row
              (mkCarAtom (data pkt) (atom_text atom)))
    as [Hnew Hothers]; [lia | lia | done | by apply lookup_lt_Some in Hatom |].
  eexists _, _. split; [exact Hrun|].
  split; [|split; [|split]].
  - by eexists.
  - intros a Ha%(atom_of_joined _ (car pkt)).
    apply atom_of_Some in Ha as (_ & _ & row' & Hrow' & Ha).
    rewrite Hrow in Hrow'. injection Hrow' as <-.
    rewrite Hatom in Ha. by injection Ha as <-.
  - intros c t a Hne Ha%(atom_of_joined _ (car pkt)).
    by rewrite Hothers.
  - intros Hknown. destruct (joined_known st (car pkt) Hknown) as [-> _].
    by eexists.
Qed.

Lemma one_car_board_wf : wf_state (H := feed_packet_h) one_car_board.
Proof.
  unfold wf_state. simpl. repeat split; try done. repeat constructor.
Qed.

Lemma colour_only_update_witness :
  ∃ st' log,
    handle_car_packet (H := feed_packet_h) one_car_board
      (mkPacket 1 3 2 (-1) []) = Done st' log ∧
    atom_of st' 1 3 = Some (mkCarAtom 2 (bytes "ALO")) ∧
    atom_of st' 1 4 = Some zero_atom.
Proof.
  destruct (colour_only_update (H := feed_packet_h) one_car_board
              (mkPacket 1 3 2 (-1) []))
    as (st' & log & Hd & _ & Hsame & Hothers & _).
  - exact one_car_board_wf.
  - simpl. lia.
  - done.
  - done.
  - simpl. lia.
  - simpl. lia.
  - exists st', log. split; [exact Hd|]. split.
    + apply (Hsame (mkCarAtom 5 (bytes "ALO"))). reflexivity.
    + apply (Hothers 1 4 zero_atom); [done | reflexivity].
Defined.

(** C5.  The text of a data atom is copied with [strcpy], which does not
    look at the size of [CarAtom.text]: a payload whose string does not fit
    (its length is [TEXT_SIZE] or more, so that the string and its NUL take
    more than [TEXT_SIZE] bytes) is written past the end of the text array.
    The call has no defined outcome; the payload is not rejected. *)
Theorem oversized_text_overrun `{!PacketH} (st : CurrentState) (pkt : Packet)
    (s : list Z) :
  wf_state st → 1 ≤ car pkt →
  type pkt ≠ CAR_POSITION_UPDATE → type pkt ≠ CAR_POSITION_HISTORY →
  0 ≤ type pkt < LAST_CAR_PACKET → 0 ≤ len pkt →
  c_string (payload pkt) = Some s → TEXT_SIZE ≤ Z.of_nat (length s) →
  handle_car_packet st pkt = Undefined BufferOverrun.
Proof.
  intros Hwf Hc Hu Hh Ht Hlen Hs Hbig.
  destruct (joined_wf st (car pkt) Hwf) as [Hwf1 Hle].
  destruct (wf_atom _ (car pkt) (type pkt) Hwf1) as (row & atom & Hrow & Hatom);
    [lia | done |].
  unfold handle_car_packet. rewrite car_joined_eq.
  unfold mbind at 1. unfold Run_bind at 1.
  destruct (Z.eqb_spec (type pkt) CAR_POSITION_UPDATE); [done|].
  destruct (Z.eqb_spec (type pkt) CAR_POSITION_HISTORY); [done|].
  rewrite (fetch_ok _ _ row) by (done || lia).
  unfold mbind at 1. unfold Run_bind at 1.
  rewrite (fetch_ok _ _ atom) by (done || lia).
  unfold mbind at 1. unfold Run_bind at 1.
  unfold update_atom, strcpy. rewrite Hs.
  destruct (Z.leb_spec 0 (len pkt)); [|lia].
  by destruct (Z.leb_spec TEXT_SIZE (Z.of_nat (length s))); [|lia].
Qed.

Lemma oversized_text_overrun_witness :
  handle_car_packet (H := feed_packet_h) one_car_board
    (mkPacket 1 3 5 20 (bytes "ABCDEFGHIJKLMNOPQRST" ++ [0]))
  = Undefined BufferOverrun.
Proof.
  apply (oversized_text_overrun (H := feed_packet_h) one_car_board
           (mkPacket 1 3 5 20 (bytes "ABCDEFGHIJKLMNOPQRST" ++ [0]))
           (bytes "ABCDEFGHIJKLMNOPQRST")).
  - exact one_car_board_wf.
  - simpl. lia.
  - done.
  - done.
  - simpl. lia.
  - simpl. lia.
  - reflexivity.
  - simpl. lia.
Defined.

(** ** Packets that are not handled *)

(** C8, as the code has it.  A system packet of a type that
    [handle_system_packet] has no case for, a weather packet for a field
    other than 0 and a track status packet for a field other than 1 leave
    the state as it is and call nothing.  A position history packet for a
    car of the board does the same.  No other type of car packet is
    ignored: whatever is not a position update or a position history is
    reduced as a data atom, which sets the data of the atom when the type
    lies within the atom table (and the text, if any, fits), and which
    indexes the table out of its bounds when it does not. *)
Theorem unhandled_packets `{!PacketH} (env : Collaborators) (now : Z)
    (st : CurrentState) (pkt : Packet) :
  (type pkt ∉ [SYS_EVENT_ID; SYS_KEY_FRAME; SYS_WEATHER;
               SYS_TRACK_STATUS; SYS_COPYRIGHT; SYS_NOTICE] →
   handle_system_packet env now st pkt = Done st []) ∧
  (type pkt = SYS_WEATHER → data pkt ≠ 0 →
   handle_system_packet env now st pkt = Done st []) ∧
  (type pkt = SYS_TRACK_STATUS → data pkt ≠ 1 →
   handle_system_packet env now st pkt = Done st []) ∧
  (type pkt = CAR_POSITION_HISTORY → car pkt ≤ num_cars st →
   handle_car_packet st pkt = Done st []) ∧
  (wf_state st → 1 ≤ car pkt ≤ num_cars st →
   type pkt ≠ CAR_POSITION_UPDATE → type pkt ≠ CAR_POSITION_HISTORY →
   (0 ≤ type pkt < LAST_CAR_PACKET →
    len pkt < 0 ∨
    (∃ s, c_string (payload pkt) = Some s ∧ Z.of_nat (length s) < TEXT_SIZE) →
    ∃ st' a,
      handle_car_packet st pkt = Done st' [UpdateCell (car pkt) (type pkt)] ∧
      atom_of st' (car pkt) (type pkt) = Some a ∧ atom_data a = data pkt) ∧
   (type pkt < 0 ∨ LAST_CAR_PACKET ≤ type pkt →
    handle_car_packet st pkt = Undefined OutOfBounds)).
Proof.
  split; [|split; [|split; [|split]]].
  - apply handle_unhandled.
  - intros Ht Hd. rewrite handle_weather by done.
    by destruct (Z.eqb_spec (data pkt) 0).
  - intros Ht Hd. rewrite handle_track_status by done.
    by destruct (Z.eqb_spec (data pkt) 1).
  - intros Ht Hc. rewrite handle_position_history by done.
    by destruct (joined_known st (car pkt) Hc) as [-> ->].
  - intros Hwf Hc Hu Hh.
    destruct (joined_known st (car pkt) ltac:(lia)) as [Hj Hjl].
    split.
    + intros Ht Hlen.
      destruct (wf_atom st (car pkt) (type pkt) Hwf) as (row & atom & Hrow & Hatom);
        [lia | done |].
      destruct (update_atom_defined pkt atom Hlen) as (atom' & Hupd & Hdata).
      rewrite <- Hj in Hrow.
      destruct (atom_of_updated (joined st (car pkt)) (car pkt) (type pkt) row
                  atom')
        as [Hnew _]; [lia | lia | done | by apply lookup_lt_Some in Hatom |].
      eexists _, atom'. split; [|by split].
      rewrite (handle_atom st pkt row atom atom') by (done || lia).
      by rewrite Hjl.
    + intros Ht.
      destruct Hwf as (H0 & _ & Hi & Hrows).
      destruct (lookup_lt_is_Some_2 (car_info st) (Z.to_nat (car pkt - 1)))
        as [row Hrow]; [lia|].
      pose proof (Forall_lookup_1 _ _ _ _ Hrows Hrow) as Hlen. simpl in Hlen.
      unfold handle_car_packet. rewrite car_joined_eq, Hj, Hjl.
      unfold mbind at 1. unfold Run_bind at 1.
      destruct (Z.eqb_spec (type pkt) CAR_POSITION_UPDATE); [done|].
      destruct (Z.eqb_spec (type pkt) CAR_POSITION_HISTORY); [done|].
      rewrite (fetch_ok _ _ row) by (done || lia).
      unfold mbind at 1. unfold Run_bind at 1.
      unfold fetch. destruct (Z.ltb_spec (type pkt) 0); [done|].
      by rewrite lookup_ge_None_2 by lia.
Qed.

Lemma unhandled_packets_witness :
  handle_system_packet (H := feed_packet_h) offline 0 one_car_board
    (mkPacket 0 7 0 2 [1; 0]) = Done one_car_board [] ∧
  handle_system_packet (H := feed_packet_h) offline 0 one_car_board
    (mkPacket 0 9 1 2 (bytes "21")) = Done one_car_board [].
Proof.
  destruct (unhandled_packets (H := feed_packet_h) offline 0 one_car_board
              (mkPacket 0 7 0 2 [1; 0])) as (Hother & _).
  destruct (unhandled_packets (H := feed_packet_h) offline 0 one_car_board
              (mkPacket 0 9 1 2 (bytes "21"))) as (_ & Hweather & _).
  split.
  - apply Hother. simpl. rewrite !not_elem_of_cons, elem_of_nil. lia.
  - apply Hweather; [reflexivity | simpl; lia].
Defined.

(** C8, as stated, fails for car packets: type 14 is neither of the two
    position packets, and the packet sets the data of atom 14; type 16 lies
    beyond the atom table, and the packet indexes the table out of bounds. *)
Lemma unknown_car_type_counterexample :
  (∃ st',
     handle_car_packet (H := feed_packet_h) one_car_board
       (mkPacket 1 14 5 (-1) []) = Done st' [UpdateCell 1 14] ∧
     atom_of one_car_board 1 14 = Some zero_atom ∧
     atom_of st' 1 14 = Some (mkCarAtom 5 []) ∧
     st' ≠ one_car_board) ∧
  handle_car_packet (H := feed_packet_h) one_car_board
    (mkPacket 1 16 5 (-1) []) = Undefined OutOfBounds.
Proof.
  split; [|reflexivity].
  eexists. split; [vm_compute; reflexivity|].
  split; [reflexivity|]. split; [reflexivity|].
  intros Heq. apply (f_equal (λ st, atom_of st 1 14)) in Heq.
  vm_compute in Heq. discriminate Heq.
Qed.

(** ** The session *)

Section Session.

Context `{!PacketH} (env : Collaborators).

Lemma session_time_parsed now st pkt :
  0 < len pkt ≤ Z.of_nat (length (payload pkt)) → int_range (len pkt) →
  session_time now st pkt =
  Done (set_remaining_time
          (to_uint (duration_seconds (take (Z.to_nat (len pkt)) (payload pkt))))
          (if epoch_time st =? 0 then st else set_epoch_time now st))
       [ClosePopup; UpdateTime].
Proof.
  intros Hlen Hint. unfold session_time.
  destruct (Z.ltb_spec 0 (len pkt)); [|lia].
  rewrite to_uint_small by (unfold int_range in Hint; lia).
  destruct (duration_loop_Done (payload pkt) 0 (len pkt) 0 0)
    as (t & n & Hloop & -> & ->); [lia|].
  change (to_uint 0) with 0 in Hloop.
  rewrite Hloop. unfold mbind, Run_bind. cbn [mret Run_ret emit app].
  by rewrite fold_minutes_to_uint, Z.sub_0_r.
Qed.

Lemma session_time_minute now st pkt :
  len pkt ≤ 0 →
  session_time now st pkt = Done (set_epoch_time now st) [ClosePopup; UpdateTime].
Proof.
  intros Hlen. unfold session_time.
  by destruct (Z.ltb_spec 0 (len pkt)); [lia|].
Qed.


End Session.

(** C4. Session reset: an event start packet that carries its payload
    leaves the event number read from the payload (first byte skipped,
    [number = number * 10 + digit - '0'] in [unsigned int]; the decimal
    value itself for up to nine digits), the event type of the packet,
    zero times and lap, and an empty board; the reducer asked for the key
    and reset the decryption exactly once on the way. *)
Theorem session_start_resets `{!PacketH} (env : Collaborators) (now : Z)
    (st : CurrentState) (pkt : Packet) :
  type pkt = SYS_EVENT_ID →
  0 ≤ len pkt ≤ Z.of_nat (length (payload pkt)) → int_range (len pkt) →
  let digits := take (Z.to_nat (len pkt - 1)) (drop 1 (payload pkt)) in
  ∃ st' log,
    handle_system_packet env now st pkt = Done st' log ∧
    event_no st' = to_uint (ascii_decimal digits) ∧
    (Forall is_digit digits → (length digits ≤ 9)%nat →
     event_no st' = ascii_decimal digits) ∧
    event_type st' = data pkt ∧
    epoch_time st' = 0 ∧ remaining_time st' = 0 ∧ lap st' = 0 ∧
    num_cars st' = 0 ∧ car_position st' = [] ∧ car_info st' = [] ∧
    key st' = obtain_decryption_key env (host st) (event_no st') (cookie st) ∧
    decryption st' = decryption_start env ∧
    log = [ObtainDecryptionKey (host st) (event_no st') (cookie st);
           ResetDecryption; ClearBoard;
           LogInfo 3 (BeginNewEvent (event_no st') (event_type st'))] ∧
    calls ResetDecryption log = 1%nat.
Proof.
  intros Ht Hlen Hint digits.
  eexists _, _. split.
  { rewrite handle_event_id by done. by apply event_start_Done. }
  simpl. fold digits. repeat split.
  intros Hdigits Hnine. apply to_uint_small.
  pose proof (ascii_decimal_digits digits Hdigits) as Hval.
  assert (10 ^ Z.of_nat (length digits) ≤ 10 ^ 9); [|lia].
  apply Z.pow_le_mono_r; lia.
Qed.

Lemma session_start_resets_witness :
  ∃ st' log,
    handle_system_packet (H := feed_packet_h) offline 0 one_car_board
      (mkPacket 0 1 2 5 (bytes "_6012")) = Done st' log ∧
    event_no st' = 6012 ∧ event_type st' = 2 ∧ lap st' = 0 ∧
    num_cars st' = 0 ∧ remaining_time st' = 0 ∧
    calls ResetDecryption log = 1%nat.
Proof.
  destruct (session_start_resets (H := feed_packet_h) offline 0 one_car_board
              (mkPacket 0 1 2 5 (bytes "_6012")))
    as (st' & log & Hd & Hno & _ & Hty & _ & Hrem & Hlap & Hnum & _ & _ & _ & _
        & _ & Hcalls).
  - reflexivity.
  - simpl. lia.
  - unfold int_range. simpl. lia.
  - exists st', log. split; [exact Hd|]. rewrite Hno.
    split; [reflexivity|]. by repeat split.
Defined.

(** C4, as stated for every event start packet, fails twice.  An event
    number of ten digits does not fit [unsigned int]: [4294967297] is
    stored as [1].  And the packet without payload, [len = -1], is not
    reset at all: the loop bound of line 146 is compared as
    [unsigned int], and the loop leaves the payload. *)
Lemma session_start_any_packet_counterexample :
  (∃ st' log,
     handle_system_packet (H := feed_packet_h) offline 0 one_car_board
       (mkPacket 0 1 2 11 (bytes "_4294967297")) = Done st' log ∧
     event_no st' = 1 ∧
     ascii_decimal (bytes "4294967297") = 4294967297) ∧
  handle_system_packet (H := feed_packet_h) offline 0 one_car_board
    (mkPacket 0 1 2 (-1) []) = Undefined OutOfBounds.
Proof.
  split.
  - eexists _, _. split; [vm_compute; reflexivity|]. split; reflexivity.
  - vm_compute. reflexivity.
Qed.



(** C10. A weather packet for field 0 with [len == 0] goes the way of the
    packets without payload, not through the parser: the epoch time is set
    to the current time and the remaining time is left alone, exactly as for
    a negative [len]. *)
Theorem session_clock_empty_payload `{!PacketH} (env : Collaborators)
    (now : Z) (st : CurrentState) (pkt : Packet) :
  type pkt = SYS_WEATHER → data pkt = 0 → len pkt = 0 →
  handle_system_packet env now st pkt =
    Done (set_epoch_time now st) [ClosePopup; UpdateTime] ∧
  epoch_time (set_epoch_time now st) = now ∧
  remaining_time (set_epoch_time now st) = remaining_time st ∧
  ∀ pkt', type pkt' = SYS_WEATHER → data pkt' = 0 → len pkt' < 0 →
    handle_system_packet env now st pkt' = handle_system_packet env now st pkt.
Proof.
  intros Ht Hd Hlen.
  assert (Hrun : ∀ p, type p = SYS_WEATHER → data p = 0 → len p ≤ 0 →
    handle_system_packet env now st p =
    Done (set_epoch_time now st) [ClosePopup; UpdateTime]).
  { intros p Htp Hdp Hlp. rewrite handle_weather, Hdp by done. simpl.
    by apply session_time_minute. }
  split; [apply Hrun; (done || lia)|]. split; [done|]. split; [done|].
  intros pkt' Ht' Hd' Hlen'. rewrite !Hrun; (done || lia).
Qed.

Lemma session_clock_empty_payload_witness :
  ∃ st',
    handle_system_packet (H := feed_packet_h) offline 1118584800
      (set_remaining_time 3723 one_car_board)
      (mkPacket 0 9 0 0 (bytes "1:02:03")) = Done st' [ClosePopup; UpdateTime] ∧
    epoch_time st' = 1118584800 ∧ remaining_time st' = 3723.
Proof.
  destruct (session_clock_empty_payload (H := feed_packet_h) offline 1118584800
              (set_remaining_time 3723 one_car_board)
              (mkPacket 0 9 0 0 (bytes "1:02:03")))
    as (Hd & Hepoch & Hrem & _); [reflexivity..|].
  eexists. split; [exact Hd|]. split; [exact Hepoch | exact Hrem].
Defined.




(** * Further properties of the reducers *)

(** ** Car packets *)

Section CarPackets.

Context `{!PacketH}.

Lemma clear_position_idemp p l :
  clear_position p (clear_position p l) = clear_position p l.
Proof.
  unfold clear_position. rewrite <- list_fmap_compose.
  apply list_fmap_ext. intros _ y _. simpl.
  destruct (Z.eqb_spec y p) as [->|Hne].
  - by destruct (0 =? p).
  - by destruct (Z.eqb_spec y p).
Qed.

Lemma clear_position_update_fixed p (k : nat) l :
  (k < length l)%nat →
  <[k := p]> (clear_position p (<[k := p]> (clear_position p l))) =
  <[k := p]> (clear_position p l).
Proof.
  intros Hk. apply list_eq. intros i.
  destruct (decide (i = k)) as [->|Hik].
  - rewrite !list_lookup_insert_eq; [done|..];
      by rewrite ?clear_position_length, ?length_insert, ?clear_position_length.
  - rewrite !list_lookup_insert_ne by done.
    unfold clear_position at 1. rewrite list_lookup_fmap.
    rewrite list_lookup_insert_ne by done.
    fold (clear_position p).
    rewrite <- list_lookup_fmap.
    fold (clear_position p (clear_position p l)).
    by rewrite clear_position_idemp.
Qed.

Lemma handle_position_update_known st pkt :
  car pkt ≤ num_cars st →
  1 ≤ car pkt ≤ Z.of_nat (length (car_position st)) →
  type pkt = CAR_POSITION_UPDATE →
  handle_car_packet st pkt =
  Done (set_car_position
          (<[Z.to_nat (car pkt - 1) := data pkt]>
             (clear_position (data pkt) (car_position st))) st)
       (ClearCar (car pkt) ::
        (if data pkt =? 0 then [] else [UpdateCar (car pkt)])).
Proof.
  intros Hn Hc Ht. unfold handle_car_packet. rewrite car_joined_eq.
  destruct (joined_known st (car pkt) Hn) as [-> ->].
  unfold mbind at 1. unfold Run_bind at 1.
  rewrite Ht, Z.eqb_refl.
  rewrite store_ok by (rewrite clear_position_length; lia).
  by destruct (data pkt =? 0).
Qed.

Lemma car_joined_num_cars st pkt st1 log1 :
  car_joined st pkt = Done st1 log1 →
  num_cars st1 = Z.max (num_cars st) (car pkt) ∧
  same_session st st1 ∧
  (ClearBoard ∈ log1 ↔ num_cars st < car pkt).
Proof.
  intros [(Hlt & -> & ->)|(Hle & -> & ->)]%car_joined_Done.
  - split; [simpl; lia|]. split; [by repeat split|].
    split; [done|]. intros _. apply list_elem_of_here.
  - split; [lia|]. split; [by repeat split|].
    split; [by intros ?%elem_of_nil | lia].
Qed.

Lemma handle_car_packet_num_cars st pkt st' log :
  handle_car_packet st pkt = Done st' log →
  num_cars st' = Z.max (num_cars st) (car pkt).
Proof.
  intros (st1 & log1 & log2 & Hj & -> & Hcases)%handle_car_packet_Done.
  destruct (car_joined_num_cars _ _ _ _ Hj) as (Hn & _ & _).
  destruct Hcases as [(_ & _ & -> & _)|[(_ & _ & -> & _)|
    (_ & _ & _ & _ & row & atom & atom' & _ & _ & _ & -> & _)]]; done.
Qed.

End CarPackets.

(** X1. A car packet never shrinks the board: after the call [num_cars] is
    the larger of what it was and the car of the packet, and a packet for a
    car beyond [num_cars] has the board window rebuilt by [clear_board]
    (line 74). *)
Theorem car_packet_grows_board `{!PacketH} (st : CurrentState) (pkt : Packet)
    (st' : CurrentState) (log : list Event) :
  handle_car_packet st pkt = Done st' log →
  num_cars st' = Z.max (num_cars st) (car pkt) ∧
  (num_cars st < car pkt → ClearBoard ∈ log).
Proof.
  intros Hd. split; [by eapply handle_car_packet_num_cars|].
  apply handle_car_packet_Done in Hd
    as (st1 & log1 & log2 & Hj & -> & _).
  destruct (car_joined_num_cars _ _ _ _ Hj) as (_ & _ & Hclear).
  intros Hlt. apply elem_of_app. left. by apply Hclear.
Qed.

Lemma car_packet_grows_board_witness :
  ∃ st' log,
    handle_car_packet (H := feed_packet_h) one_car_board
      (mkPacket 4 15 0 (-1) []) = Done st' log ∧
    num_cars st' = 4 ∧ ClearBoard ∈ log.
Proof.
  eexists _, _. split; [vm_compute; reflexivity|].
  destruct (car_packet_grows_board (H := feed_packet_h) one_car_board
              (mkPacket 4 15 0 (-1) []) _ _ eq_refl) as [Hn Hclear].
  split; [exact Hn|]. apply Hclear. simpl. lia.
Defined.

(** X2. A car packet touches the board only: the session members of the
    state (host, cookie, key, decryption, frame, event number and type,
    times, lap, flag) are as before.  Moreover a packet that is no position
    update leaves the position of every car as it was, and a position update
    leaves every atom as it was. *)
Theorem car_packet_frame `{!PacketH} (st : CurrentState) (pkt : Packet)
    (st' : CurrentState) (log : list Event) :
  handle_car_packet st pkt = Done st' log →
  same_session st st' ∧
  (type pkt ≠ CAR_POSITION_UPDATE →
   ∀ c p, position_of st c = Some p → position_of st' c = Some p) ∧
  (type pkt = CAR_POSITION_UPDATE →
   ∀ c t a, atom_of st c t = Some a → atom_of st' c t = Some a).
Proof.
  intros (st1 & log1 & log2 & Hj & -> & Hcases)%handle_car_packet_Done.
  destruct (car_joined_num_cars _ _ _ _ Hj) as (_ & Hsess & _).
  assert (Hst1 : st1 = joined st (car pkt)).
  { rewrite car_joined_eq in Hj. by injection Hj. }
  assert (Hpos : ∀ c p, position_of st c = Some p → position_of st1 c = Some p).
  { intros c p. unfold position_of. destruct (c <? 1); [done|].
    rewrite Hst1. unfold joined. destruct (num_cars st <? car pkt); [|done].
    simpl. apply lookup_app_l_Some. }
  destruct Hcases as [(Hu & _ & -> & _)|[(Hu & _ & -> & _)|
    (Hu & _ & _ & _ & row & atom & atom' & _ & _ & _ & -> & _)]].
  - split; [exact Hsess|]. split; [done|]. intros _ c t a Ha.
    rewrite Hst1. by apply atom_of_joined.
  - split; [exact Hsess|]. split; [by intros _ | done].
  - split; [exact Hsess|]. split; [|done]. intros _ c p Hp. by apply Hpos.
Qed.

Lemma car_packet_frame_witness :
  ∃ st' log,
    handle_car_packet (H := feed_packet_h) one_car_board
      (mkPacket 1 0 7 (-1) []) = Done st' log ∧
    atom_of st' 1 3 = Some (mkCarAtom 5 (bytes "ALO")) ∧
    position_of st' 1 = Some 7.
Proof.
  eexists _, _. split; [vm_compute; reflexivity|].
  destruct (car_packet_frame (H := feed_packet_h) one_car_board
              (mkPacket 1 0 7 (-1) []) _ _ eq_refl) as (_ & _ & Hatoms).
  split; [|reflexivity]. by apply Hatoms.
Defined.

(** X3. Reducing the same car packet a second time changes nothing: the
    state that the first call left is a fixed point of the packet, and the
    second call does not clear the board. *)
Theorem car_packet_idempotent `{!PacketH} (st : CurrentState) (pkt : Packet)
    (st1 : CurrentState) (log1 : list Event) :
  handle_car_packet st pkt = Done st1 log1 →
  ∃ log2, handle_car_packet st1 pkt = Done st1 log2 ∧ ClearBoard ∉ log2.
Proof.
  intros Hd.
  pose proof (handle_car_packet_num_cars st pkt st1 log1 Hd) as Hn.
  apply handle_car_packet_Done in Hd
    as (st0 & l0 & l2 & Hj & -> & Hcases).
  assert (Hknown : car pkt ≤ num_cars st1) by lia.
  destruct Hcases as [(Hu & Hc & -> & _)|[(Hu & Hh & -> & _)|
    (Hu & Hh & Hc & Ht & row & atom & atom' & Hrow & Hatom & Hupd & -> & _)]].
  - eexists. split.
    + rewrite handle_position_update_known; try done.
      * cbn [car_position set_car_position].
        rewrite clear_position_update_fixed; [done|].
        rewrite <- (Nat2Z.id (length _)). lia.
      * cbn [car_position set_car_position].
        rewrite length_insert, clear_position_length. lia.
    + destruct (data pkt =? 0); rewrite !not_elem_of_cons;
        repeat split; try done; apply not_elem_of_nil.
  - eexists. split.
    + rewrite handle_position_history by done.
      by destruct (joined_known st0 (car pkt) Hknown) as [-> ->].
    + apply not_elem_of_nil.
  - pose proof (lookup_lt_Some _ _ _ Hrow) as Hklt.
    pose proof (lookup_lt_Some _ _ _ Hatom) as Htlt.
    apply update_atom_Done in Hupd as (_ & Hdata & Htext).
    assert (Hupd' : update_atom pkt atom' = Done atom' []).
    { apply update_atom_Done. split; [done|]. split; [done|].
      by destruct (0 <=? len pkt). }
    pose proof (handle_atom
                  (set_car_info
                     (<[Z.to_nat (car pkt - 1) :=
                          <[Z.to_nat (type pkt) := atom']> row]> (car_info st0))
                     st0)
                  pkt (<[Z.to_nat (type pkt) := atom']> row) atom' atom'
                  Hu Hh Hc Ht) as Hrun.
    destruct (joined_known
                (set_car_info
                   (<[Z.to_nat (car pkt - 1) :=
                        <[Z.to_nat (type pkt) := atom']> row]> (car_info st0))
                   st0) (car pkt) Hknown) as [Hj1 Hj2].
    cbv zeta in Hrun. rewrite Hj1, Hj2 in Hrun.
    cbn [car_info set_car_info] in Hrun.
    rewrite !list_insert_insert_eq in Hrun.
    eexists. split.
    + apply Hrun; [by apply list_lookup_insert_eq.. | done].
    + cbn [app]. rewrite not_elem_of_cons.
      split; [done | apply not_elem_of_nil].
Qed.

Lemma car_packet_idempotent_witness :
  ∃ st1 log1 log2,
    handle_car_packet (H := feed_packet_h) one_car_board
      (mkPacket 2 0 1 (-1) []) = Done st1 log1 ∧
    handle_car_packet (H := feed_packet_h) st1
      (mkPacket 2 0 1 (-1) []) = Done st1 log2 ∧
    car_position st1 = [0; 1].
Proof.
  eexists _. eexists _.
  match goal with
  | |- ∃ log2, handle_car_packet ?st ?pkt = Done ?st1 ?log1 ∧ _ =>
      assert (Hfirst : handle_car_packet (H := feed_packet_h) st pkt =
                       Done st1 log1) by (vm_compute; reflexivity);
      destruct (car_packet_idempotent (H := feed_packet_h) st pkt st1 log1
                  Hfirst) as (log2 & Hsecond & _)
  end.
  exists log2. split; [vm_compute; reflexivity|]. split; [exact Hsecond|].
  reflexivity.
Defined.

(** X4. Growth composes: letting two car packets in turn grow the board
    leaves the board that one growth to the larger of the two cars leaves,
    and the second growth changes nothing when its car is not beyond the
    first. *)
Theorem growth_composes `{!PacketH} (st : CurrentState) (p1 p2 : Packet)
    (st1 st2 : CurrentState) (l1 l2 : list Event) :
  car_joined st p1 = Done st1 l1 → car_joined st1 p2 = Done st2 l2 →
  st2 = joined st (Z.max (car p1) (car p2)) ∧
  (car p2 ≤ car p1 → st2 = st1 ∧ l2 = []).
Proof.
  intros H1 H2. rewrite car_joined_Done in H1, H2. unfold joined.
  destruct H1 as [(Hlt1 & -> & ->)|(Hle1 & -> & ->)];
    destruct H2 as [(Hlt2 & -> & ->)|(Hle2 & -> & ->)];
    cbn [num_cars new_cars] in *.
  - split; [|lia].
    replace (Z.max (car p1) (car p2)) with (car p2) by lia.
    destruct (Z.ltb_spec (num_cars st) (car p2)); [|lia].
    unfold new_cars. cbn [num_cars car_position car_info host cookie key
      decryption frame event_no event_type epoch_time remaining_time lap flag].
    rewrite <- !app_assoc, <- !replicate_add.
    by replace (Z.to_nat (car p1 - num_cars st) + Z.to_nat (car p2 - car p1))%nat
      with (Z.to_nat (car p2 - num_cars st)) by lia.
  - split; [|done].
    replace (Z.max (car p1) (car p2)) with (car p1) by lia.
    by destruct (Z.ltb_spec (num_cars st) (car p1)); [|lia].
  - split; [|lia].
    replace (Z.max (car p1) (car p2)) with (car p2) by lia.
    by destruct (Z.ltb_spec (num_cars st) (car p2)); [|lia].
  - split; [|done].
    by destruct (Z.ltb_spec (num_cars st) (Z.max (car p1) (car p2))); [lia|].
Qed.

Lemma growth_composes_witness :
  ∃ st1 l1 st2 l2,
    car_joined (H := feed_packet_h) one_car_board (mkPacket 3 15 0 (-1) []) =
      Done st1 l1 ∧
    car_joined (H := feed_packet_h) st1 (mkPacket 5 15 0 (-1) []) =
      Done st2 l2 ∧
    st2 = joined (H := feed_packet_h) one_car_board 5 ∧
    car_position st2 = [0; 0; 0; 0; 0].
Proof.
  eexists _, _, _, _.
  split; [vm_compute; reflexivity|]. split; [vm_compute; reflexivity|].
  split; [|reflexivity].
  refine (proj1 (growth_composes (H := feed_packet_h) one_car_board
                   (mkPacket 3 15 0 (-1) []) (mkPacket 5 15 0 (-1) [])
                   _ _ _ _ _ _)); vm_compute; reflexivity.
Defined.

(** ** Texts of the atoms *)

Section Texts.

Context `{!PacketH}.

Lemma c_string_Some buf s :
  c_string buf = Some s ↔ ∃ rest, buf = s ++ 0 :: rest ∧ 0 ∉ s.
Proof.
  revert s. induction buf as [|b buf IH]; intros s; simpl.
  - split; [done|]. intros (rest & Hbuf & _). by destruct s.
  - destruct (Z.eqb_spec b 0) as [->|Hb].
    + split.
      * intros [= <-]. exists buf. split; [done | apply not_elem_of_nil].
      * intros (rest & Hbuf & Hs). destruct s as [|c s]; [done|].
        injection Hbuf as <- _. exfalso. apply Hs, list_elem_of_here.
    + destruct (c_string buf) as [s'|] eqn:Hs'; simpl; split.
      * intros [= <-]. destruct (proj1 (IH s') eq_refl) as (rest & -> & Hnul).
        exists rest. split; [done|]. rewrite not_elem_of_cons. by split.
      * intros (rest & Hbuf & Hs). destruct s as [|c s]; [by injection Hbuf|].
        injection Hbuf as <- ->. rewrite not_elem_of_cons in Hs.
        destruct Hs as [_ Hs]. f_equal. f_equal.
        assert (Hsome : Some s' = Some s); [|by injection Hsome].
        apply IH. by exists rest.
      * done.
      * intros (rest & Hbuf & Hs). destruct s as [|c s]; [by injection Hbuf|].
        injection Hbuf as <- ->. rewrite not_elem_of_cons in Hs.
        destruct Hs as [_ Hs].
        assert (Hsome : None = Some s); [|done].
        apply IH. by exists rest.
Qed.

Lemma zero_atom_fits : 0 < TEXT_SIZE → text_fits zero_atom.
Proof. intros Hsize. split; [done | apply not_elem_of_nil]. Qed.

Lemma update_atom_fits pkt atom atom' log :
  text_fits atom → update_atom pkt atom = Done atom' log → text_fits atom'.
Proof.
  intros [Hlen Hnul] (_ & _ & Htext)%update_atom_Done. unfold text_fits.
  destruct (0 <=? len pkt).
  - destruct Htext as [(rest & _ & Hs)%c_string_Some Hfit]. by split.
  - by rewrite Htext.
Qed.

Lemma handle_car_packet_texts_fit st pkt st' log :
  0 < TEXT_SIZE → texts_fit st →
  handle_car_packet st pkt = Done st' log → texts_fit st'.
Proof.
  intros Hsize Hfit (st1 & log1 & log2 & Hj & _ & Hcases)%handle_car_packet_Done.
  assert (Hfit1 : texts_fit st1).
  { apply car_joined_Done in Hj as [(_ & -> & _)|(_ & -> & _)]; [|done].
    unfold texts_fit, new_cars. simpl. apply Forall_app. split; [done|].
    apply Forall_replicate, Forall_replicate. by apply zero_atom_fits. }
  destruct Hcases as [(_ & _ & -> & _)|[(_ & _ & -> & _)|
    (_ & _ & _ & _ & row & atom & atom' & Hrow & Hatom & Hupd & -> & _)]];
    try done.
  unfold texts_fit in *. simpl.
  pose proof (Forall_lookup_1 _ _ _ _ Hfit1 Hrow) as Hrowfit.
  apply Forall_insert; [done|]. apply Forall_insert; [done|].
  apply (update_atom_fits pkt atom atom' []); [|done].
  by apply (Forall_lookup_1 _ _ _ _ Hrowfit Hatom).
Qed.

End Texts.

(** X5. The texts on the board are C strings that their arrays hold:
    whenever a car packet is reduced to a state, every atom text of the new
    board is free of NUL bytes and shorter than [TEXT_SIZE], given that this
    held before; the text that an atom packet with payload stores is the
    payload up to its first NUL, whatever [len] says. *)
Theorem stored_texts_fit `{!PacketH} (st : CurrentState) (pkt : Packet)
    (st' : CurrentState) (log : list Event) :
  0 < TEXT_SIZE → texts_fit st →
  handle_car_packet st pkt = Done st' log →
  texts_fit st' ∧
  (type pkt ≠ CAR_POSITION_UPDATE → type pkt ≠ CAR_POSITION_HISTORY →
   0 ≤ len pkt →
   ∃ a rest, atom_of st' (car pkt) (type pkt) = Some a ∧
             payload pkt = atom_text a ++ 0 :: rest).
Proof.
  intros Hsize Hfit Hd.
  split; [by apply (handle_car_packet_texts_fit st pkt st' log)|].
  intros Hu Hh Hlen.
  apply handle_car_packet_Done in Hd as (st1 & log1 & log2 & Hj & _ & Hcases).
  destruct Hcases as [(? & _)|[(_ & ? & _)|
    (_ & _ & Hc & Ht & row & atom & atom' & Hrow & Hatom & Hupd & -> & _)]];
    try done.
  destruct (atom_of_updated st1 (car pkt) (type pkt) row atom')
    as [Hnew _]; [done | done | done | by apply lookup_lt_Some in Hatom |].
  apply update_atom_Done in Hupd as (_ & _ & Htext).
  destruct (Z.leb_spec 0 (len pkt)); [|lia].
  destruct Htext as [(rest & Hpay & _)%c_string_Some _].
  by exists atom', rest.
Qed.

Lemma stored_texts_fit_witness :
  ∃ st' log a,
    handle_car_packet (H := feed_packet_h) one_car_board
      (mkPacket 1 4 1 0 (bytes "1:23.456" ++ [0; 88; 89])) = Done st' log ∧
    atom_of st' 1 4 = Some a ∧ atom_text a = bytes "1:23.456" ∧
    texts_fit (H := feed_packet_h) st'.
Proof.
  eexists _, _, _. split; [vm_compute; reflexivity|].
  split; [reflexivity|]. split; [reflexivity|].
  refine (proj1 (stored_texts_fit (H := feed_packet_h) one_car_board
                   (mkPacket 1 4 1 0 (bytes "1:23.456" ++ [0; 88; 89]))
                   _ _ _ _ _)).
  - done.
  - unfold texts_fit. simpl. change (bytes "ALO") with [65; 76; 79].
    repeat first [apply Forall_nil_2 | apply Forall_cons_2];
      (split; simpl; [lia|]);
      rewrite ?not_elem_of_cons; repeat split; try done; apply not_elem_of_nil.
  - vm_compute. reflexivity.
Defined.

(** ** System packets *)

Section SystemPackets.

Context `{!PacketH} (env : Collaborators).

Lemma duration_loop_quiet rest i ulen total number v log :
  duration_loop rest i ulen total number = Done v log → log = [].
Proof.
  revert i total number.
  induction rest as [|b rest IH]; intros i total number; simpl;
    destruct (i <? ulen); try done; try (by intros [= _ <-]).
  destruct (b =? 58); apply IH.
Qed.

Lemma session_time_inv now st pkt st' log :
  session_time now st pkt = Done st' log →
  log = [ClosePopup; UpdateTime] ∧
  host st' = host st ∧ cookie st' = cookie st ∧ key st' = key st ∧
  decryption st' = decryption st ∧ frame st' = frame st ∧
  event_no st' = event_no st ∧ event_type st' = event_type st ∧
  lap st' = lap st ∧ flag st' = flag st.
Proof.
  unfold session_time. intros Hd.
  apply bind_Done in Hd as (st1 & l1 & l2 & Hd1 & Hd2 & ->).
  run_inv. subst. destruct (0 <? len pkt).
  - apply bind_Done in Hd1 as ([t n] & la & lb & Hloop & Hd1 & ->).
    pose proof (duration_loop_quiet _ _ _ _ _ _ _ Hloop) as ->.
    run_inv. subst. by destruct (epoch_time st =? 0).
  - run_inv. by subst.
Qed.

Lemma info_payload_inv irrelevance pkt u log :
  info_payload irrelevance pkt = Done u log →
  ∃ s, log = [LogInfo irrelevance (PayloadLine s)].
Proof.
  unfold info_payload. destruct (c_string (payload pkt)) as [s|]; [|done].
  intros ->%emit_Done. by exists s.
Qed.

(** What the packets other than the event start and the key frame do. *)
Lemma other_system_packet now st pkt st' log :
  type pkt ≠ SYS_EVENT_ID → type pkt ≠ SYS_KEY_FRAME →
  handle_system_packet env now st pkt = Done st' log →
  (host st' = host st ∧ cookie st' = cookie st ∧ key st' = key st ∧
   decryption st' = decryption st ∧ frame st' = frame st ∧
   event_no st' = event_no st ∧ event_type st' = event_type st ∧
   lap st' = lap st) ∧
  (type pkt ≠ SYS_WEATHER →
   epoch_time st' = epoch_time st ∧ remaining_time st' = remaining_time st) ∧
  (type pkt ≠ SYS_TRACK_STATUS → flag st' = flag st) ∧
  key_frame_requests log = 0%nat ∧ calls ResetDecryption log = 0%nat ∧
  calls ClearBoard log = 0%nat.
Proof.
  intros He Hk. unfold handle_system_packet.
  destruct (Z.eqb_spec (type pkt) SYS_EVENT_ID); [done|].
  destruct (Z.eqb_spec (type pkt) SYS_KEY_FRAME); [done|].
  destruct sys_labels_ne as (?&?&?&?&?&?&?&?&?&?&?&?&?&?&?).
  destruct (Z.eqb_spec (type pkt) SYS_WEATHER) as [Hw|Hw].
  { destruct (data pkt =? 0).
    - intros (-> & ?)%session_time_inv. split; [tauto|].
      split; [done|]. split; [tauto | done].
    - intros Hd. run_inv. by subst. }
  destruct (Z.eqb_spec (type pkt) SYS_TRACK_STATUS) as [Ht|Ht].
  { destruct (data pkt =? 1).
    - unfold track_flag. intros Hd. run_inv. by subst.
    - intros Hd. run_inv. by subst. }
  destruct (Z.eqb_spec (type pkt) SYS_COPYRIGHT) as [Hc|Hc].
  { intros Hd. apply bind_Done in Hd as (u & l1 & l2 & Hi & Hd & ->).
    apply info_payload_inv in Hi as (s & ->). run_inv. by subst. }
  destruct (Z.eqb_spec (type pkt) SYS_NOTICE) as [Hn|Hn].
  { intros Hd. apply bind_Done in Hd as (u & l1 & l2 & Hi & Hd & ->).
    apply info_payload_inv in Hi as (s & ->). run_inv. by subst. }
  intros Hd. run_inv. by subst.
Qed.

End SystemPackets.

(** X6. Only the event start and the key frame touch the board, the key,
    the frame counter and the decryption: any other system packet leaves
    them as they are, changes the times only if it is a weather packet and
    the flag only if it is a track status packet, and calls neither for a
    key frame nor [reset_decryption]. *)
Theorem quiet_system_packets `{!PacketH} (env : Collaborators) (now : Z)
    (st : CurrentState) (pkt : Packet) (st' : CurrentState)
    (log : list Event) :
  type pkt ≠ SYS_EVENT_ID → type pkt ≠ SYS_KEY_FRAME →
  handle_system_packet env now st pkt = Done st' log →
  same_board st st' ∧
  (host st' = host st ∧ cookie st' = cookie st ∧ key st' = key st ∧
   decryption st' = decryption st ∧ frame st' = frame st ∧
   event_no st' = event_no st ∧ event_type st' = event_type st ∧
   lap st' = lap st) ∧
  (type pkt ≠ SYS_WEATHER →
   epoch_time st' = epoch_time st ∧ remaining_time st' = remaining_time st) ∧
  (type pkt ≠ SYS_TRACK_STATUS → flag st' = flag st) ∧
  key_frame_requests log = 0%nat ∧ calls ResetDecryption log = 0%nat.
Proof.
  intros Hev Hkf Hd. split.
  - by apply (handle_system_packet_same_board env now st pkt st' log).
  - destruct (other_system_packet env now st pkt st' log Hev Hkf Hd)
      as (Hsess & Htimes & Hflag & Hreq & Hreset & _).
    done.
Qed.

Lemma quiet_system_packets_witness :
  ∃ st' log,
    handle_system_packet (H := feed_packet_h) offline 0 one_car_board
      (mkPacket 0 11 1 1 (bytes "2")) = Done st' log ∧
    flag st' = 2 ∧ same_board one_car_board st' ∧
    frame st' = frame one_car_board ∧ calls ResetDecryption log = 0%nat.
Proof.
  eexists _, _. split; [vm_compute; reflexivity|]. split; [reflexivity|].
  destruct (quiet_system_packets (H := feed_packet_h) offline 0 one_car_board
              (mkPacket 0 11 1 1 (bytes "2")) _ _
              ltac:(discriminate) ltac:(discriminate) eq_refl)
    as (Hboard & (_ & _ & _ & _ & Hframe & _) & _ & _ & _ & Hreset).
  by repeat split.
Defined.

(** X7. Once the frame counter is not 0, no system packet asks for a key
    frame, whatever the collaborators are; and the counter stays away from
    0 unless a key frame packet carries the number 0. *)
Theorem synced_asks_for_no_key_frame `{!PacketH} (env : Collaborators)
    (now : Z) (st : CurrentState) (pkt : Packet) (st' : CurrentState)
    (log : list Event) :
  frame st ≠ 0 → handle_system_packet env now st pkt = Done st' log →
  key_frame_requests log = 0%nat ∧
  (frame st' = 0 →
   type pkt = SYS_KEY_FRAME ∧ key_frame_number pkt = Done 0 []).
Proof.
  intros Hf Hd.
  destruct (decide (type pkt = SYS_EVENT_ID)) as [He|He].
  { rewrite handle_event_id in Hd by done.
    apply event_start_inv in Hd as (number & -> & ->). by split. }
  destruct (decide (type pkt = SYS_KEY_FRAME)) as [Hk|Hk].
  { rewrite handle_key_frame in Hd by done.
    apply key_frame_inv in Hd as (number & Hn & [(_ & -> & ->)|(? & _)]);
      [|done].
    split; [done|]. simpl. by intros ->. }
  destruct (other_system_packet env now st pkt st' log He Hk Hd)
    as ((_ & _ & _ & _ & Hframe & _) & _ & _ & Hreq & _).
  split; [done|]. intros Hz. congruence.
Qed.

Lemma synced_asks_for_no_key_frame_witness :
  ∃ st' log,
    handle_system_packet (H := feed_packet_h) online 0
      (set_frame 7 one_car_board) (mkPacket 0 2 0 1 [0]) = Done st' log ∧
    key_frame_requests log = 0%nat ∧ frame st' = 0.
Proof.
  eexists _, _. split; [vm_compute; reflexivity|]. split; [|reflexivity].
  refine (proj1 (synced_asks_for_no_key_frame (H := feed_packet_h) online 0
                   (set_frame 7 one_car_board) (mkPacket 0 2 0 1 [0]) _ _
                   _ eq_refl)).
  simpl. lia.
Defined.

(** X8. The event start and the key frame do not know the packet without
    payload: with a negative [len] the loop bound, converted to
    [unsigned int], lies beyond any payload array, and the loop reads
    outside the array. *)
Theorem no_payload_is_read_anyway `{!PacketH} (env : Collaborators) (now : Z)
    (st : CurrentState) (pkt : Packet) :
  type pkt = SYS_EVENT_ID ∨ type pkt = SYS_KEY_FRAME →
  int_range (len pkt) → len pkt < 0 →
  Z.of_nat (length (payload pkt)) < 2 ^ 31 →
  handle_system_packet env now st pkt = Undefined OutOfBounds.
Proof.
  intros [Ht|Ht] Hint Hneg Hsize.
  - rewrite handle_event_id by done. by apply event_start_no_payload.
  - rewrite handle_key_frame by done. unfold key_frame, key_frame_number.
    assert (Hu : to_uint (len pkt) = len pkt + 2 ^ 32).
    { unfold to_uint. symmetry. destruct Hint as [Hlo _].
      apply (Z.mod_unique _ _ (-1)); lia. }
    destruct (Z.ltb_spec (Z.of_nat (length (payload pkt))) (to_uint (len pkt)));
      [done|].
    destruct Hint. lia.
Qed.

Lemma no_payload_is_read_anyway_witness :
  handle_system_packet (H := feed_packet_h) offline 0 one_car_board
    (mkPacket 0 1 2 (-1) (bytes "_6012")) = Undefined OutOfBounds.
Proof.
  apply (no_payload_is_read_anyway (H := feed_packet_h)).
  - by left.
  - unfold int_range. simpl. lia.
  - simpl. lia.
  - simpl. lia.
Defined.

(** ** Numerals *)

Lemma lor_shifted_byte q b :
  0 ≤ q → is_byte b → Z.lor (256 * q) b = 256 * q + b.
Proof.
  intros Hq [Hb0 Hb1].
  rewrite <- (Z.add_lor_land (256 * q) b).
  assert (Hland : Z.land (256 * q) b = 0); [|lia].
  apply Z.bits_inj'. intros n Hn. rewrite Z.land_spec, Z.bits_0.
  destruct (Z.lt_ge_cases n 8) as [Hlow|Hhigh].
  - replace (256 * q) with (q * 2 ^ 8) by lia.
    by rewrite Z.mul_pow2_bits_low.
  - rewrite (proj2 (Z.testbit_false b n Hn)); [apply andb_false_r|].
    rewrite Z.div_small; [done|].
    split; [done|]. apply Z.lt_le_trans with (2 ^ 8); [lia|].
    apply Z.pow_le_mono_r; lia.
Qed.

Lemma key_frame_step_little_endian v b :
  is_byte b → key_frame_step (to_uint v) b = to_uint (b + 256 * v).
Proof.
  intros Hb. unfold key_frame_step.
  rewrite Z.shiftl_mul_pow2 by lia.
  assert (Hx : to_uint (to_uint v * 2 ^ 8) = 256 * (v mod 2 ^ 24)).
  { unfold to_uint. rewrite Z.mul_mod_idemp_l by lia.
    change (2 ^ 32) with (2 ^ 24 * 2 ^ 8).
    rewrite Z.mul_mod_distr_r by lia. lia. }
  rewrite Hx.
  pose proof (Z.mod_pos_bound v (2 ^ 24) ltac:(lia)) as Hq.
  rewrite lor_shifted_byte by (done || lia).
  unfold to_uint.
  apply (Z.mod_unique _ _ (v / 2 ^ 24)).
  - left. destruct Hb. lia.
  - pose proof (Z.div_mod v (2 ^ 24) ltac:(lia)). lia.
Qed.

Lemma foldl_key_frame_step bs :
  Forall is_byte bs →
  foldl key_frame_step 0 (reverse bs) = to_uint (little_endian bs).
Proof.
  induction bs as [|b bs IH]; [done|].
  intros [Hb Hbs]%Forall_cons_1.
  rewrite reverse_cons, foldl_snoc, IH by done.
  by apply key_frame_step_little_endian.
Qed.

Lemma little_endian_bound bs :
  Forall is_byte bs → 0 ≤ little_endian bs < 256 ^ Z.of_nat (length bs).
Proof.
  induction bs as [|b bs IH]; [done|].
  intros [[Hb0 Hb1] Hbs]%Forall_cons_1. specialize (IH Hbs).
  cbn [little_endian foldr length]. fold (little_endian bs).
  rewrite Nat2Z.inj_succ, Z.pow_succ_r by lia. lia.
Qed.

(** X9. The number of a key frame packet is its payload read as a
    little-endian number, in [unsigned int]: the first [len] bytes, least
    significant first, modulo [2 ^ 32]; for up to four bytes it is the
    little-endian value itself. *)
Theorem key_frame_number_little_endian (pkt : Packet) :
  0 ≤ len pkt ≤ Z.of_nat (length (payload pkt)) → int_range (len pkt) →
  Forall is_byte (take (Z.to_nat (len pkt)) (payload pkt)) →
  key_frame_number pkt =
    Done (to_uint (little_endian (take (Z.to_nat (len pkt)) (payload pkt)))) [] ∧
  (len pkt ≤ 4 →
   key_frame_number pkt =
     Done (little_endian (take (Z.to_nat (len pkt)) (payload pkt))) []).
Proof.
  intros Hlen Hint Hbytes.
  assert (Hu : to_uint (len pkt) = len pkt).
  { apply to_uint_small. unfold int_range in Hint. lia. }
  assert (Hn : key_frame_number pkt =
    Done (to_uint (little_endian (take (Z.to_nat (len pkt)) (payload pkt)))) []).
  { rewrite key_frame_number_Done by lia.
    by rewrite Hu, foldl_key_frame_step. }
  split; [done|]. intros Hfour. rewrite Hn. f_equal.
  apply to_uint_small.
  pose proof (little_endian_bound _ Hbytes) as Hbound.
  rewrite length_take in Hbound.
  assert (256 ^ Z.of_nat (Z.to_nat (len pkt) `min` length (payload pkt))
          ≤ 256 ^ 4); [|lia].
  apply Z.pow_le_mono_r; lia.
Qed.

Lemma key_frame_number_little_endian_witness :
  key_frame_number (mkPacket 0 2 0 2 [57; 48; 99]) = Done 12345 [].
Proof.
  refine (proj2 (key_frame_number_little_endian (mkPacket 0 2 0 2 [57; 48; 99])
                   _ _ _) _).
  - simpl. lia.
  - unfold int_range. simpl. lia.
  - simpl. repeat constructor; unfold is_byte; lia.
  - simpl. lia.
Defined.

Lemma duration_fold_field total number field :
  58 ∉ field →
  foldl duration_fold (total, number) field =
  (total, foldl (λ n b, n * 10 + (b - 48)) number field).
Proof.
  revert number. induction field as [|b field IH]; intros number; [done|].
  rewrite not_elem_of_cons. intros [Hb Hfield]. simpl.
  unfold duration_fold at 2. simpl.
  destruct (Z.eqb_spec b 58); [done|]. by apply IH.
Qed.

Lemma duration_fold_fields total field fields :
  Forall (λ f, 58 ∉ f) (field :: fields) →
  let acc := foldl duration_fold (total, 0) (colon_separated field fields) in
  fst acc * 60 + snd acc =
  foldl (λ t f, t * 60 + ascii_decimal f) total (field :: fields).
Proof.
  revert total field. induction fields as [|next fields IH];
    intros total field [Hf Hfs]%Forall_cons_1 acc; subst acc.
  - simpl. by rewrite duration_fold_field.
  - cbn [colon_separated]. rewrite foldl_app, duration_fold_field by done.
    cbn [foldl]. unfold duration_fold at 2. cbn [fst snd].
    rewrite Z.eqb_refl. by rewrite IH.
Qed.

(** X10. The session clock reads its payload as fields of decimal digits
    with colons between them, and the fields as the digits of a number in
    base 60, most significant first: hours, minutes and seconds give
    [3600 * h + 60 * m + s], and a payload without colon gives its decimal
    value in seconds (all modulo [2 ^ 32]). *)
Theorem session_clock_base_60 `{!PacketH} (env : Collaborators) (now : Z)
    (st : CurrentState) (pkt : Packet) (field : list Z)
    (fields : list (list Z)) :
  type pkt = SYS_WEATHER → data pkt = 0 →
  0 < len pkt ≤ Z.of_nat (length (payload pkt)) → int_range (len pkt) →
  take (Z.to_nat (len pkt)) (payload pkt) = colon_separated field fields →
  Forall (λ f, 58 ∉ f) (field :: fields) →
  ∃ st' log,
    handle_system_packet env now st pkt = Done st' log ∧
    remaining_time st' = to_uint (base_60 (field :: fields)) ∧
    (∀ h m s, field :: fields = [h; m; s] →
       remaining_time st' =
       to_uint (3600 * ascii_decimal h + 60 * ascii_decimal m
                + ascii_decimal s)) ∧
    (fields = [] → remaining_time st' = to_uint (ascii_decimal field)).
Proof.
  intros Ht Hd Hlen Hint Hpay Hfields.
  eexists _, _. split.
  { rewrite handle_weather, Hd by done. simpl. by apply session_time_parsed. }
  cbn [remaining_time set_remaining_time].
  assert (Hsec : duration_seconds (take (Z.to_nat (len pkt)) (payload pkt)) =
                 base_60 (field :: fields)).
  { rewrite Hpay. unfold duration_seconds, base_60.
    by apply duration_fold_fields. }
  rewrite Hsec. split; [done|]. split.
  - intros h m s [= -> ->]. f_equal. unfold base_60. simpl. lia.
  - by intros ->.
Qed.

Lemma session_clock_base_60_witness :
  ∃ st' log,
    handle_system_packet (H := feed_packet_h) offline 0 one_car_board
      (mkPacket 0 9 0 7 (bytes "1:02:03")) = Done st' log ∧
    remaining_time st' = 3600 * 1 + 60 * 2 + 3.
Proof.
  destruct (session_clock_base_60 (H := feed_packet_h) offline 0 one_car_board
              (mkPacket 0 9 0 7 (bytes "1:02:03"))
              (bytes "1") [bytes "02"; bytes "03"])
    as (st' & log & Hd & _ & Hhms & _).
  - reflexivity.
  - reflexivity.
  - simpl. lia.
  - unfold int_range. simpl. lia.
  - reflexivity.
  - change (bytes "1") with [49]. change (bytes "02") with [48; 50].
    change (bytes "03") with [48; 51].
    repeat first [apply Forall_nil_2 | apply Forall_cons_2];
      rewrite ?not_elem_of_cons; repeat split; try done; apply not_elem_of_nil.
  - exists st', log. split; [exact Hd|].
    rewrite (Hhms _ _ _ eq_refl). reflexivity.
Defined.

(** * Properties of the display *)

(** Takes a membership in one of the two tables apart, case by case. *)
Ltac table_cases H :=
  unfold race_cells, practice_cells in H;
  repeat (apply elem_of_cons in H as [H|H]; [injection H as -> ->|]);
  [..|by apply elem_of_nil in H].

Section DisplayGeometry.

Context `{!PacketH} `{!DisplayH}.

Lemma foldl_max_le a l : a ≤ foldl Z.max a l.
Proof.
  revert a. induction l as [|y l IH]; intros a; simpl; [lia|].
  specialize (IH (Z.max a y)). lia.
Qed.

Lemma foldl_max_elem a l (i : nat) y :
  l !! i = Some y → y ≤ foldl Z.max a l.
Proof.
  revert a i. induction l as [|z l IH]; intros a i; [done|].
  destruct i as [|i]; simpl.
  - intros [= ->]. pose proof (foldl_max_le (Z.max a y) l). lia.
  - apply IH.
Qed.

Lemma board_lines_Done st n log :
  board_lines st = Done n log →
  log = [] ∧ MIN_CARS < n ∧ num_cars st < n ∧
  ∀ c y, 1 ≤ c ≤ num_cars st → position_of st c = Some y → y < n.
Proof.
  unfold board_lines.
  destruct (Z.ltb_spec (Z.of_nat (length (car_position st))) (num_cars st));
    [done|].
  intros [= <- <-]. split; [done|].
  pose proof (foldl_max_le (Z.max (num_cars st) MIN_CARS)
                (take (Z.to_nat (num_cars st)) (car_position st))) as Hle.
  split; [lia|]. split; [lia|].
  intros c y Hc Hy. rewrite position_of_lookup in Hy by lia.
  pose proof (foldl_max_elem (Z.max (num_cars st) MIN_CARS)
                (take (Z.to_nat (num_cars st)) (car_position st))
                (Z.to_nat (c - 1)) y) as Hy'.
  rewrite lookup_take_lt in Hy' by lia. specialize (Hy' Hy). lia.
Qed.

Lemma switch_Some {A} label (cases : list (Z * A)) a :
  switch label cases = Some a → (label, a) ∈ cases.
Proof.
  induction cases as [|[l b] cases IH]; simpl; [done|].
  destruct (Z.eqb_spec label l) as [->|Hne].
  - intros [= ->]. apply list_elem_of_here.
  - intros Hs. apply list_elem_of_further. by apply IH.
Qed.

Lemma cell_of_Some ev ty c :
  cell_of ev ty = Some c →
  (ev = RACE_EVENT ∧ (ty, c) ∈ race_cells) ∨
  (ev = PRACTICE_EVENT ∧ (ty, c) ∈ practice_cells).
Proof.
  unfold cell_of. destruct (Z.eqb_spec ev RACE_EVENT) as [->|Hr].
  - intros Hs%switch_Some. by left.
  - destruct (Z.eqb_spec ev PRACTICE_EVENT) as [->|Hp]; [|done].
    intros Hs%switch_Some. by right.
Qed.

Lemma cell_inside ev ty c :
  cell_of ev ty = Some c →
  0 ≤ cell_x c ∧ 0 < cell_sz c ∧ cell_x c + cell_sz c ≤ BOARD_COLS ∧
  (cell_align c = 1 ∨ cell_align c = -1).
Proof.
  intros [[_ Hc]|[_ Hc]]%cell_of_Some; table_cases Hc;
    unfold BOARD_COLS; simpl; lia.
Qed.

Lemma cell_characters_length c text :
  0 ≤ cell_sz c → cell_align c = 1 ∨ cell_align c = -1 →
  Z.of_nat (length (cell_characters c text)) = cell_sz c.
Proof.
  intros Hsz Halign. unfold cell_characters, cell_text.
  destruct (Z.ltb_spec (cell_sz c) (Z.of_nat (length text)));
    destruct Halign as [-> | ->]; simpl;
    rewrite ?length_app, ?length_replicate; simpl; lia.
Qed.

Lemma draw_atom_Done attrs atom y c d log :
  draw_atom attrs atom y c = Done d log →
  row d = y ∧ column d = cell_x c ∧
  characters d = cell_characters c (atom_text atom) ∧
  is_Some (attrs !! Z.to_nat (atom_data atom)) ∧ 0 ≤ atom_data atom ∧
  attrs !! Z.to_nat
    (if Z.of_nat (length (cell_text (cell_sz c) (atom_text atom))) =? 0
     then COLOUR_DEFAULT else atom_data atom) = Some (attribute d).
Proof.
  unfold draw_atom. intros Hd.
  apply bind_Done in Hd as (attr & l1 & l2 & Ha & Hd & ->).
  apply fetch_Done in Ha as (Ha0 & Ha & ->).
  apply bind_Done in Hd as (attr' & l3 & l4 & Ha' & Hd & ->).
  apply mret_Done in Hd as [<- ->]. simpl.
  split; [done|]. split; [done|]. split; [done|].
  split; [by eexists|]. split; [done|].
  destruct (Z.of_nat (length (cell_text (cell_sz c) (atom_text atom))) =? 0).
  - by apply fetch_Done in Ha' as (_ & Ha' & _).
  - apply mret_Done in Ha' as [<- _]. done.
Qed.

End DisplayGeometry.

(** X11. When [clear_board] gets past its two size tests, the board window
    it creates is within the terminal, has more than [MIN_CARS] lines and
    more lines than cars, and no car of the board has its line beyond it:
    redrawing any cell of any car then asks for no further rebuild, and
    draws on the line that is the position of the car, which is not the
    header and not beyond the window.  The line is inside the window when
    the position is not negative; lines 236-238 do not test for that. *)
Theorem board_holds_every_car `{!DisplayH} (lines cols : Z)
    (st : CurrentState) (n : Z) (log : list Event) :
  board_window lines cols st = Done (Some n) log →
  MIN_CARS < n ≤ lines ∧ BOARD_COLS ≤ cols ∧ num_cars st < n ∧
  ∀ attrs c ty out log',
    1 ≤ c ≤ num_cars st →
    _update_cell attrs n st c ty = Done out log' →
    fst out = false ∧
    ∀ d, snd out = Some d →
      position_of st c = Some (row d) ∧ row d ≠ 0 ∧ row d < n ∧
      (0 ≤ row d → 0 < row d < n).
Proof.
  unfold board_window. intros Hd.
  apply bind_Done in Hd as (n' & l1 & l2 & Hn & Hd & ->).
  apply board_lines_Done in Hn as (-> & Hmin & Hcars & Hrows).
  destruct (Z.ltb_spec lines n'); [by apply mret_Done in Hd as [? _]|].
  destruct (Z.ltb_spec cols BOARD_COLS); [by apply mret_Done in Hd as [? _]|].
  apply mret_Done in Hd as [[= ->] _].
  split; [lia|]. split; [done|]. split; [done|].
  intros attrs c ty out log' Hc Hu. unfold _update_cell in Hu.
  apply bind_Done in Hu as (y & l3 & l4 & Hy & Hu & ->).
  apply fetch_Done in Hy as (_ & Hy & ->).
  destruct (Z.eqb_spec y 0) as [->|Hy0].
  { apply mret_Done in Hu as [<- _]. by split. }
  assert (Hpos : position_of st c = Some y)
    by (by rewrite position_of_lookup by lia).
  assert (Hlt : y < n) by (by apply (Hrows c)).
  destruct (Z.ltb_spec n y); [lia|].
  destruct (cell_of (event_type st) ty) as [cell|].
  - apply bind_Done in Hu as (cells & la & lb & _ & Hu & _).
    apply bind_Done in Hu as (atom & lc & ld & _ & Hu & _).
    apply bind_Done in Hu as (d & le & lf & Hdraw & Hu & _).
    apply mret_Done in Hu as [<- _].
    apply draw_atom_Done in Hdraw as (Hrow & _).
    split; [done|]. intros d' [= <-]. rewrite Hrow.
    split; [done|]. split; [done|]. split; [done|]. lia.
  - apply mret_Done in Hu as [<- _]. by split.
Qed.

Lemma board_holds_every_car_witness :
  board_window 25 80 (set_car_position [1; 30; 0] race_board) = Done None [] ∧
  ∃ out,
    _update_cell (H0 := feed_display_h) palette 31
      (set_car_position [1; 30; 0] race_board) 2 3 = Done out [] ∧
    fst out = false.
Proof.
  split; [reflexivity|].
  eexists. split; [vm_compute; reflexivity|].
  refine (proj1 (proj2 (proj2 (proj2
    (board_holds_every_car (H := feed_display_h)
       40 80 (set_car_position [1; 30; 0] race_board) 31 [] _)))
    palette 2 3 _ [] _ _)).
  - reflexivity.
  - simpl. lia.
  - vm_compute. reflexivity.
Defined.

(** X12. The columns of the board: for either kind of event, the cells of
    two different atoms lie apart, with a free column between them, and
    every cell has a positive width and lies within the 69 columns of the
    board window. *)
Theorem cells_lie_apart `{!DisplayH} (ev t1 t2 : Z) (c1 c2 : Cell) :
  cell_of ev t1 = Some c1 → cell_of ev t2 = Some c2 →
  (0 ≤ cell_x c1 ∧ 0 < cell_sz c1 ∧ cell_x c1 + cell_sz c1 ≤ BOARD_COLS) ∧
  (t1 ≠ t2 →
   cell_x c1 + cell_sz c1 < cell_x c2 ∨ cell_x c2 + cell_sz c2 < cell_x c1).
Proof.
  intros H1 H2. split; [pose proof (cell_inside ev t1 c1 H1); tauto|].
  intros Hne.
  apply cell_of_Some in H1 as [[-> H1]|[-> H1]];
    apply cell_of_Some in H2 as [[He H2]|[He H2]];
    try (by destruct event_labels_distinct).
  - table_cases H1; table_cases H2; simpl; first [lia | done].
  - table_cases H1; table_cases H2; simpl; first [lia | done].
Qed.

Lemma cells_lie_apart_witness :
  cell_of (H0 := feed_display_h) 1 3 = Some (mkCell 6 14 (-1)) ∧
  cell_of (H0 := feed_display_h) 1 4 = Some (mkCell 21 4 1) ∧
  6 + 14 < 21.
Proof.
  split; [reflexivity|]. split; [reflexivity|].
  destruct (cells_lie_apart (H := feed_display_h) 1 3 4
              (mkCell 6 14 (-1)) (mkCell 21 4 1) eq_refl eq_refl)
    as [_ [Hapart|Hapart]]; simpl in *; lia.
Defined.

Section Cells.

Context `{!DisplayH}.

Lemma update_cell_drawn attrs nlines st c ty rebuild d log :
  _update_cell attrs nlines st c ty = Done (rebuild, Some d) log →
  ∃ cell a,
    cell_of (event_type st) ty = Some cell ∧ atom_of st c ty = Some a ∧
    position_of st c = Some (row d) ∧ row d ≠ 0 ∧
    draw_atom attrs a (row d) cell = Done d [].
Proof.
  unfold _update_cell. intros Hu.
  apply bind_Done in Hu as (y & l1 & l2 & Hy & Hu & ->).
  apply fetch_Done in Hy as (Hc & Hy & ->).
  destruct (Z.eqb_spec y 0) as [->|Hy0].
  { by apply mret_Done in Hu as [? _]. }
  destruct (cell_of (event_type st) ty) as [cell|];
    [|by apply mret_Done in Hu as [? _]].
  apply bind_Done in Hu as (cells & l3 & l4 & Hcells & Hu & ->).
  apply fetch_Done in Hcells as (_ & Hcells & ->).
  apply bind_Done in Hu as (atom & l5 & l6 & Hatom & Hu & ->).
  apply fetch_Done in Hatom as (Hty & Hatom & ->).
  apply bind_Done in Hu as (d' & l7 & l8 & Hdraw & Hu & ->).
  apply mret_Done in Hu as [[= _ ->] ->].
  pose proof Hdraw as (Hrow & _)%draw_atom_Done.
  assert (l7 = []) as ->.
  { unfold draw_atom in Hdraw.
    apply bind_Done in Hdraw as (? & la & lb & Ha & Hdraw & ->).
    apply fetch_Done in Ha as (_ & _ & ->).
    apply bind_Done in Hdraw as (? & lc & ld & Ha' & Hdraw & ->).
    apply mret_Done in Hdraw as [_ ->].
    destruct (_ =? 0).
    - by apply fetch_Done in Ha' as (_ & _ & ->).
    - by apply mret_Done in Ha' as [_ ->]. }
  exists cell, atom. rewrite Hrow. split; [done|]. split.
  - apply atom_of_Some. split; [lia|]. split; [done|]. by exists cells.
  - split; [by rewrite position_of_lookup by lia|]. by split.
Qed.

Lemma fetch_outside {A} (a : list A) (i : Z) :
  i < 0 ∨ Z.of_nat (length a) ≤ i → fetch a i = Undefined OutOfBounds.
Proof.
  intros Hi. unfold fetch. destruct (Z.ltb_spec i 0); [done|].
  by rewrite lookup_ge_None_2 by lia.
Qed.

Lemma draw_atom_outside attrs atom y cell :
  atom_data atom < 0 ∨ Z.of_nat (length attrs) ≤ atom_data atom →
  draw_atom attrs atom y cell = Undefined OutOfBounds.
Proof.
  intros Hd. unfold draw_atom.
  rewrite (fetch_outside attrs (atom_data atom)) by done. reflexivity.
Qed.

End Cells.

(** X13. A cell never leaves its columns: whatever text the atom holds,
    [_update_cell] writes exactly as many characters as the cell is wide,
    from the column of the cell on, within the 69 columns of the board.  A
    text that fits is padded with blanks, on the left for the cells aligned
    to the right and on the right for the others; a text that is too long
    is not drawn at all: the cell is blank, in the default colour. *)
Theorem cell_fills_its_columns `{!DisplayH} (attrs : list Z) (nlines : Z)
    (st : CurrentState) (c ty : Z) (rebuild : bool) (d : CellDrawing)
    (log : list Event) :
  _update_cell attrs nlines st c ty = Done (rebuild, Some d) log →
  ∃ cell a,
    cell_of (event_type st) ty = Some cell ∧ atom_of st c ty = Some a ∧
    position_of st c = Some (row d) ∧
    column d = cell_x cell ∧
    Z.of_nat (length (characters d)) = cell_sz cell ∧
    0 ≤ column d ∧ column d + Z.of_nat (length (characters d)) ≤ BOARD_COLS ∧
    (Z.of_nat (length (atom_text a)) ≤ cell_sz cell →
     let pad := Z.to_nat (cell_sz cell - Z.of_nat (length (atom_text a))) in
     characters d =
       if 0 <? cell_align cell then replicate pad 32 ++ atom_text a
       else atom_text a ++ replicate pad 32) ∧
    (cell_sz cell < Z.of_nat (length (atom_text a)) →
     characters d = replicate (Z.to_nat (cell_sz cell)) 32 ∧
     attrs !! Z.to_nat COLOUR_DEFAULT = Some (attribute d)).
Proof.
  intros (cell & a & Hcell & Ha & Hpos & _ & Hdraw)%update_cell_drawn.
  exists cell, a.
  destruct (cell_inside _ _ _ Hcell) as (Hx & Hsz & Hend & Halign).
  apply draw_atom_Done in Hdraw as (_ & Hcol & Hchars & _ & _ & Hattr).
  pose proof (cell_characters_length cell (atom_text a) ltac:(lia) Halign)
    as Hlen.
  rewrite <- Hchars in Hlen.
  split; [done|]. split; [done|]. split; [done|]. split; [done|].
  split; [done|]. split; [lia|]. split; [lia|]. split.
  - intros Hfit pad. subst pad. rewrite Hchars.
    unfold cell_characters, cell_text.
    destruct (Z.ltb_spec (cell_sz cell) (Z.of_nat (length (atom_text a))));
      [lia|].
    destruct Halign as [-> | ->]; simpl; [|done].
    by rewrite app_nil_r.
  - intros Hlong. unfold cell_text in Hattr. rewrite Hchars.
    unfold cell_characters, cell_text.
    destruct (Z.ltb_spec (cell_sz cell) (Z.of_nat (length (atom_text a))));
      [|lia].
    simpl in *. rewrite Z.sub_0_r. split; [|done].
    destruct Halign as [-> | ->]; simpl; [by rewrite app_nil_r | done].
Qed.

Lemma cell_fills_its_columns_witness :
  _update_cell (H0 := feed_display_h) palette 21 race_board 2 3 =
    Done (false, Some (mkCellDrawing 2 6 101
                         (bytes "ALO" ++ replicate 11 32))) [] ∧
  _update_cell (H0 := feed_display_h) palette 21 race_board 2 4 =
    Done (false, Some (mkCellDrawing 2 21 100 (replicate 4 32))) [] ∧
  21 + Z.of_nat (length (replicate 4 32)) ≤ BOARD_COLS.
Proof.
  split; [reflexivity|]. split; [reflexivity|].
  destruct (cell_fills_its_columns (H := feed_display_h) palette 21 race_board
              2 4 false (mkCellDrawing 2 21 100 (replicate 4 32)) [] eq_refl)
    as (cell & a & _ & _ & _ & _ & _ & _ & Hend & _).
  exact Hend.
Defined.

(** X14. The colour of an atom is looked up in [attrs] before anything
    else is decided about the cell: an atom whose data is no index of
    [attrs] makes [_update_cell] read outside the array, whatever its
    text. *)
Theorem colour_outside_palette `{!DisplayH} (attrs : list Z) (nlines : Z)
    (st : CurrentState) (c ty y : Z) (cell : Cell) (a : CarAtom) :
  position_of st c = Some y → y ≠ 0 →
  cell_of (event_type st) ty = Some cell → atom_of st c ty = Some a →
  atom_data a < 0 ∨ Z.of_nat (length attrs) ≤ atom_data a →
  _update_cell attrs nlines st c ty = Undefined OutOfBounds.
Proof.
  intros Hpos Hy Hcell (Hc & Hty & cells & Hcells & Ha)%atom_of_Some Hdata.
  rewrite position_of_lookup in Hpos by done.
  unfold _update_cell.
  rewrite (fetch_ok _ _ y) by (done || lia).
  unfold mbind at 1. unfold Run_bind at 1.
  destruct (Z.eqb_spec y 0); [done|]. rewrite Hcell.
  rewrite (fetch_ok _ _ cells) by (done || lia).
  unfold mbind at 1. unfold Run_bind at 1.
  rewrite (fetch_ok _ _ a) by (done || lia).
  unfold mbind at 1. unfold Run_bind at 1.
  rewrite draw_atom_outside by done. reflexivity.
Qed.

Lemma colour_outside_palette_witness :
  ∃ st' log,
    handle_car_packet (H := feed_packet_h) race_board
      (mkPacket 2 5 11 (-1) []) = Done st' log ∧
    _update_cell (H0 := feed_display_h) palette 21 st' 2 5 =
      Undefined OutOfBounds.
Proof.
  eexists _, _. split; [vm_compute; reflexivity|].
  apply (colour_outside_palette (H := feed_display_h) palette 21 _ 2 5 2
           (mkCell 26 4 1) (mkCarAtom 11 [])).
  - reflexivity.
  - done.
  - reflexivity.
  - reflexivity.
  - right. simpl. lia.
Defined.

(** * Properties of the popup *)

Lemma trimmed_length_le msg n : (trimmed_length msg n ≤ n)%nat.
Proof.
  induction n as [|n IH]; simpl; [done|].
  destruct (msg !! n) as [c|]; [|done].
  destruct (is_space c); lia.
Qed.

Lemma trimmed_length_last msg n :
  (n ≤ length msg)%nat →
  trimmed_length msg n ≠ O →
  ∃ c, msg !! Nat.pred (trimmed_length msg n) = Some c ∧ is_space c = false.
Proof.
  induction n as [|n IH]; simpl; [done|]. intros Hn.
  destruct (msg !! n) as [c|] eqn:Hc.
  - destruct (is_space c) eqn:Hs.
    + intros Hne. apply IH; [lia|done].
    + intros _. simpl. by exists c.
  - apply lookup_ge_None in Hc. lia.
Qed.

Lemma trimmed_length_spaces msg n i c :
  (trimmed_length msg n ≤ i < n)%nat → msg !! i = Some c → is_space c = true.
Proof.
  induction n as [|n IH]; simpl; [lia|].
  destruct (msg !! n) as [c'|] eqn:Hc'.
  - destruct (is_space c') eqn:Hs.
    + intros Hi Hc. destruct (decide (i = n)) as [->|Hne].
      * congruence.
      * apply IH; [lia|done].
    + lia.
  - lia.
Qed.

Lemma popup_draw_app m1 m2 nl col :
  popup_draw (m1 ++ m2) nl col =
  popup_draw m1 nl col ++
  popup_draw m2 (popup_cursor m1 nl col).1 (popup_cursor m1 nl col).2.
Proof.
  revert nl col. induction m1 as [|c m1 IH]; intros nl col; simpl; [done|].
  repeat case_match; simpl; by rewrite IH.
Qed.

Lemma popup_cursor_app m1 m2 nl col :
  popup_cursor (m1 ++ m2) nl col =
  popup_cursor m2 (popup_cursor m1 nl col).1 (popup_cursor m1 nl col).2.
Proof.
  revert nl col. induction m1 as [|c m1 IH]; intros nl col; simpl; [done|].
  repeat case_match; simpl; by rewrite IH.
Qed.

Lemma popup_cursor_bounds m nl col :
  0 ≤ col ≤ 58 →
  nl ≤ (popup_cursor m nl col).1 ∧
  0 ≤ (popup_cursor m nl col).2 ≤ 58 ∧
  ((popup_cursor m nl col).1 = nl → col ≤ (popup_cursor m nl col).2) ∧
  Forall (λ d : Z * Z * Z,
            nl + 1 ≤ d.1.1 ≤ (popup_cursor m nl col).1 + 1 ∧
            1 ≤ d.1.2 ≤ 58 ∧
            (d.1.1 = (popup_cursor m nl col).1 + 1 →
             d.1.2 ≤ (popup_cursor m nl col).2))
         (popup_draw m nl col).
Proof.
  revert nl col. induction m as [|c m IH]; intros nl col Hcol; simpl.
  { repeat split; try lia. apply Forall_nil_2. }
  destruct (c =? 10) eqn:Hc.
  { destruct (IH (nl + 1) 0) as (H1 & H2 & H3 & H4); [lia|].
    repeat split; try lia.
    eapply list.Forall_impl; [exact H4|]. simpl. intros d. lia. }
  destruct (58 <? col + 1) eqn:Hw.
  - destruct (IH (nl + 1) 1) as (H1 & H2 & H3 & H4); [lia|].
    repeat split; try lia.
    apply Forall_cons_2.
    + simpl. lia.
    + eapply list.Forall_impl; [exact H4|]. simpl. intros d. lia.
  - apply Z.ltb_ge in Hw.
    destruct (IH nl (col + 1)) as (H1 & H2 & H3 & H4); [lia|].
    repeat split; try lia.
    apply Forall_cons_2.
    + simpl. lia.
    + eapply list.Forall_impl; [exact H4|]. simpl. intros d. lia.
Qed.

Lemma blanks_insert msg (i : nat) c x :
  msg !! i = Some c →
  (blanks (<[i := x]> msg) + (if is_blank c then 1 else 0) =
   blanks msg + (if is_blank x then 1 else 0))%nat.
Proof.
  intros Hc. pose proof (lookup_lt_Some _ _ _ Hc) as Hlt.
  rewrite insert_take_drop by done.
  rewrite <- (take_drop_middle msg i c Hc) at 3.
  unfold blanks. rewrite !list.filter_app, !filter_cons, !length_app.
  destruct (is_blank c) eqn:Hbc, (is_blank x) eqn:Hbx;
    repeat case_decide; simpl; try congruence; lia.
Qed.

Lemma blanks_le msg : (blanks msg ≤ length msg)%nat.
Proof. apply length_filter. Qed.

Lemma popup_draw_one c nl col :
  c ≠ 10 → col + 1 ≤ 58 →
  popup_draw [c] nl col = [(nl + 1, col + 1, c)] ∧
  popup_cursor [c] nl col = (nl, col + 1).
Proof.
  intros Hc Hcol. simpl.
  destruct (c =? 10) eqn:E; [apply Z.eqb_eq in E; done|].
  destruct (58 <? col + 1) eqn:E'; [apply Z.ltb_lt in E'; lia|done].
Qed.

Lemma popup_draw_wrapped c nl :
  c ≠ 10 →
  popup_draw [c] nl 58 = [(nl + 1 + 1, 1, c)] ∧
  popup_cursor [c] nl 58 = (nl + 1, 1).
Proof.
  intros Hc. simpl.
  destruct (c =? 10) eqn:E; [apply Z.eqb_eq in E; done|done].
Qed.

Lemma take_succ_Z {A} (l : list A) (i : Z) (x : A) :
  0 ≤ i → l !! Z.to_nat i = Some x →
  take (Z.to_nat (i + 1)) l = take (Z.to_nat i) l ++ [x].
Proof.
  intros Hi Hx. rewrite Z2Nat.inj_add by lia.
  replace (Z.to_nat i + Z.to_nat 1)%nat with (S (Z.to_nat i)) by lia.
  by apply take_S_r.
Qed.

Lemma respaced_insert msg0 msg (n : nat) c x :
  Forall2 respaced msg0 msg → msg !! n = Some c → is_blank c = true →
  x = 32 ∨ x = 10 → Forall2 respaced msg0 (<[n := x]> msg).
Proof.
  intros Hmsg Hc Hbc Hx.
  destruct (Forall2_lookup_r _ _ _ _ _ Hmsg Hc) as (a & Ha & Hac).
  rewrite <- (list_insert_id msg0 n a Ha).
  apply Forall2_insert; [done|].
  right. split; [|done].
  destruct Hac as [->|[Hba _]]; done.
Qed.

Lemma wrap_column_inv msg0 w c :
  Forall2 respaced msg0 (wrap_msg w) →
  Forall (λ c, is_blank c = true → c = 32)
    (take (Z.to_nat (wrap_i w)) (wrap_msg w)) →
  0 ≤ wrap_i w < Z.of_nat (length msg0) →
  0 ≤ wrap_col w ≤ 58 → 1 ≤ wrap_nlines w → 0 ≤ wrap_ncols w ≤ 58 →
  Forall (λ d : Z * Z * Z,
            d.1.1 ≤ wrap_nlines w ∧
            (d.1.1 < wrap_nlines w → d.1.2 ≤ wrap_ncols w))
    (popup_draw (take (Z.to_nat (wrap_i w)) (wrap_msg w)) 0 0) →
  wrap_msg w !! Z.to_nat (wrap_i w) = Some c → c ≠ 10 →
  (is_blank c = true → c = 32 ∧ wrap_ls w = wrap_i w) →
  popup_cursor (take (Z.to_nat (wrap_i w)) (wrap_msg w)) 0 0 =
    (wrap_nlines w - 1, wrap_col w) →
  (wrap_ls w ≠ 0 →
     0 < wrap_ls w ≤ wrap_i w ∧
     wrap_msg w !! Z.to_nat (wrap_ls w) = Some 32 ∧
     popup_cursor (take (Z.to_nat (wrap_ls w)) (wrap_msg w)) 0 0 =
       (wrap_nlines w - 1, wrap_col w - (wrap_i w - wrap_ls w))) →
  ∃ w', wrap_column w = Done w' [] ∧ wrap_inv msg0 w' ∧
        (wrap_measure (Z.of_nat (length msg0)) w' <
         wrap_measure (Z.of_nat (length msg0)) w)%nat.
Proof.
  destruct w as [msg i col ls nlines ncols]. simpl.
  intros Hmsg Hsp Hi Hcol Hnl Hnc Hdrawn Hc Hc10 Hblank Hcur Hls.
  assert (length msg0 = length msg) as Hlen by (by eapply Forall2_length).
  unfold wrap_column. simpl.
  destruct (58 <? col + 1) eqn:Hw.
  - apply Z.ltb_lt in Hw. assert (col = 58) as -> by lia.
    destruct (ls =? 0) eqn:Hls0.
    + (* the line is broken in the middle of a word *)
      apply Z.eqb_eq in Hls0. subst ls.
      eexists. split; [reflexivity|].
      replace (i - 1 + 1) with i by lia.
      split.
      * unfold wrap_inv. simpl.
        split; [done|]. split; [done|].
        split; [lia|]. split; [lia|]. split; [lia|].
        split; [lia|]. split.
        { pose proof (popup_cursor_bounds (take (Z.to_nat i) msg) 0 0
                        ltac:(lia)) as (_ & _ & _ & Hb).
          apply Forall_forall. intros d Hd.
          pose proof (proj1 (Forall_forall _ _) Hdrawn d Hd) as [H1 H2].
          pose proof (proj1 (Forall_forall _ _) Hb d Hd) as (H3 & H4 & H5).
          lia. }
        right. split; [done|]. split; [done|]. split.
        { rewrite Hcur. f_equal. lia. }
        exists c. split; [done|]. split; [|done].
        destruct (is_blank c) eqn:Hbc; [|done].
        destruct (Hblank eq_refl) as [_ <-]. simpl in Hcur.
        injection Hcur as _ Hcur. lia.
      * unfold wrap_measure. simpl. lia.
    + (* the line is broken at its last blank *)
      apply Z.eqb_neq in Hls0.
      destruct (Hls Hls0) as (Hls1 & Hls2 & Hls3).
      rewrite store_ok by lia. simpl.
      eexists. split; [reflexivity|].
      pose proof (popup_cursor_bounds (take (Z.to_nat ls) msg) 0 0
                    ltac:(lia)) as (_ & Hb2 & _ & Hb).
      rewrite Hls3 in Hb2, Hb. simpl in Hb2, Hb.
      split.
      * unfold wrap_inv. simpl.
        split.
        { apply (respaced_insert _ _ _ 32); [done|done|done|by right]. }
        assert (take (Z.to_nat (ls + 1)) (<[Z.to_nat ls := 10]> msg) =
                take (Z.to_nat ls) msg ++ [10]) as Htake.
        { rewrite (take_succ_Z _ _ 10); [|lia|].
          - by rewrite take_insert_ge.
          - apply list_lookup_insert_eq. lia. }
        assert (take (Z.to_nat ls) msg =
                take (Z.to_nat ls) (take (Z.to_nat i) msg)) as Hpre.
        { rewrite take_take. f_equal. lia. }
        rewrite Htake, popup_draw_app, popup_cursor_app, Hls3. simpl.
        rewrite app_nil_r.
        split.
        { apply Forall_app. split.
          - rewrite Hpre. by apply Forall_take.
          - apply Forall_cons_2; [done|apply Forall_nil_2]. }
        split; [lia|]. split; [lia|]. split; [lia|]. split; [lia|].
        split.
        { rewrite <- (take_drop (Z.to_nat ls) (take (Z.to_nat i) msg)) in Hdrawn.
          rewrite popup_draw_app, <- Hpre in Hdrawn.
          apply Forall_app in Hdrawn as [Hdrawn _].
          apply Forall_forall. intros d Hd.
          pose proof (proj1 (Forall_forall _ _) Hdrawn d Hd) as [H1 H2].
          pose proof (proj1 (Forall_forall _ _) Hb d Hd) as (H3 & H4 & H5).
          lia. }
        left. split; [f_equal; lia|done].
      * unfold wrap_measure. simpl.
        pose proof (blanks_insert msg (Z.to_nat ls) 32 10 Hls2) as Hbl.
        simpl in Hbl. nia.
  - (* the character stays on the line *)
    apply Z.ltb_ge in Hw.
    eexists. split; [reflexivity|].
    destruct (popup_draw_one c (nlines - 1) col Hc10 Hw) as [Hd1 Hc1].
    split.
    + unfold wrap_inv. simpl.
      rewrite (take_succ_Z _ _ c) by (done || lia).
      split; [done|]. split.
      { apply Forall_app. split; [done|].
        apply Forall_cons_2; [apply Hblank|apply Forall_nil_2]. }
      split; [lia|]. split; [lia|]. split; [lia|]. split; [lia|].
      rewrite popup_draw_app, popup_cursor_app, Hcur. simpl fst. simpl snd.
      rewrite Hd1, Hc1.
      split.
      { apply Forall_app. split; [done|].
        apply Forall_cons_2; [simpl; lia|apply Forall_nil_2]. }
      left. split; [done|].
      intros Hls0. destruct (Hls Hls0) as (Hls1 & Hls2 & Hls3).
      split; [lia|]. split; [done|]. rewrite Hls3. f_equal. lia.
    + unfold wrap_measure. simpl.
      destruct (col + 1 =? 0) eqn:E; [apply Z.eqb_eq in E; lia|].
      destruct (col =? 0); lia.
Qed.

Lemma wrap_step_inv msg0 w :
  wrap_inv msg0 w → wrap_i w < Z.of_nat (length msg0) →
  ∃ w', wrap_step w = Done w' [] ∧ wrap_inv msg0 w' ∧
        (wrap_measure (Z.of_nat (length msg0)) w' <
         wrap_measure (Z.of_nat (length msg0)) w)%nat.
Proof.
  destruct w as [msg i col ls nlines ncols]. unfold wrap_inv. simpl.
  intros (Hmsg & Hsp & Hi & Hcol & Hnl & Hnc & Hdrawn & Hmode) Hlt.
  assert (length msg0 = length msg) as Hlen by (by eapply Forall2_length).
  destruct (lookup_lt_is_Some_2 msg (Z.to_nat i) ltac:(lia)) as [c Hc].
  unfold wrap_step. simpl. rewrite (fetch_ok _ _ c) by (done || lia). simpl.
  destruct Hmode as [[Hcur Hls]|(-> & -> & Hcur & c' & Hc' & Hbc' & Hc10)].
  - destruct (is_blank c) eqn:Hbc.
    + (* a blank: it becomes a space, and the last blank of the line *)
      rewrite store_ok by lia. simpl.
      destruct (wrap_column_inv msg0
                  (mkWrap (<[Z.to_nat i := 32]> msg) i col i nlines ncols) 32)
        as (w' & Hrun & Hinv & Hm); simpl.
      * apply (respaced_insert _ _ _ c); [done|done|done|by left].
      * by rewrite take_insert_ge.
      * lia.
      * done.
      * done.
      * done.
      * by rewrite take_insert_ge.
      * apply list_lookup_insert_eq. lia.
      * done.
      * done.
      * by rewrite take_insert_ge.
      * intros Hi0. split; [lia|]. split; [apply list_lookup_insert_eq; lia|].
        rewrite take_insert_ge by done. rewrite Hcur. f_equal. lia.
      * exists w'. rewrite Hrun. simpl. split; [done|]. split; [done|].
        revert Hm. unfold wrap_measure. simpl.
        pose proof (blanks_insert msg (Z.to_nat i) c 32 Hc) as Hbl.
        rewrite Hbc in Hbl. simpl in Hbl. lia.
    + destruct (c =? 10) eqn:Hc10.
      * (* a newline *)
        apply Z.eqb_eq in Hc10. subst c.
        eexists. split; [reflexivity|]. split.
        -- unfold wrap_inv. simpl.
           rewrite (take_succ_Z _ _ 10) by (done || lia).
           split; [done|]. split.
           { apply Forall_app. split; [done|].
             apply Forall_cons_2; [done|apply Forall_nil_2]. }
           split; [lia|]. split; [lia|]. split; [lia|]. split; [lia|].
           rewrite popup_draw_app, popup_cursor_app, Hcur. simpl.
           rewrite app_nil_r. split.
           { pose proof (popup_cursor_bounds (take (Z.to_nat i) msg) 0 0
                           ltac:(lia)) as (_ & _ & _ & Hb).
             rewrite Hcur in Hb. simpl in Hb.
             apply Forall_forall. intros d Hd.
             pose proof (proj1 (Forall_forall _ _) Hdrawn d Hd) as [H1 H2].
             pose proof (proj1 (Forall_forall _ _) Hb d Hd) as (H3 & H4 & H5).
             lia. }
           left. split; [f_equal; lia|done].
        -- unfold wrap_measure. simpl. destruct (col =? 0); lia.
      * (* any other character *)
        apply Z.eqb_neq in Hc10.
        destruct (wrap_column_inv msg0 (mkWrap msg i col ls nlines ncols) c)
          as (w' & Hrun & Hinv & Hm); simpl; try done; try lia.
        -- intros Hb. congruence.
        -- intros Hls0. destruct (Hls Hls0) as (Hls1 & Hls2 & Hls3).
           split; [lia|done].
        -- exists w'. rewrite Hrun. done.
  - (* the character that did not fit on the line before *)
    assert (c = c') as <- by congruence.
    rewrite Hbc'. destruct (c =? 10) eqn:E; [apply Z.eqb_eq in E; done|].
    unfold wrap_column. simpl.
    eexists. split; [reflexivity|].
    destruct (popup_draw_wrapped c (nlines - 2) Hc10) as [Hd1 Hc1].
    split.
    + unfold wrap_inv. simpl.
      rewrite (take_succ_Z _ _ c) by (done || lia).
      split; [done|]. split.
      { apply Forall_app. split; [done|].
        apply Forall_cons_2; [congruence|apply Forall_nil_2]. }
      split; [lia|]. split; [lia|]. split; [lia|]. split; [lia|].
      rewrite popup_draw_app, popup_cursor_app, Hcur. simpl fst. simpl snd.
      rewrite Hd1, Hc1. split.
      { apply Forall_app. split; [done|].
        apply Forall_cons_2; [simpl; lia|apply Forall_nil_2]. }
      left. split; [f_equal; lia|done].
    + unfold wrap_measure. simpl. lia.
Qed.

(** The loop of lines 623-650 comes to its end within [fuel] turns, when
    [fuel] is above the measure. *)
Lemma wrap_loop_ends msg0 fuel w :
  wrap_inv msg0 w →
  (wrap_measure (Z.of_nat (length msg0)) w < fuel)%nat →
  ∃ w', wrap_loop fuel (Z.of_nat (length msg0)) w = Done (Some w') [] ∧
        wrap_inv msg0 w' ∧ wrap_i w' = Z.of_nat (length msg0).
Proof.
  revert w. induction fuel as [|fuel IH]; intros w Hinv Hm; [lia|].
  simpl. destruct (wrap_i w <? Z.of_nat (length msg0)) eqn:Hlt.
  - apply Z.ltb_lt in Hlt.
    destruct (wrap_step_inv msg0 w Hinv Hlt) as (w1 & Hrun & Hinv1 & Hm1).
    destruct (IH w1 Hinv1 ltac:(lia)) as (w' & Hloop & Hinv' & Hi').
    exists w'. rewrite Hrun. simpl. rewrite Hloop. done.
  - apply Z.ltb_ge in Hlt. exists w. split; [done|]. split; [done|].
    destruct Hinv as (_ & _ & Hi & _). lia.
Qed.

Lemma wrap_inv_start msg0 :
  wrap_inv msg0 (mkWrap msg0 0 0 0 1 0) ∧
  (wrap_measure (Z.of_nat (length msg0)) (mkWrap msg0 0 0 0 1 0) <
   wrap_fuel msg0)%nat.
Proof.
  split.
  - unfold wrap_inv. simpl.
    split; [apply Forall2_same_length_lookup_2; [done|]|].
    { intros n a b Ha Hb. left. congruence. }
    split; [apply Forall_nil_2|]. split; [lia|]. split; [lia|]. split; [lia|]. split; [lia|].
    split; [apply Forall_nil_2|]. left. done.
  - unfold wrap_measure, wrap_fuel. simpl. lia.
Qed.

Lemma trimmed_length_blank msg :
  trimmed_length msg (length msg) = O ↔ Forall (λ c, is_space c = true) msg.
Proof.
  split.
  - intros H0. apply Forall_lookup. intros i c Hc.
    apply (trimmed_length_spaces msg (length msg) i c); [|done].
    apply lookup_lt_Some in Hc. lia.
  - intros Hall.
    destruct (decide (trimmed_length msg (length msg) = O)) as [|Hne]; [done|].
    destruct (trimmed_length_last msg (length msg) ltac:(lia) Hne)
      as (c & Hc & Hs).
    pose proof (proj1 (Forall_lookup _ _) Hall _ _ Hc). simpl in *. congruence.
Qed.

Lemma popup_draw_text m nl col :
  (popup_draw m nl col).*2 = filter (λ c, c ≠ 10) m.
Proof.
  revert nl col. induction m as [|c m IH]; intros nl col; simpl; [done|].
  rewrite filter_cons.
  destruct (c =? 10) eqn:E.
  - apply Z.eqb_eq in E. rewrite decide_False by (intros ?; done). apply IH.
  - apply Z.eqb_neq in E. rewrite decide_True by done.
    destruct (58 <? col + 1); simpl; by rewrite IH.
Qed.

Lemma respaced_words m0 m :
  Forall2 respaced m0 m →
  filter (λ c, is_space c = false) m0 = filter (λ c, is_space c = false) m.
Proof.
  induction 1 as [|a b m0 m Hab _ IH]; [done|].
  rewrite !filter_cons, IH.
  destruct Hab as [->|[Ha Hb]]; [done|].
  assert (is_space a = true) as Hsa by (unfold is_space; by rewrite Ha).
  assert (is_space b = true) as Hsb by (by destruct Hb as [->| ->]).
  rewrite !decide_False by congruence. done.
Qed.

Lemma filter_spaces l :
  Forall (λ c, is_space c = true) l → filter (λ c, is_space c = false) l = [].
Proof.
  induction 1 as [|c l Hc _ IH]; [done|].
  rewrite filter_cons, decide_False by congruence. done.
Qed.

Lemma trimmed_words msg :
  filter (λ c, is_space c = false) (take (trimmed_length msg (length msg)) msg)
  = filter (λ c, is_space c = false) msg.
Proof.
  set (n := trimmed_length msg (length msg)).
  assert (filter (λ c, is_space c = false) msg =
          filter (λ c, is_space c = false) (take n msg ++ drop n msg)) as ->
    by (by rewrite take_drop).
  rewrite list.filter_app.
  assert (filter (λ c, is_space c = false) (drop n msg) = []) as ->.
  { apply filter_spaces, Forall_lookup. intros i c Hc.
    rewrite lookup_drop in Hc.
    apply (trimmed_length_spaces msg (length msg) (n + i) c); [|done].
    apply lookup_lt_Some in Hc. subst n. lia. }
  by rewrite app_nil_r.
Qed.

Lemma popup_cursor_last m c nl col :
  c ≠ 10 → 0 ≤ col ≤ 58 →
  1 ≤ (popup_cursor (m ++ [c]) nl col).2 ∧
  ((popup_cursor (m ++ [c]) nl col).1 + 1,
   (popup_cursor (m ++ [c]) nl col).2, c) ∈ popup_draw (m ++ [c]) nl col.
Proof.
  intros Hc Hcol.
  pose proof (popup_cursor_bounds m nl col Hcol) as (_ & Hb & _).
  rewrite popup_cursor_app, popup_draw_app.
  destruct (popup_cursor m nl col) as [nl' col']. simpl in *.
  destruct (c =? 10) eqn:E; [apply Z.eqb_eq in E; done|].
  destruct (58 <? col' + 1); simpl.
  - split; [lia|]. apply elem_of_app. right. apply list_elem_of_singleton. done.
  - split; [lia|]. apply elem_of_app. right. apply list_elem_of_singleton. done.
Qed.

(** What the loop of lines 623-650 has found when it ends *)
Lemma wrap_inv_end msg0 w :
  wrap_inv msg0 w → wrap_i w = Z.of_nat (length msg0) →
  Forall2 respaced msg0 (wrap_msg w) ∧
  Forall (λ c, is_blank c = true → c = 32) (wrap_msg w) ∧
  1 ≤ wrap_nlines w ∧ 0 ≤ Z.max (wrap_ncols w) (wrap_col w) ≤ 58 ∧
  popup_cursor (wrap_msg w) 0 0 = (wrap_nlines w - 1, wrap_col w) ∧
  Forall (λ d : Z * Z * Z,
            1 ≤ d.1.1 ≤ wrap_nlines w ∧
            1 ≤ d.1.2 ≤ Z.max (wrap_ncols w) (wrap_col w))
         (popup_draw (wrap_msg w) 0 0).
Proof.
  destruct w as [msg i col ls nlines ncols]. unfold wrap_inv. simpl.
  intros (Hmsg & Hsp & Hi & Hcol & Hnl & Hnc & Hdrawn & Hmode) ->.
  assert (length msg0 = length msg) as Hlen by (by eapply Forall2_length).
  rewrite Nat2Z.id, Hlen, firstn_all in *.
  destruct Hmode as [[Hcur _]|(_ & _ & _ & c & Hc & _)].
  - split; [done|]. split; [done|]. split; [done|]. split; [lia|].
    split; [done|].
    pose proof (popup_cursor_bounds msg 0 0 ltac:(lia)) as (_ & _ & _ & Hb).
    rewrite Hcur in Hb. simpl in Hb.
    apply Forall_forall. intros d Hd.
    pose proof (proj1 (Forall_forall _ _) Hdrawn d Hd) as [H1 H2].
    pose proof (proj1 (Forall_forall _ _) Hb d Hd) as (H3 & H4 & H5).
    lia.
  - apply lookup_lt_Some in Hc. lia.
Qed.

(** [popup_message] on a message that is not blank: the loop of lines
    623-650 ends, and the window is made from what it has found. *)
Lemma popup_message_run lines cols message :
  trimmed_length message (length message) ≠ O →
  ∃ w, wrap_loop
         (wrap_fuel (take (trimmed_length message (length message)) message))
         (Z.of_nat
            (length (take (trimmed_length message (length message)) message)))
         (mkWrap (take (trimmed_length message (length message)) message)
            0 0 0 1 0) = Done (Some w) [] ∧
       wrap_inv (take (trimmed_length message (length message)) message) w ∧
       wrap_i w =
         Z.of_nat
           (length (take (trimmed_length message (length message)) message)) ∧
       popup_message lines cols message =
       Done (PopupShown
               (mkPopup (wrap_nlines w + 2)
                  (Z.max (wrap_ncols w) (wrap_col w) + 2)
                  (Z.quot (lines - (wrap_nlines w + 2)) 2)
                  (Z.quot (cols - (Z.max (wrap_ncols w) (wrap_col w) + 2)) 2)
                  (popup_draw (wrap_msg w) 0 0))) [].
Proof.
  intros Hne. unfold popup_message.
  set (n := trimmed_length message (length message)) in *.
  assert (length (take n message) = n) as Hlen.
  { rewrite length_take. pose proof (trimmed_length_le message (length message)).
    subst n. lia. }
  destruct (Z.of_nat n =? 0) eqn:E; [apply Z.eqb_eq in E; lia|].
  destruct (wrap_inv_start (take n message)) as [Hinv Hm].
  destruct (wrap_loop_ends _ _ _ Hinv Hm) as (w & Hrun & Hinv' & Hi).
  exists w. split; [done|]. split; [done|]. split; [done|].
  rewrite Hlen in Hrun. rewrite Hrun. done.
Qed.

Lemma popup_message_shown lines cols message p :
  popup_message lines cols message = Done (PopupShown p) [] →
  trimmed_length message (length message) ≠ O.
Proof.
  intros Hrun Hn. unfold popup_message in Hrun. rewrite Hn in Hrun.
  simpl in Hrun. discriminate.
Qed.

(** The message that has been wrapped ends with the character that the
    trimmed message ends with, and this is no white space. *)
Lemma wrapped_last message msg :
  trimmed_length message (length message) ≠ O →
  Forall2 respaced (take (trimmed_length message (length message)) message)
          msg →
  ∃ c, is_space c = false ∧
       msg = take (Nat.pred (trimmed_length message (length message))) msg
             ++ [c].
Proof.
  intros Hne Hmsg.
  set (n := trimmed_length message (length message)) in *.
  destruct (trimmed_length_last message (length message) ltac:(lia) Hne)
    as (c & Hc & Hs). fold n in Hc.
  assert (take n message !! Nat.pred n = Some c) as Hc'.
  { rewrite lookup_take_lt by lia. done. }
  destruct (Forall2_lookup_l _ _ _ _ _ Hmsg Hc') as (b & Hb & Hcb).
  assert (b = c) as ->.
  { destruct Hcb as [->|[Hbl _]]; [done|].
    unfold is_space in Hs. rewrite Hbl in Hs. done. }
  exists c. split; [done|].
  assert (length msg = n) as Hlen.
  { erewrite <- Forall2_length by done. rewrite length_take.
    pose proof (trimmed_length_le message (length message)). subst n. lia. }
  rewrite <- (take_S_r _ _ _ Hb).
  replace (S (Nat.pred n)) with n by lia.
  rewrite take_ge by lia. done.
Qed.

(** X15.  [popup_message] always comes back: the loop that breaks the
    lines ends, although it moves backwards at every line that it breaks,
    and nothing is read or written outside the message.  No window is made
    when the message is white space only, and one is made otherwise. *)
Theorem popup_shown_or_blank (lines cols : Z) (message : list Z) :
  (Forall (λ c, is_space c = true) message ∧
   popup_message lines cols message = Done NoPopup []) ∨
  (Exists (λ c, is_space c = false) message ∧
   ∃ p, popup_message lines cols message = Done (PopupShown p) []).
Proof.
  destruct (decide (trimmed_length message (length message) = O)) as [H0|Hne].
  - left. split; [by apply trimmed_length_blank|].
    unfold popup_message. by rewrite H0.
  - right. split.
    + destruct (trimmed_length_last message (length message) ltac:(lia) Hne)
        as (c & Hc & Hs).
      apply list.Exists_exists. exists c. split; [|done].
      by eapply list_elem_of_lookup_2.
    + destruct (popup_message_run lines cols message Hne)
        as (w & _ & _ & _ & Hrun).
      eexists. exact Hrun.
Qed.

(** X16.  The window of the popup has three lines and three columns at
    least and sixty columns at most, every character of the message is put
    inside its border, and its last line is not empty. *)
Theorem popup_inside_box (lines cols : Z) (message : list Z) (p : Popup) :
  popup_message lines cols message = Done (PopupShown p) [] →
  3 ≤ popup_nlines p ∧ 3 ≤ popup_ncols p ≤ 60 ∧
  Forall (λ d : Z * Z * Z,
            0 < d.1.1 < popup_nlines p - 1 ∧ 0 < d.1.2 < popup_ncols p - 1)
         (popup_chars p) ∧
  Exists (λ d : Z * Z * Z, d.1.1 = popup_nlines p - 2) (popup_chars p).
Proof.
  intros Hrun. pose proof (popup_message_shown _ _ _ _ Hrun) as Hne.
  destruct (popup_message_run lines cols message Hne)
    as (w & _ & Hinv & Hi' & Hrun').
  rewrite Hrun' in Hrun. injection Hrun as <-. simpl.
  destruct (wrap_inv_end _ _ Hinv Hi') as (Hmsg & _ & Hnl & Hnc & Hcur & Hdrawn).
  destruct (wrapped_last message (wrap_msg w) Hne Hmsg) as (c & Hs & Hlast).
  assert (c ≠ 10) as Hc10 by (intros ->; done).
  pose proof (popup_cursor_last
                (take (Nat.pred (trimmed_length message (length message)))
                   (wrap_msg w)) c 0 0 Hc10 ltac:(lia)) as [Hcol Hin].
  rewrite <- Hlast, Hcur in Hcol, Hin. simpl in Hcol, Hin.
  split; [lia|]. split; [lia|]. split.
  - eapply list.Forall_impl; [exact Hdrawn|]. simpl. intros d. lia.
  - apply list.Exists_exists. eexists. split; [exact Hin|]. simpl. lia.
Qed.

Lemma popup_inside_box_witness :
  ∃ p, popup_message 25 80 (bytes "Safety car deployed  ") =
         Done (PopupShown p) [] ∧
       3 ≤ popup_nlines p ∧ 3 ≤ popup_ncols p ≤ 60 ∧
       Forall (λ d : Z * Z * Z,
                 0 < d.1.1 < popup_nlines p - 1 ∧
                 0 < d.1.2 < popup_ncols p - 1)
              (popup_chars p) ∧
       Exists (λ d : Z * Z * Z, d.1.1 = popup_nlines p - 2) (popup_chars p).
Proof.
  eexists. split; [vm_compute; reflexivity|].
  apply (popup_inside_box 25 80 (bytes "Safety car deployed  ")).
  vm_compute. reflexivity.
Defined.

(** X17.  The popup shows the message word for word: the characters that
    are put into the window are, in their order, those of the message that
    are no white space, with spaces between them.  A tab or a carriage
    return is shown as a space, and a newline is not shown. *)
Theorem popup_keeps_words (lines cols : Z) (message : list Z) (p : Popup) :
  popup_message lines cols message = Done (PopupShown p) [] →
  filter (λ c, is_space c = false) (popup_chars p).*2 =
    filter (λ c, is_space c = false) message ∧
  Forall (λ c, is_space c = true → c = 32) (popup_chars p).*2.
Proof.
  intros Hrun. pose proof (popup_message_shown _ _ _ _ Hrun) as Hne.
  destruct (popup_message_run lines cols message Hne)
    as (w & _ & Hinv & Hi' & Hrun').
  rewrite Hrun' in Hrun. injection Hrun as <-. simpl.
  destruct (wrap_inv_end _ _ Hinv Hi') as (Hmsg & Hsp & _).
  rewrite popup_draw_text. split.
  - rewrite <- (trimmed_words message), (respaced_words _ _ Hmsg).
    rewrite list_filter_filter. apply list_filter_iff.
    intros c. split; [by intros [? _]|].
    intros Hs. split; [done|]. intros ->. done.
  - apply list.Forall_forall. intros c Hc.
    apply list_elem_of_filter in Hc as [Hc10 Hc].
    pose proof (proj1 (list.Forall_forall _ _) Hsp c Hc) as Hb.
    unfold is_space. intros Hs. apply Hb.
    apply orb_true_iff in Hs as [Hs|Hs]; [done|].
    apply Z.eqb_eq in Hs. done.
Qed.

Lemma popup_keeps_words_witness :
  ∃ p, popup_message 25 80 [80; 73; 84; 9; 73; 78; 10; 10] =
         Done (PopupShown p) [] ∧
       filter (λ c, is_space c = false) (popup_chars p).*2 =
         filter (λ c, is_space c = false) [80; 73; 84; 9; 73; 78; 10; 10] ∧
       Forall (λ c, is_space c = true → c = 32) (popup_chars p).*2.
Proof.
  eexists. split; [vm_compute; reflexivity|].
  apply (popup_keeps_words 25 80 [80; 73; 84; 9; 73; 78; 10; 10]).
  vm_compute. reflexivity.
Defined.

(** X18.  The popup is put in the middle of the screen.  It lies within
    the columns of a screen of sixty columns or more, whatever the message,
    and within the lines of a screen that has as many lines as the window;
    the margin below or to the right is the larger one, by one at most. *)
Theorem popup_in_the_middle (lines cols : Z) (message : list Z) (p : Popup) :
  popup_message lines cols message = Done (PopupShown p) [] →
  (60 ≤ cols →
     0 ≤ popup_begin_x p ∧ popup_begin_x p + popup_ncols p ≤ cols ∧
     0 ≤ cols - (popup_begin_x p + popup_ncols p) - popup_begin_x p ≤ 1) ∧
  (popup_nlines p ≤ lines →
     0 ≤ popup_begin_y p ∧ popup_begin_y p + popup_nlines p ≤ lines ∧
     0 ≤ lines - (popup_begin_y p + popup_nlines p) - popup_begin_y p ≤ 1).
Proof.
  intros Hrun. pose proof (popup_message_shown _ _ _ _ Hrun) as Hne.
  destruct (popup_message_run lines cols message Hne)
    as (w & _ & Hinv & Hi' & Hrun').
  rewrite Hrun' in Hrun. injection Hrun as <-. simpl.
  destruct (wrap_inv_end _ _ Hinv Hi') as (_ & _ & Hnl & Hnc & _).
  assert (∀ a, 0 ≤ a → 0 ≤ Z.quot a 2 ∧ 0 ≤ a - 2 * Z.quot a 2 ≤ 1) as Hhalf.
  { intros a Ha. rewrite Z.quot_div_nonneg by lia.
    pose proof (Z.mod_pos_bound a 2 ltac:(lia)).
    pose proof (Z.div_mod a 2 ltac:(lia)).
    pose proof (Z.div_pos a 2 Ha ltac:(lia)). lia. }
  split.
  - intros Hcols.
    pose proof (Hhalf (cols - (Z.max (wrap_ncols w) (wrap_col w) + 2))
                  ltac:(lia)). lia.
  - intros Hlines.
    pose proof (Hhalf (lines - (wrap_nlines w + 2)) ltac:(lia)). lia.
Qed.

Lemma popup_in_the_middle_witness :
  ∃ p, popup_message 25 80 (bytes "Safety car deployed  ") =
         Done (PopupShown p) [] ∧
       (60 ≤ 80 →
          0 ≤ popup_begin_x p ∧ popup_begin_x p + popup_ncols p ≤ 80 ∧
          0 ≤ 80 - (popup_begin_x p + popup_ncols p) - popup_begin_x p ≤ 1) ∧
       (popup_nlines p ≤ 25 →
          0 ≤ popup_begin_y p ∧ popup_begin_y p + popup_nlines p ≤ 25 ∧
          0 ≤ 25 - (popup_begin_y p + popup_nlines p) - popup_begin_y p ≤ 1).
Proof.
  eexists. split; [vm_compute; reflexivity|].
  apply (popup_in_the_middle 25 80 (bytes "Safety car deployed  ")).
  vm_compute. reflexivity.
Defined.

Lemma drop_lookup_head {A} (l : list A) (n : nat) (x : A) :
  l !! n = Some x → drop n l = x :: drop (S n) l.
Proof. intros Hx. by rewrite (drop_S _ _ _ Hx). Qed.

Lemma fits_inv_step msg0 w :
  fits_inv msg0 w → wrap_i w < Z.of_nat (length msg0) →
  ∃ w', wrap_step w = Done w' [] ∧ fits_inv msg0 w'.
Proof.
  destruct w as [msg i col ls nlines ncols]. unfold fits_inv. simpl.
  intros (Hi & -> & Hcol & Hfit & ->) Hlt.
  destruct (lookup_lt_is_Some_2 msg0 (Z.to_nat i) ltac:(lia)) as [c Hc].
  assert (length (spaced <$> take (Z.to_nat i) msg0) = Z.to_nat i) as Hpre.
  { rewrite length_fmap, length_take. lia. }
  rewrite (drop_lookup_head _ _ _ Hc) in Hfit |- *.
  assert (Z.to_nat (i + 1) = S (Z.to_nat i)) as Hsucc by lia.
  unfold wrap_step. simpl.
  rewrite (fetch_ok _ _ c); [|lia|].
  2: { rewrite lookup_app_r by lia. by rewrite Hpre, Nat.sub_diag. }
  simpl. simpl in Hfit.
  destruct (is_blank c) eqn:Hbc.
  - assert (c ≠ 10) as Hc10 by (intros ->; done).
    destruct (c =? 10) eqn:E; [apply Z.eqb_eq in E; done|].
    apply andb_true_iff in Hfit as [Hw Hfit]. apply Z.leb_le in Hw.
    rewrite store_ok.
    2: { rewrite length_app, Hpre. simpl. lia. }
    simpl. unfold wrap_column. simpl.
    destruct (58 <? col + 1) eqn:E'; [apply Z.ltb_lt in E'; lia|].
    eexists. split; [reflexivity|]. simpl.
    rewrite Hsucc, (take_S_r _ _ _ Hc), fmap_app. simpl.
    split; [lia|]. split.
    { rewrite insert_app_r_alt by lia. rewrite Hpre, Nat.sub_diag. simpl.
      rewrite <- app_assoc. simpl. unfold spaced. by rewrite Hbc. }
    split; [lia|]. split; [done|].
    unfold newlines. rewrite list.filter_app, filter_cons, decide_False by done.
    by rewrite app_nil_r.
  - destruct (c =? 10) eqn:E.
    + apply Z.eqb_eq in E. subst c.
      eexists. split; [reflexivity|]. simpl.
      rewrite Hsucc, (take_S_r _ _ _ Hc), fmap_app. simpl.
      split; [lia|]. split; [by rewrite <- app_assoc|].
      split; [lia|]. split; [done|].
      unfold newlines. rewrite list.filter_app, filter_cons, decide_True by done.
      rewrite length_app. simpl. lia.
    + apply Z.eqb_neq in E.
      apply andb_true_iff in Hfit as [Hw Hfit]. apply Z.leb_le in Hw.
      unfold wrap_column. simpl.
      destruct (58 <? col + 1) eqn:E'; [apply Z.ltb_lt in E'; lia|].
      eexists. split; [reflexivity|]. simpl.
      rewrite Hsucc, (take_S_r _ _ _ Hc), fmap_app. simpl.
      split; [lia|]. split.
      { rewrite <- app_assoc. simpl. unfold spaced. by rewrite Hbc. }
      split; [lia|]. split; [done|].
      unfold newlines. rewrite list.filter_app, filter_cons, decide_False by done.
      by rewrite app_nil_r.
Qed.

Lemma wrap_loop_fits msg0 fuel w w' :
  fits_inv msg0 w →
  wrap_loop fuel (Z.of_nat (length msg0)) w = Done (Some w') [] →
  wrap_msg w' = spaced <$> msg0 ∧ wrap_nlines w' = 1 + newlines msg0.
Proof.
  revert w. induction fuel as [|fuel IH]; intros w Hinv; simpl.
  - destruct (wrap_i w <? Z.of_nat (length msg0)) eqn:Hlt; [done|].
    apply Z.ltb_ge in Hlt. intros [= <-].
    destruct Hinv as (Hi & Hmsg & _ & _ & Hnl).
    rewrite Hmsg, Hnl.
    rewrite take_ge, drop_ge, app_nil_r by lia. done.
  - destruct (wrap_i w <? Z.of_nat (length msg0)) eqn:Hlt.
    + apply Z.ltb_lt in Hlt.
      destruct (fits_inv_step msg0 w Hinv Hlt) as (w1 & Hrun & Hinv1).
      rewrite Hrun. simpl.
      destruct (wrap_loop fuel (Z.of_nat (length msg0)) w1) as [[w2|] l|] eqn:Hloop;
        try done.
      intros [= <- ->]. by apply (IH w1).
    + apply Z.ltb_ge in Hlt. intros [= <-].
      destruct Hinv as (Hi & Hmsg & _ & _ & Hnl).
      rewrite Hmsg, Hnl.
      rewrite take_ge, drop_ge, app_nil_r by lia. done.
Qed.

Lemma fits_inv_start msg0 :
  lines_fit msg0 0 = true → fits_inv msg0 (mkWrap msg0 0 0 0 1 0).
Proof.
  intros Hfit. unfold fits_inv. simpl. rewrite drop_0.
  split; [lia|]. split; [done|]. split; [lia|]. split; [done|]. done.
Qed.

Lemma message_lines_cons msg : ∃ l ls, message_lines msg = l :: ls.
Proof.
  induction msg as [|c msg (l & ls & IH)]; simpl; [by eexists _, _|].
  destruct (c =? 10); [by eexists _, _|]. rewrite IH. by eexists _, _.
Qed.

Lemma message_lines_length msg :
  Z.of_nat (length (message_lines msg)) = 1 + newlines msg.
Proof.
  unfold newlines. induction msg as [|c msg IH]; simpl; [done|].
  rewrite filter_cons. destruct (Z.eqb_spec c 10) as [->|Hc].
  - rewrite decide_True by done. simpl. lia.
  - rewrite decide_False by done.
    destruct (message_lines_cons msg) as (l & ls & Hl).
    rewrite Hl in IH |- *. simpl in *. lia.
Qed.

Lemma message_lines_spaced (msg : list Z) :
  message_lines (spaced <$> msg) = fmap (M := list) spaced <$> message_lines msg.
Proof.
  induction msg as [|c msg IH]; [done|].
  rewrite fmap_cons. cbn [message_lines]. rewrite IH.
  destruct (Z.eqb_spec c 10) as [->|Hc]; [done|].
  assert ((spaced c =? 10) = false) as ->.
  { apply Z.eqb_neq. unfold spaced. destruct (is_blank c); [lia|done]. }
  by destruct (message_lines msg).
Qed.

Lemma message_lines_fit msg col l ls :
  message_lines msg = l :: ls →
  col + Z.of_nat (length l) ≤ 58 →
  Forall (λ l, (length l ≤ 58)%nat) ls →
  lines_fit msg col = true.
Proof.
  revert col l ls. induction msg as [|c msg IH]; intros col l ls; simpl;
    [done|].
  destruct (message_lines_cons msg) as (l' & ls' & Hl). rewrite Hl.
  destruct (c =? 10).
  - intros [= <- <-] _ Hfit. apply Forall_cons_1 in Hfit as [Hl' Hls'].
    apply (IH 0 l' ls'); [done|lia|done].
  - intros [= <- <-] Hc Hfit. simpl in Hc.
    apply andb_true_iff. split; [apply Z.leb_le; lia|].
    apply (IH (col + 1) l' ls'); [done|lia|done].
Qed.

(** The drawing loop on a message whose lines fit, from any line and
    column on. *)
Lemma popup_draw_as_written msg nl col l ls :
  lines_fit msg col = true → message_lines msg = l :: ls →
  popup_draw msg nl col =
    imap (λ k c, (nl + 1, col + Z.of_nat k + 1, c)) l ++
    concat (imap (λ j l, imap (λ k c, (nl + 1 + Z.of_nat j + 1,
                                        Z.of_nat k + 1, c)) l) ls).
Proof.
  revert nl col l ls. induction msg as [|c msg IH]; intros nl col l ls; simpl.
  { by intros _ [= <- <-]. }
  destruct (message_lines_cons msg) as (l' & ls' & Hl). rewrite Hl.
  destruct (c =? 10).
  - intros Hfit [= <- <-]. rewrite (IH (nl + 1) 0 l' ls' Hfit Hl). simpl.
    f_equal.
    + apply imap_ext. intros k x _. f_equal. f_equal; lia.
    + f_equal. apply imap_ext. intros j x _. simpl.
      apply imap_ext. intros k y _. f_equal. f_equal. lia.
  - intros [Hc Hfit]%andb_true_iff [= <- <-]. apply Z.leb_le in Hc.
    destruct (58 <? col + 1) eqn:E; [apply Z.ltb_lt in E; lia|].
    rewrite (IH nl (col + 1) l' ls' Hfit Hl). simpl.
    f_equal; [f_equal; f_equal; lia|]. f_equal.
    apply imap_ext. intros k x _. simpl. f_equal. f_equal. lia.
Qed.

(** X19.  A message whose lines have 58 characters at most is shown as it
    is written: no line is broken, the window has a line for every line of
    the message, and character [k] of line [j] of the message is put on
    line [j + 1] in column [k + 1] of the window, a blank as a space. *)
Theorem popup_lines_that_fit (lines cols : Z) (message : list Z) (p : Popup) :
  Forall (λ l, (length l ≤ 58)%nat)
    (message_lines (take (trimmed_length message (length message)) message)) →
  popup_message lines cols message = Done (PopupShown p) [] →
  popup_nlines p =
    Z.of_nat
      (length (message_lines
                 (take (trimmed_length message (length message)) message)))
    + 2 ∧
  popup_chars p =
    as_written
      (fmap (M := list) spaced <$>
       message_lines (take (trimmed_length message (length message)) message)).
Proof.
  intros Hfit Hrun. pose proof (popup_message_shown _ _ _ _ Hrun) as Hne.
  set (msg0 := take (trimmed_length message (length message)) message) in *.
  destruct (message_lines_cons msg0) as (l & ls & Hl).
  rewrite Hl in Hfit. apply Forall_cons_1 in Hfit as [Hfit1 Hfit2].
  assert (lines_fit msg0 0 = true) as Hfit0
    by (apply (message_lines_fit msg0 0 l ls); [done|lia|done]).
  assert (lines_fit (spaced <$> msg0) 0 = true) as Hfits.
  { apply (message_lines_fit _ 0 (spaced <$> l)
             (fmap (M := list) spaced <$> ls)).
    - by rewrite message_lines_spaced, Hl.
    - rewrite length_fmap. lia.
    - apply Forall_fmap. eapply list.Forall_impl; [exact Hfit2|].
      intros l' Hl'. simpl. by rewrite length_fmap. }
  destruct (popup_message_run lines cols message Hne)
    as (w & Hloop & _ & _ & Hrun').
  rewrite Hrun' in Hrun. injection Hrun as <-. simpl.
  destruct (wrap_loop_fits _ _ _ _ (fits_inv_start _ Hfit0) Hloop) as [Hm Hn].
  rewrite Hm, Hn. split.
  - pose proof (message_lines_length msg0). lia.
  - rewrite (popup_draw_as_written _ 0 0 (spaced <$> l)
               (fmap (M := list) spaced <$> ls) Hfits)
      by (by rewrite message_lines_spaced, Hl).
    rewrite Hl, fmap_cons.
    generalize (spaced <$> l) (fmap (M := list) spaced <$> ls).
    intros l1 ls1. unfold as_written. cbn [imap concat].
    assert (∀ (F G : nat → list Z → list (Z * Z * Z)),
              (∀ j x, F j x = G j x) → imap F ls1 = imap G ls1) as Hext
      by (intros F G HFG; apply imap_ext; intros j x _; apply HFG).
    rewrite (Hext _ ((λ j l, imap (λ k c, (Z.of_nat j + 1, Z.of_nat k + 1, c)) l)
                     ∘ S)).
    + reflexivity.
    + intros j x. simpl. apply imap_ext. intros k y _. f_equal. f_equal. lia.
Qed.

Lemma popup_lines_that_fit_witness :
  ∃ p, popup_message 25 80 [80; 73; 84; 9; 73; 78; 10; 79; 85; 84; 10] =
         Done (PopupShown p) [] ∧
       popup_nlines p = 4 ∧
       popup_chars p =
         [(1, 1, 80); (1, 2, 73); (1, 3, 84); (1, 4, 32); (1, 5, 73);
          (1, 6, 78); (2, 1, 79); (2, 2, 85); (2, 3, 84)].
Proof.
  eexists. split; [vm_compute; reflexivity|].
  apply (popup_lines_that_fit 25 80
           [80; 73; 84; 9; 73; 78; 10; 79; 85; 84; 10]).
  - vm_compute. repeat first [apply Forall_nil_2 | apply Forall_cons_2];
      vm_compute; lia.
  - vm_compute. reflexivity.
Defined.
